(** * lxd/devices.go: device validation, cgroup directives and LXC lines, the
    CPU balancer and its hotplug monitor, live nic hot-add, instance
    configuration keys

    A shallow embedding of [src/lxd/devices.go].  Go values are modelled as
    follows: [string] as [string] (compared byte-wise), [int] as [Z] with the
    64-bit wrap-around written out, [map[K]V] as [gmap K V] together with an
    explicit iteration order, slices as lists, [(T, error)] results as
    [result T], a run that may panic or loop forever as [outcome T].

    The first part holds the model, the second part the vocabulary in
    which the properties are stated, the third part the properties. *)

From Stdlib Require Import ZArith List Ascii String DecimalString DecimalZ.
From Stdlib Require Import Permutation Sorted Lia FinFun.
From stdpp Require Import gmap strings list.

Local Open Scope Z_scope.

(** * Part I: the model *)

(** ** Go primitives used by the file *)

Module Go.

(** Go's [==] on strings. *)
Definition streq (a b : string) : bool := String.eqb a b.

(** [error] values: only the kind matters to the callers in this file. *)
Inductive error : Type :=
| ErrSyntax (fn s : string)
| ErrRange (fn s : string)
| Errorf (msg : string)
| ErrExternal (what : string).

Inductive result (A : Type) : Type :=
| Ok (a : A)
| Err (e : error).
Arguments Ok {A} a.
Arguments Err {A} e.

(** A computation that can finish, hit a run-time panic, or never return. *)
Inductive outcome (A : Type) : Type :=
| Done (a : A)
| Panic
| Hang.
Arguments Done {A} a.
Arguments Panic {A}.
Arguments Hang {A}.

Definition obind {A B : Type} (m : outcome A) (k : A -> outcome B) : outcome B :=
  match m with
  | Done a => k a
  | Panic => Panic
  | Hang => Hang
  end.

(** [int] is 64 bits wide on the platforms the daemon runs on. *)
Definition int_bits : Z := 64.
Definition max_int : Z := 2 ^ (int_bits - 1) - 1.
Definition min_int : Z := - 2 ^ (int_bits - 1).
Definition wrap (z : Z) : Z :=
  (z + 2 ^ (int_bits - 1)) mod 2 ^ int_bits - 2 ^ (int_bits - 1).

(** The value of a digit or letter in [strconv]'s number syntax. *)
Definition digit_val (c : ascii) : option Z :=
  let n := Z.of_N (N_of_ascii c) in
  if (48 <=? n) && (n <=? 57) then Some (n - 48)
  else if (97 <=? n) && (n <=? 122) then Some (n - 97 + 10)
  else if (65 <=? n) && (n <=? 90) then Some (n - 65 + 10)
  else None.

Fixpoint parse_digits (base : Z) (s : string) (acc : Z) : option Z :=
  match s with
  | EmptyString => Some acc
  | String c rest =>
      match digit_val c with
      | Some d => if d <? base then parse_digits base rest (acc * base + d) else None
      | None => None
      end
  end.

(** [strconv.ParseInt(s, base, bitSize)] for an explicit base: an optional
    sign, at least one digit of the base, and a value that fits [bitSize]
    bits ([bitSize = 0] means [int]).  Which of the two error kinds a string
    with both defects gets is not modelled; no caller looks at it. *)
Definition ParseInt (s : string) (base bitSize : Z) : result Z :=
  let bits := if bitSize =? 0 then int_bits else bitSize in
  match s with
  | EmptyString => Err (ErrSyntax "ParseInt" s)
  | String c rest =>
      let neg := Ascii.eqb c "-" in
      let body := if Ascii.eqb c "+" || Ascii.eqb c "-" then rest else s in
      match body with
      | EmptyString => Err (ErrSyntax "ParseInt" s)
      | _ =>
          match parse_digits base body 0 with
          | None => Err (ErrSyntax "ParseInt" s)
          | Some un =>
              let cutoff := 2 ^ (bits - 1) in
              if negb neg && (cutoff <=? un) then Err (ErrRange "ParseInt" s)
              else if neg && (cutoff <? un) then Err (ErrRange "ParseInt" s)
              else Ok (if neg then - un else un)
          end
      end
  end.

(** [strconv.Atoi]. *)
Definition Atoi (s : string) : result Z := ParseInt s 10 0.

(** [fmt.Sprintf("%d", z)]. *)
Definition itoa (z : Z) : string := NilZero.string_of_int (Z.to_int z).

(** [strings.Split(s, sep)] for a one-byte separator. *)
Fixpoint Split (s : string) (sep : ascii) : list string :=
  match s with
  | EmptyString => [EmptyString]
  | String c rest =>
      if Ascii.eqb c sep then EmptyString :: Split rest sep
      else match Split rest sep with
           | [] => [String c EmptyString]
           | h :: t => String c h :: t
           end
  end.

(** [strings.Contains(s, sep)] for a one-byte separator. *)
Fixpoint Contains (s : string) (sep : ascii) : bool :=
  match s with
  | EmptyString => false
  | String c rest => Ascii.eqb c sep || Contains rest sep
  end.

(** [strings.SplitN(s, sep, 2)] for a one-byte separator: the text before
    the first separator and the text after it, or [s] alone. *)
Fixpoint SplitN2 (s : string) (sep : ascii) : list string :=
  match s with
  | EmptyString => [EmptyString]
  | String c rest =>
      if Ascii.eqb c sep then [EmptyString; rest]
      else match SplitN2 rest sep with
           | [h] => [String c h]
           | h :: t => String c h :: t
           | [] => [String c EmptyString]
           end
  end.

(** [strings.Join(l, sep)]. *)
Definition Join (l : list string) (sep : string) : string := String.concat sep l.

(** [strings.HasPrefix]. *)
Definition HasPrefix (s p : string) : bool := String.prefix p s.

(** Byte-wise lexicographic order, Go's [<=] on strings. *)
Definition strle (a b : string) : bool := String.leb a b.

Fixpoint insert_sorted {A : Type} (le : A -> A -> bool) (x : A) (l : list A) : list A :=
  match l with
  | [] => [x]
  | y :: t => if le y x then y :: insert_sorted le x t else x :: l
  end.

(** Insertion sort, placing an element after the elements it does not
    precede: what [sort.Sort] runs on slices of fewer than twelve elements,
    and one of the results [sort.Sort] may give on longer ones. *)
Definition insertion_sort {A : Type} (le : A -> A -> bool) (l : list A) : list A :=
  fold_left (fun acc x => insert_sorted le x acc) l [].

(** [sort.Strings]: strings that compare equal are equal, so every sorting
    algorithm gives this list (see [sorted_strings_unique]). *)
Definition SortStrings (l : list string) : list string := insertion_sort strle l.

(** Modelled from the spec: [shared.StringInSlice] is declared outside
    [src/]; its callers use it as the membership test "nictype ∈ {...}". *)
Definition StringInSlice (key : string) (l : list string) : bool :=
  existsb (streq key) l.

(** Modelled from the spec: [shared.IntInSlice] is declared outside [src/];
    the balancer uses it as the test "the id is an online CPU". *)
Definition IntInSlice (key : Z) (l : list Z) : bool :=
  existsb (Z.eqb key) l.

(** Indexing a slice with an [int]: out of range is a run-time panic. *)
Definition index {A : Type} (l : list A) (i : Z) : outcome A :=
  if (0 <=? i) && (i <? Z.of_nat (length l)) then
    match nth_error l (Z.to_nat i) with
    | Some x => Done x
    | None => Panic
    end
  else Panic.

(** Reading a [map[string]string]: a missing key reads as the empty string. *)
Definition get (m : gmap string string) (k : string) : string :=
  match m !! k with
  | Some v => v
  | None => EmptyString
  end.

(** [strings.HasSuffix]: [len(s) >= len(suffix)] and the last
    [len(suffix)] bytes of [s] are [suffix]. *)
Definition HasSuffix (s suffix : string) : bool :=
  (String.length suffix <=? String.length s)%nat &&
  streq (String.substring (String.length s - String.length suffix)
           (String.length suffix) s) suffix.

(** [s[lo:hi]] on a string that is known to hold [hi] bytes. *)
Definition substr (s : string) (lo hi : nat) : string := String.substring lo (hi - lo) s.

(** [b[lo:hi]] on a slice as long as its capacity: bounds out of order or
    out of range are a run-time panic. *)
Definition slice {A : Type} (b : list A) (lo hi : Z) : outcome (list A) :=
  if (0 <=? lo) && (lo <=? hi) && (hi <=? Z.of_nat (length b)) then
    Done (firstn (Z.to_nat (hi - lo)) (skipn (Z.to_nat lo) b))
  else Panic.

Fixpoint drop_slashes (l : list ascii) : list ascii :=
  match l with
  | c :: rest => if Ascii.eqb c "/" then drop_slashes rest else l
  | [] => []
  end.

Fixpoint until_slash (l : list ascii) : list ascii :=
  match l with
  | c :: rest => if Ascii.eqb c "/" then [] else c :: until_slash rest
  | [] => []
  end.

(** [path.Base]: ["."] for the empty path; otherwise the trailing slashes
    are stripped and the text after the last slash is kept, ["/"] when
    nothing is left.  The path is read from its end. *)
Definition Base (path : string) : string :=
  if streq path "" then "."
  else
    let stripped := drop_slashes (rev (list_ascii_of_string path)) in
    let last := string_of_list_ascii (rev (until_slash stripped)) in
    if streq last "" then "/" else last.

(** [strings.TrimSuffix]: [s] without the suffix when it ends with it,
    [s] itself otherwise. *)
Definition TrimSuffix (s suffix : string) : string :=
  if HasSuffix s suffix then substr s 0 (String.length s - String.length suffix) else s.

End Go.

Export Go (result(..), outcome(..), error(..)).

Notation "a =s b" := (Go.streq a b) (at level 70, no associativity).
#[global] Instance outcome_bind : MBind outcome := fun A B k m => Go.obind m k.
#[global] Instance outcome_ret : MRet outcome := @Go.Done.

(** ** Device Model & Validator ([validDeviceConfig]) *)

Definition validDeviceConfig (t k v : string) : bool :=
  if k =s "type" then false
  else if t =s "unix-char" then
    if k =s "path" then true
    else if k =s "major" then true
    else if k =s "minor" then true
    else if k =s "uid" then true
    else if k =s "gid" then true
    else if k =s "mode" then true
    else false
  else if t =s "unix-block" then
    if k =s "path" then true
    else if k =s "major" then true
    else if k =s "minor" then true
    else if k =s "uid" then true
    else if k =s "gid" then true
    else if k =s "mode" then true
    else false
  else if t =s "nic" then
    if k =s "parent" then true
    else if k =s "name" then true
    else if k =s "hwaddr" then true
    else if k =s "mtu" then true
    else if k =s "nictype" then
      Go.StringInSlice v ["physical"; "bridged"; "p2p"; "macvlan"]
    else false
  else if t =s "disk" then
    if k =s "path" then true
    else if k =s "source" then true
    else if (k =s "readonly") || (k =s "optional") then true
    else false
  else if t =s "none" then false
  else false.

(** The per-type attribute whitelist, as the specification words it
    (section 3, "Device"): the sets [validDeviceConfig] is compared with. *)
Definition spec_whitelist (t : string) : list string :=
  if t =s "nic" then ["parent"; "name"; "hwaddr"; "mtu"; "nictype"]
  else if t =s "disk" then ["path"; "source"; "readonly"; "optional"]
  else if (t =s "unix-char") || (t =s "unix-block") then
    ["path"; "major"; "minor"; "uid"; "gid"; "mode"]
  else [].

(** ** Kernel Resource Translator: the cgroup directive of a unix device *)

(** What the translator asks of the operating system: [syscall.Stat]'s
    [Rdev] field for a path, and [filepath.Join]. *)
Record os_env : Type := {
  stat_rdev : string -> result N;
  filepath_Join : string -> string -> string
}.

(** The octal literals of the source. *)
Definition o0444 : Z := 4 * 8 ^ 2 + 4 * 8 + 4.
Definition o0222 : Z := 2 * 8 ^ 2 + 2 * 8 + 2.
Definition o0660 : Z := 6 * 8 ^ 2 + 6 * 8 + 0.

Definition modeHasRead (mode : Z) : bool :=
  if negb (Z.land mode o0444 =? 0) then true else false.

Definition modeHasWrite (mode : Z) : bool :=
  if negb (Z.land mode o0222 =? 0) then true else false.

Definition devModeOct (strmode : string) : result Z :=
  if strmode =s "" then Ok o0660
  else match Go.ParseInt strmode 8 32 with
       | Err _ => Err (Errorf ("Bad device mode: " +:+ strmode))
       | Ok i => Ok i
       end.

Definition devModeString (strmode : string) : result string :=
  match devModeOct strmode with
  | Err e => Err e
  | Ok i =>
      let mode := "m" in
      let mode := if modeHasRead i then mode +:+ "r" else mode in
      let mode := if modeHasWrite i then mode +:+ "w" else mode in
      Ok mode
  end.

Definition getDev (os : os_env) (path : string) : result (Z * Z) :=
  match stat_rdev os path with
  | Err e => Err e
  | Ok rdev => Ok (Z.of_N (rdev / 256), Z.of_N (rdev mod 256))
  end.

(** [fmt.Sprintf("%s %d:%d %s", t, major, minor, mode)]. *)
Definition devcg_line (t : string) (major minor : Z) (mode : string) : string :=
  t +:+ " " +:+ Go.itoa major +:+ ":" +:+ Go.itoa minor +:+ " " +:+ mode.

Definition deviceCgroupInfo (os : os_env) (dev : gmap string string) : result string :=
  let t := Go.get dev "type" in
  match (if t =s "unix-char" then Ok "c"
         else if t =s "unix-block" then Ok "b"
         else Err (Errorf ("BUG: bad device type " +:+ Go.get dev "type"))) with
  | Err e => Err e
  | Ok t =>
      match (if (Go.get dev "major" =s "") && (Go.get dev "minor" =s "") then
               let devname := Go.get dev "path" in
               let devname :=
                 if negb (Go.HasPrefix devname "/") then filepath_Join os "/" devname
                 else devname in
               getDev os devname
             else if negb (Go.get dev "major" =s "") && negb (Go.get dev "minor" =s "") then
               match Go.Atoi (Go.get dev "major") with
               | Err e => Err e
               | Ok major =>
                   match Go.Atoi (Go.get dev "minor") with
                   | Err e => Err e
                   | Ok minor => Ok (major, minor)
                   end
               end
             else Err (Errorf "Both major and minor must be supplied for devices")) with
      | Err e => Err e
      | Ok (major, minor) =>
          match devModeString (Go.get dev "mode") with
          | Err e => Err e
          | Ok mode => Ok (devcg_line t major minor mode)
          end
      end
  end.

(** The device of the specification's example. *)
Definition example_unix_char : gmap string string :=
  {[ "type" := "unix-char"; "major" := "10"; "minor" := "200"; "mode" := "0440" ]}.

(** ** CPU Balancer ([deviceTaskBalance]) *)

(** An entry of the usage slice.  The source keeps [count] behind a pointer
    so that the copies made by [range] and by [sort.Sort]'s swaps share it;
    an entry that carries its counter, updated in place, is the same. *)
Record deviceTaskCPU : Type := {
  id : Z;
  strId : string;
  count : Z
}.

(** [deviceTaskCPUs.Less], on two entries. *)
Definition Less (a b : deviceTaskCPU) : bool := count a <? count b.

(** A loaded instance: its expanded configuration and whether it runs.
    Instances are [container] interface values holding pointers, so the maps
    keyed by them are keyed by identity: the position in the list of loaded
    instances stands for it. *)
Record container : Type := {
  Name : string;
  ExpandedConfig : gmap string string;
  IsRunning : bool
}.

(** What Go leaves open and a pass depends on: the order [sort.Sort] gives
    to entries that compare equal, and the order in which [range] visits
    the entries of a map.  [runtime_ok] states what Go does promise. *)
Record runtime : Type := {
  sort_usage : list deviceTaskCPU -> list deviceTaskCPU;
  range_fixed : gmap Z (list nat) -> list (Z * list nat);
  range_balanced : gmap nat Z -> list (nat * Z)
}.

Record runtime_ok (rt : runtime) : Prop := {
  sort_usage_perm : forall u, Permutation (sort_usage rt u) u;
  sort_usage_sorted : forall u,
    StronglySorted (fun a b => Less b a = false) (sort_usage rt u);
  range_fixed_perm : forall m, Permutation (range_fixed rt m) (map_to_list m);
  range_balanced_perm : forall m, Permutation (range_balanced rt m) (map_to_list m)
}.

(** The local [min] closure. *)
Definition min (x y : Z) : Z := if x <? y then x else y.

(** The effective [limits.cpu] of an instance: the online CPU count when
    the key is unset or empty. *)
Definition limits_cpu (cpus : list Z) (c : container) : string :=
  match ExpandedConfig c !! "limits.cpu" with
  | Some cpu => if cpu =s "" then Go.itoa (Z.of_nat (length cpus)) else cpu
  | None => Go.itoa (Z.of_nat (length cpus))
  end.

(** [fixedContainers[i] = append(fixedContainers[i], c)], or a fresh slice. *)
Definition fixed_add (i : Z) (c : nat) (fixedContainers : gmap Z (list nat)) :
    gmap Z (list nat) :=
  match fixedContainers !! i with
  | Some l => <[i := l ++ [c]]> fixedContainers
  | None => <[i := [c]]> fixedContainers
  end.

(** [for i := low; i <= high; i++]: when [high] is the largest [int] the
    test never fails and [i++] wraps around, so the loop does not end. *)
Definition pin_range (cpus : list Z) (c : nat) (low high : Z)
    (fixedContainers : gmap Z (list nat)) : outcome (gmap Z (list nat)) :=
  if high =? Go.max_int then Hang
  else Done (fold_left
               (fun f i => if negb (Go.IntInSlice i cpus) then f else fixed_add i c f)
               (seqZ low (high - low + 1)) fixedContainers).

(** One chunk of a pinning expression; a chunk that does not parse is
    logged and skipped. *)
Definition pin_chunk (cpus : list Z) (c : nat) (chunk : string)
    (fixedContainers : gmap Z (list nat)) : outcome (gmap Z (list nat)) :=
  if Go.Contains chunk "-" then
    match Go.SplitN2 chunk "-" with
    | [f0; f1] =>
        match Go.Atoi f0 with
        | Err _ => Done fixedContainers
        | Ok low =>
            match Go.Atoi f1 with
            | Err _ => Done fixedContainers
            | Ok high => pin_range cpus c low high fixedContainers
            end
        end
    | _ => Done fixedContainers
    end
  else
    match Go.Atoi chunk with
    | Err _ => Done fixedContainers
    | Ok nr =>
        if negb (Go.IntInSlice nr cpus) then Done fixedContainers
        else Done (fixed_add nr c fixedContainers)
    end.

Fixpoint pin_chunks (cpus : list Z) (c : nat) (chunks : list string)
    (fixedContainers : gmap Z (list nat)) : outcome (gmap Z (list nat)) :=
  match chunks with
  | [] => Done fixedContainers
  | chunk :: rest =>
      f ← pin_chunk cpus c chunk fixedContainers; pin_chunks cpus c rest f
  end.

(** The body of the loop over the instances, for the instance loaded as
    number [h]. *)
Definition classify_one (cpus : list Z) (h : nat) (c : container)
    (st : gmap Z (list nat) * gmap nat Z) : outcome (gmap Z (list nat) * gmap nat Z) :=
  let '(fixedContainers, balancedContainers) := st in
  let cpu := limits_cpu cpus c in
  if negb (IsRunning c) then Done st
  else
    match Go.Atoi cpu with
    | Ok count =>
        let count := min count (Z.of_nat (length cpus)) in
        Done (fixedContainers, <[h := count]> balancedContainers)
    | Err _ =>
        f ← pin_chunks cpus h (Go.Split cpu ",") fixedContainers;
        Done (f, balancedContainers)
    end.

Fixpoint classify_from (cpus : list Z) (h : nat) (containers : list container)
    (st : gmap Z (list nat) * gmap nat Z) : outcome (gmap Z (list nat) * gmap nat Z) :=
  match containers with
  | [] => Done st
  | c :: rest => st' ← classify_one cpus h c st; classify_from cpus (S h) rest st'
  end.

Definition classify (cpus : list Z) (containers : list container) :
    outcome (gmap Z (list nat) * gmap nat Z) :=
  classify_from cpus 0 containers (∅, ∅).

(** The usage slice before any assignment. *)
Definition usage_init (cpus : list Z) : list deviceTaskCPU :=
  map (fun i => {| id := i; strId := Go.itoa i; count := 0 |}) cpus.

(** [pinning[ctn] = append(pinning[ctn], id)], or a fresh slice. *)
Definition pin_add (ctn : nat) (sid : string) (pinning : gmap nat (list string)) :
    gmap nat (list string) :=
  match pinning !! ctn with
  | Some l => <[ctn := l ++ [sid]]> pinning
  | None => <[ctn := [sid]]> pinning
  end.

(** [*cpu.count += 1]. *)
Definition incr (cpu : deviceTaskCPU) : deviceTaskCPU :=
  {| id := id cpu; strId := strId cpu; count := Go.wrap (count cpu + 1) |}.

(** One entry of [fixedContainers]: [usage[cpu]] indexes the usage slice
    with the CPU id. *)
Definition fixed_one (st : list deviceTaskCPU * gmap nat (list string))
    (e : Z * list nat) : outcome (list deviceTaskCPU * gmap nat (list string)) :=
  let '(cpu, ctns) := e in
  entry ← Go.index (fst st) cpu;
  let sid := strId entry in
  Done (fold_left
          (fun '(usage, pinning) ctn =>
             (alter incr (Z.to_nat cpu) usage, pin_add ctn sid pinning))
          ctns st).

Fixpoint fixed_stage (entries : list (Z * list nat))
    (st : list deviceTaskCPU * gmap nat (list string)) :
    outcome (list deviceTaskCPU * gmap nat (list string)) :=
  match entries with
  | [] => Done st
  | e :: rest => st' ← fixed_one st e; fixed_stage rest st'
  end.

(** The inner loop of the load-balanced stage, over the sorted usage slice:
    it stops when [count] is exactly zero. *)
Fixpoint alloc (ctn : nat) (count : Z) (usage : list deviceTaskCPU)
    (pinning : gmap nat (list string)) : list deviceTaskCPU * gmap nat (list string) :=
  match usage with
  | [] => ([], pinning)
  | cpu :: rest =>
      if count =? 0 then (usage, pinning)
      else
        let count := Go.wrap (count - 1) in
        let '(rest', pinning') := alloc ctn count rest (pin_add ctn (strId cpu) pinning) in
        (incr cpu :: rest', pinning')
  end.

(** One entry of [balancedContainers]: sort, then allocate. *)
Definition balance_one (rt : runtime) (st : list deviceTaskCPU * gmap nat (list string))
    (e : nat * Z) : list deviceTaskCPU * gmap nat (list string) :=
  let '(ctn, count) := e in
  alloc ctn count (sort_usage rt (fst st)) (snd st).

Definition balanced_stage (rt : runtime) (entries : list (nat * Z))
    (st : list deviceTaskCPU * gmap nat (list string)) :
    list deviceTaskCPU * gmap nat (list string) :=
  fold_left (balance_one rt) entries st.

(** The value written to [cpuset.cpus] for a pinning set. *)
Definition cpuset_value (set : list string) : string :=
  Go.Join (Go.SortStrings set) ",".

(** What a pass that runs to its end leaves: the usage slice, the pinning
    map, and the [cpuset.cpus] value written for each instance in it (a
    failing write is logged and changes nothing else). *)
Record pass : Type := {
  usage : list deviceTaskCPU;
  pinning : gmap nat (list string);
  cpuset_cpus : gmap nat string
}.

(** [deviceTaskBalance], from the list of online CPU ids the enumeration of
    [/sys/bus/cpu/devices] gave and the loaded instances. *)
Definition deviceTaskBalance (rt : runtime) (cpus : list Z) (containers : list container) :
    outcome pass :=
  '(fixedContainers, balancedContainers) ← classify cpus containers;
  st ← fixed_stage (range_fixed rt fixedContainers) (usage_init cpus, ∅);
  let '(usage, pinning) :=
    balanced_stage rt (range_balanced rt balancedContainers) st in
  Done {| usage := usage; pinning := pinning; cpuset_cpus := cpuset_value <$> pinning |}.

(** A runtime to evaluate passes with: insertion sort, and maps visited by
    ascending key. *)
Definition le_count (a b : deviceTaskCPU) : bool := negb (Less b a).

Definition by_key {K V : Type} (le : K -> K -> bool) (l : list (K * V)) : list (K * V) :=
  Go.insertion_sort (fun a b => le (fst a) (fst b)) l.

Definition rt_ascending : runtime := {|
  sort_usage := Go.insertion_sort le_count;
  range_fixed := fun m => by_key Z.leb (map_to_list m);
  range_balanced := fun m => by_key Nat.leb (map_to_list m)
|}.

(** The same with the maps visited by descending key. *)
Definition rt_descending : runtime := {|
  sort_usage := Go.insertion_sort le_count;
  range_fixed := fun m => by_key Z.geb (map_to_list m);
  range_balanced := fun m => by_key (fun a b => Nat.leb b a) (map_to_list m)
|}.

(** ** Live Device Delta Engine ([setupNic], [devicesApplyDeltaLive]) *)

Module Live.

(** What the engine does to the world, with what the world answered. *)
Inductive event : Type :=
| ERandRead (bytes : list Byte.byte)
| EExec (argv : list string) (r : result unit)
| EInterfaces (r : result (list string))
| EGenerateMacAddr (template : string) (r : result string)
| ETxExec (stmt : string) (args : list string) (r : result unit)
| ETxQueryRow (query : string) (args : list string) (r : result Z)
| EAttachInterface (src dst : string) (r : result unit)
| EOpenDevNull (r : result unit)
| ERunCommand (argv : list string) (r : result unit)
| EContainer (method : string) (dev : gmap string string) (r : result unit)
| ESetCgroupItem (key value : string)
| EInitPid (pid : Z)
| ERemove (path : string) (r : result unit).

(** The world: the answer to each request, given what happened so far.
    [generateMacAddr], [AttachMount], [DetachMount] and [setupUnixDev] are
    declared outside [src/] and are taken as requests to the world. *)
Record world : Type := {
  rand_Read : list event -> list Byte.byte;
  exec_Run : list event -> list string -> result unit;
  Interfaces : list event -> result (list string);
  generateMacAddr : list event -> string -> result string;
  tx_Exec : list event -> string -> list string -> result unit;
  tx_QueryRow : list event -> string -> list string -> result Z;
  AttachInterface : list event -> string -> string -> result unit;
  open_DevNull : list event -> result unit;
  RunCommand : list event -> list string -> result unit;
  container_method : list event -> string -> gmap string string -> result unit;
  InitPid : list event -> Z;
  os_Remove : list event -> string -> result unit;
  os_Args0 : string;
  os : os_env
}.

(** Computations that extend the trace of events. *)
Definition M (A : Type) : Type := list event -> A * list event.

Definition ret {A : Type} (a : A) : M A := fun t => (a, t).

Definition bind {A B : Type} (m : M A) (k : A -> M B) : M B :=
  fun t => let '(a, t') := m t in k a t'.

Definition ask {A : Type} (answer : list event -> A) (ev : A -> event) : M A :=
  fun t => let a := answer t in (a, t ++ [ev a]).

Notation "'let*' x ':=' m 'in' k" := (bind m (fun x => k))
  (at level 10, x name, m at level 200, k at level 200).

Definition exec (w : world) (argv : list string) : M (result unit) :=
  ask (fun t => exec_Run w t argv) (EExec argv).

(** [fmt]'s rendering of an error with [%s]. *)
Definition error_msg (e : error) : string :=
  match e with
  | ErrSyntax fn s => "strconv." +:+ fn +:+ ": parsing " +:+ s +:+ ": invalid syntax"
  | ErrRange fn s => "strconv." +:+ fn +:+ ": parsing " +:+ s +:+ ": value out of range"
  | Errorf msg => msg
  | ErrExternal what => what
  end.

Definition hex_digit (n : N) : ascii :=
  match nth_error (list_ascii_of_string "0123456789abcdef") (N.to_nat n) with
  | Some c => c
  | None => "0"%char
  end.

(** [hex.EncodeToString]. *)
Fixpoint hex_EncodeToString (bytes : list Byte.byte) : string :=
  match bytes with
  | [] => EmptyString
  | b :: rest =>
      String (hex_digit (Byte.to_N b / 16))
        (String (hex_digit (Byte.to_N b mod 16)) (hex_EncodeToString rest))
  end.

Definition tempNic (w : world) : M string :=
  let* randBytes := ask (fun t => firstn 4 (rand_Read w t ++ repeat Byte.x00 4)) ERandRead in
  ret ("veth" +:+ hex_EncodeToString randBytes).

Definition inList (l : list string) (s : string) : bool := existsb (fun ls => ls =s s) l.

(** The search of [nextUnusedNic], for at most [fuel] candidates. *)
Fixpoint nextUnusedNic_from (list : list string) (fuel : nat) (i : Z) : string :=
  let nic := "eth" +:+ Go.itoa i in
  match fuel with
  | O => nic
  | S fuel' => if negb (inList list nic) then nic else nextUnusedNic_from list fuel' (i + 1)
  end.

(** [nextUnusedNic]: among [length list + 1] candidates one is not in
    [list], so the search of the source ends within that many steps. *)
Definition nextUnusedNic (w : world) : M string :=
  let* r := ask (Interfaces w) EInterfaces in
  match r with
  | Err _ => ret "eth0"
  | Ok list =>
      if (length list =? 0)%nat then ret "eth0"
      else ret (nextUnusedNic_from list (length list) 0)
  end.

Definition removeInterface (w : world) (nic : string) : M unit :=
  let* _ := exec w ["ip"; "link"; "del"; nic] in ret tt.

(** A running instance as the engine sees it. *)
Record instance : Type := {
  ID : Z;
  Name : string;
  ExpandedConfig : gmap string string
}.

Definition nic_checks (d : gmap string string) : result unit :=
  if Go.get d "nictype" =s "" then Err (Errorf "Missing nic type")
  else if negb (Go.StringInSlice (Go.get d "nictype") ["bridged"; "physical"; "p2p"; "macvlan"])
  then Err (Errorf ("Bad nic type: " +:+ Go.get d "nictype"))
  else if Go.StringInSlice (Go.get d "nictype") ["bridged"; "physical"; "macvlan"]
          && (Go.get d "parent" =s "")
  then Err (Errorf ("Missing parent for " +:+ Go.get d "nictype" +:+ " type nic."))
  else Ok tt.

(** "Generate MAC if needed". *)
Definition setupNic_hwaddr (w : world) (c : instance) (name : string)
    (d : gmap string string) : M (result string) :=
  let key := "volatile." +:+ name +:+ ".hwaddr" in
  let hwaddr := Go.get (ExpandedConfig c) key in
  if hwaddr =s "" then
    let template := if negb (Go.get d "hwaddr" =s "") then Go.get d "hwaddr"
                    else "00:16:3e:xx:xx:xx" in
    let* r := ask (fun t => generateMacAddr w t template) (EGenerateMacAddr template) in
    match r with
    | Err e => ret (Err e)
    | Ok hwaddr =>
        if negb (hwaddr =s Go.get d "hwaddr") then
          let stmt := "INSERT OR REPLACE into containers_config (container_id, key, value) VALUES (?, ?, ?)" in
          let args := [Go.itoa (ID c); key; hwaddr] in
          let* r := ask (fun t => tx_Exec w t stmt args) (ETxExec stmt args) in
          match r with
          | Err e => ret (Err e)
          | Ok _ => ret (Ok hwaddr)
          end
        else ret (Ok hwaddr)
    end
  else ret (Ok hwaddr).

(** "Create the device": the three [if] statements in turn; [dev] is the
    variable they assign. *)
Definition setupNic_create (w : world) (d : gmap string string) : M (result string) :=
  let dev := EmptyString in
  let* r :=
    (if Go.StringInSlice (Go.get d "nictype") ["bridged"; "p2p"] then
       let* n1 := tempNic w in
       let* n2 := tempNic w in
       let* r := exec w ["ip"; "link"; "add"; n1; "type"; "veth"; "peer"; "name"; n2] in
       match r with
       | Err e => ret (Err e)
       | Ok _ =>
           if Go.get d "nictype" =s "bridge" then
             let* r := exec w ["brctl"; "addif"; Go.get d "parent"; n1] in
             match r with
             | Err e => let* _ := removeInterface w n2 in ret (Err e)
             | Ok _ => ret (Ok n2)
             end
           else ret (Ok n2)
       end
     else ret (Ok dev)) in
  match r with
  | Err e => ret (Err e)
  | Ok dev =>
      let dev := if Go.get d "nictype" =s "physical" then Go.get d "parent" else dev in
      if Go.get d "nictype" =s "macvlan" then
        let* n1 := tempNic w in
        let* r := exec w ["ip"; "link"; "add"; n1; "type"; "macvlan"; "link";
                          Go.get d "parent"; "mode"; "bridge"] in
        match r with
        | Err e => ret (Err e)
        | Ok _ => ret (Ok n1)
        end
      else ret (Ok dev)
  end.

(** [setupNic]; the device map [d] is shared with the caller, so the map as
    the call leaves it is returned with the result. *)
Definition setupNic (w : world) (c : instance) (name : string) (d : gmap string string) :
    M (gmap string string * result string) :=
  match nic_checks d with
  | Err e => ret (d, Err e)
  | Ok _ =>
      let* d := (if Go.get d "name" =s "" then
                   let* n := nextUnusedNic w in ret (<["name" := n]> d)
                 else ret d) in
      let* r := setupNic_hwaddr w c name d in
      match r with
      | Err e => ret (d, Err e)
      | Ok hwaddr =>
          let* r := setupNic_create w d in
          match r with
          | Err e => ret (d, Err e)
          | Ok dev =>
              let* r := exec w ["ip"; "link"; "set"; "dev"; dev; "address"; hwaddr] in
              match r with
              | Err e => let* _ := removeInterface w dev in ret (d, Err e)
              | Ok _ =>
                  let* r := exec w ["ip"; "link"; "set"; "dev"; dev; "up"] in
                  match r with
                  | Err e => let* _ := removeInterface w dev in ret (d, Err e)
                  | Ok _ => ret (d, Ok dev)
                  end
              end
          end
      end
  end.

Definition detachInterface (w : world) (key : string) : M (result unit) :=
  let* r := ask (open_DevNull w) EOpenDevNull in
  match r with
  | Err e => ret (Err e)
  | Ok _ =>
      let argv := ["ip"; "link"; "del"; key] in
      ask (fun t => RunCommand w t argv) (ERunCommand argv)
  end.

Definition txUpdateNic (w : world) (cId : Z) (devname nicname : string) : M (result unit) :=
  let q := "SELECT id FROM containers_devices WHERE container_id == ? AND type == 1 AND name == ?" in
  let qargs := [Go.itoa cId; devname] in
  let* r := ask (fun t => tx_QueryRow w t q qargs) (ETxQueryRow q qargs) in
  match r with
  | Err e => ret (Err e)
  | Ok dId =>
      let stmt := "INSERT OR REPLACE into containers_devices_config (container_device_id, key, value) VALUES (?, ?, ?)" in
      let args := [Go.itoa dId; "name"; nicname] in
      ask (fun t => tx_Exec w t stmt args) (ETxExec stmt args)
  end.

Definition container_call (w : world) (method : string) (dev : gmap string string) :
    M (result unit) :=
  ask (fun t => container_method w t method dev) (EContainer method dev).

Definition DetachUnixDev (w : world) (dev : gmap string string) : M (result unit) :=
  match deviceCgroupInfo (os w) dev with
  | Err e => ret (Err e)
  | Ok cginfo =>
      let* _ := ask (fun _ => tt) (fun _ => ESetCgroupItem "devices.remove" cginfo) in
      let* pid := ask (InitPid w) EInitPid in
      if pid =? -1 then ret (Ok tt)
      else
        let pidstr := Go.itoa pid in
        let* r := exec w [os_Args0 w; "forkumount"; pidstr; Go.get dev "path"] in
        match r with
        | Err e => ret (Err e)
        | Ok _ =>
            let path := "/proc/" +:+ Go.itoa pid +:+ "/root/" +:+ Go.get dev "path" in
            ask (fun t => os_Remove w t path) (ERemove path)
        end
  end.

(** Modelled from the spec: [shared.Devices.Update] is declared outside
    [src/].  Section 3, "Delta": a device is removed when the new set lacks
    it or holds it with other attributes, and added when the old set lacks
    it or holds it with other attributes. *)
Definition Update (preDevList postDevList : gmap string (gmap string string)) :
    gmap string (gmap string string) * gmap string (gmap string string) :=
  (filter (fun kv => postDevList !! kv.1 ≠ Some kv.2) preDevList,
   filter (fun kv => preDevList !! kv.1 ≠ Some kv.2) postDevList).

(** The body of the loop over [rmList]. *)
Definition remove_one (w : world) (c : instance) (key : string) (dev : gmap string string) :
    M (result unit) :=
  let t := Go.get dev "type" in
  if t =s "nic" then
    if Go.get dev "name" =s "" then
      ret (Err (Errorf ("Do not know a name for the nic for device " +:+ key)))
    else
      let* r := detachInterface w (Go.get dev "name") in
      match r with
      | Err e =>
          ret (Err (Errorf ("Error removing device " +:+ key +:+ " (nic " +:+ Go.get dev "name"
                            +:+ ") from container " +:+ Name c +:+ ": " +:+ error_msg e)))
      | Ok _ => ret (Ok tt)
      end
  else if t =s "disk" then container_call w "DetachMount" dev
  else if t =s "unix-block" then DetachUnixDev w dev
  else if t =s "unix-char" then DetachUnixDev w dev
  else ret (Ok tt).

(** The body of the loop over [addList]. *)
Definition add_one (w : world) (c : instance) (key : string) (dev : gmap string string) :
    M (result unit) :=
  let t := Go.get dev "type" in
  if t =s "nic" then
    let* p := setupNic w c key dev in
    let '(dev, r) := p in
    match r with
    | Err e =>
        ret (Err (Errorf ("Unable to create nic " +:+ Go.get dev "name" +:+ " for container "
                          +:+ Name c +:+ ": " +:+ error_msg e)))
    | Ok tmpName =>
        let* r := ask (fun t => AttachInterface w t tmpName (Go.get dev "name"))
                      (EAttachInterface tmpName (Go.get dev "name")) in
        match r with
        | Err e =>
            let* _ := removeInterface w tmpName in
            ret (Err (Errorf ("Unable to move nic " +:+ tmpName +:+ " into container "
                              +:+ Name c +:+ " as " +:+ Go.get dev "name" +:+ ": "
                              +:+ error_msg e)))
        | Ok _ =>
            let* r := txUpdateNic w (ID c) key (Go.get dev "name") in
            match r with
            | Err e => ret (Err e)
            | Ok _ => ret (Ok tt)
            end
        end
    end
  else if t =s "disk" then
    if (Go.get dev "source" =s "") || (Go.get dev "path" =s "") then
      ret (Err (Errorf "no source or destination given"))
    else container_call w "AttachMount" dev
  else if t =s "unix-block" then container_call w "AttachUnixDev" dev
  else if t =s "unix-char" then container_call w "AttachUnixDev" dev
  else ret (Ok tt).

(** A [range] loop whose body returns from the function on an error. *)
Fixpoint for_each (body : string -> gmap string string -> M (result unit))
    (entries : list (string * gmap string string)) : M (result unit) :=
  match entries with
  | [] => ret (Ok tt)
  | (key, dev) :: rest =>
      let* r := body key dev in
      match r with
      | Err e => ret (Err e)
      | Ok _ => for_each body rest
      end
  end.

(** [devicesApplyDeltaLive]; [range] gives the order in which a device map
    is visited. *)
Definition devicesApplyDeltaLive
    (range : gmap string (gmap string string) -> list (string * gmap string string))
    (w : world) (c : instance)
    (preDevList postDevList : gmap string (gmap string string)) : M (result unit) :=
  let '(rmList, addList) := Update preDevList postDevList in
  let* r := for_each (remove_one w c) (range rmList) in
  match r with
  | Err e => ret (Err e)
  | Ok _ => for_each (add_one w c) (range addList)
  end.

End Live.

Definition instance (name cpu : string) : container :=
  {| Name := name; ExpandedConfig := {[ "limits.cpu" := cpu ]}; IsRunning := true |}.

(** ** Hotplug monitor: the uevent parser of [deviceMonitorProcessors] *)

(** The body of [for i, e := range b], [st] holding [last] and [props]: at
    a NUL byte the bytes [b[last+1 : i]] are taken as one message. *)
Definition uevent_byte (b : list Byte.byte) (st : Z * gmap string string)
    (i : Z) (e : Byte.byte) : outcome (Z * gmap string string) :=
  let '(last, props) := st in
  if (i =? Z.of_nat (length b)) || Byte.eqb e Byte.x00 then
    bytes ← Go.slice b (last + 1) i;
    let msg := string_of_list_byte bytes in
    let last := i in
    if (String.length msg =? 0)%nat || (msg =s String Ascii.zero EmptyString)
    then Done (last, props)
    else
      match Go.SplitN2 msg "=" with
      | [f0; f1] => Done (last, <[f0 := f1]> props)
      | _ => Done (last, props)
      end
  else Done st.

(** The loop from index [i] on, [rest] being [b[i:]]. *)
Fixpoint uevent_scan (b : list Byte.byte) (i : Z) (rest : list Byte.byte)
    (st : Z * gmap string string) : outcome (Z * gmap string string) :=
  match rest with
  | [] => Done st
  | e :: rest' => st' ← uevent_byte b st i e; uevent_scan b (i + 1) rest' st'
  end.

(** The properties read from the buffer [b]: [last := 0], an empty
    [props], and the loop over all of [b]. *)
Definition uevent_props (b : list Byte.byte) : outcome (gmap string string) :=
  st ← uevent_scan b 0 b (0, ∅); Done (snd st).

(** What [syscall.Read(fd, b)] leaves in [b] when it receives [data]: the
    bytes received (at most [len(b)]) overwrite the start of [b], the rest
    of [b] stays. *)
Definition read_into (b data : list Byte.byte) : list Byte.byte :=
  firstn (length b) data ++ skipn (length data) b.

(** One turn of the monitor's loop, from the buffer [b] as the turns
    before left it and the answer of [syscall.Read].  The result is the
    buffer and the message sent on the channel, if one is. *)
Definition uevent_turn (b : list Byte.byte) (read : result (list Byte.byte)) :
    outcome (list Byte.byte * option (list string)) :=
  match read with
  | Err _ => Done (b, None)
  | Ok data =>
      let b := read_into b data in
      props ← uevent_props b;
      if negb (Go.get props "SUBSYSTEM" =s "cpu") || negb (Go.get props "DRIVER" =s "processor")
      then Done (b, None)
      else if negb (Go.get props "ACTION" =s "offline") && negb (Go.get props "ACTION" =s "online")
      then Done (b, None)
      else Done (b, Some [Go.Base (Go.get props "DEVPATH"); Go.get props "ACTION"])
  end.

(** ** Mount options of a unix device ([devGetOptions]) *)

Definition devGetOptions (d : gmap string string) : result string :=
  let opts := ["bind"; "create=file"] in
  match (if negb (Go.get d "uid" =s "") then
           match Go.Atoi (Go.get d "uid") with
           | Err e => Err e
           | Ok u => Ok (opts ++ ["uid=" +:+ Go.itoa u])
           end
         else Ok opts) with
  | Err e => Err e
  | Ok opts =>
      match (if negb (Go.get d "gid" =s "") then
               match Go.Atoi (Go.get d "gid") with
               | Err e => Err e
               | Ok g => Ok (opts ++ ["gid=" +:+ Go.itoa g])
               end
             else Ok opts) with
      | Err e => Err e
      | Ok opts =>
          match (if negb (Go.get d "mode" =s "") then
                   match devModeOct (Go.get d "mode") with
                   | Err e => Err e
                   | Ok m => Ok (opts ++ ["mode=" +:+ Go.itoa m])
                   end
                 else Ok (opts ++ ["mode=0660"])) with
          | Err e => Err e
          | Ok opts => Ok (Go.Join opts ",")
          end
      end
  end.

(** ** Device types in the database *)

Definition dbDeviceTypeToString (t : Z) : result string :=
  if t =? 0 then Ok "none"
  else if t =? 1 then Ok "nic"
  else if t =? 2 then Ok "disk"
  else if t =? 3 then Ok "unix-char"
  else if t =? 4 then Ok "unix-block"
  else Err (Errorf ("Invalid device type " +:+ Go.itoa t)).

(** [deviceTypeToDbType] returns [-1] together with its error. *)
Definition deviceTypeToDbType (t : string) : Z * option error :=
  if t =s "none" then (0, None)
  else if t =s "nic" then (1, None)
  else if t =s "disk" then (2, None)
  else if t =s "unix-char" then (3, None)
  else if t =s "unix-block" then (4, None)
  else (-1, Some (Errorf ("Invalid device type " +:+ t))).

(** ** LXC configuration lines of a device ([deviceToLxc]) *)

(** What [deviceToLxc] asks of the host for a disk: [shared.IsBlockdevPath],
    [shared.IsDir] and [mountTmpBlockdev] are declared outside [src/] and
    are taken as requests to the host. *)
Record disk_env : Type := {
  IsBlockdevPath : string -> bool;
  IsDir : string -> bool;
  mountTmpBlockdev : string -> gmap string string -> result (list string)
}.

Definition unixDevCgroup (os : os_env) (dev : gmap string string) :
    result (list (list string)) :=
  match deviceCgroupInfo os dev with
  | Err e => Err e
  | Ok devcg => Ok [["lxc.cgroup.devices.allow"; devcg]]
  end.

(** [deviceToLxc]; a [nil] slice of lines is the empty list. *)
Definition deviceToLxc (fs : disk_env) (os : os_env) (cntPath : string)
    (d : gmap string string) : result (list (list string)) :=
  let t := Go.get d "type" in
  if t =s "unix-char" then unixDevCgroup os d
  else if t =s "unix-block" then unixDevCgroup os d
  else if t =s "nic" then
    if Go.get d "nictype" =s "" then Err (Errorf "Missing nic type")
    else if negb (Go.StringInSlice (Go.get d "nictype") ["bridged"; "physical"; "p2p"; "macvlan"])
    then Err (Errorf ("Bad nic type: " +:+ Go.get d "nictype"))
    else if Go.StringInSlice (Go.get d "nictype") ["bridged"; "physical"; "macvlan"]
            && (Go.get d "parent" =s "")
    then Err (Errorf ("Missing parent for " +:+ Go.get d "nictype" +:+ " type nic."))
    else
      let lines := [] in
      let lines :=
        if Go.StringInSlice (Go.get d "nictype") ["bridged"; "p2p"] then
          lines ++ [["lxc.network.type"; "veth"]]
        else if Go.get d "nictype" =s "physical" then
          lines ++ [["lxc.network.type"; "phys"]]
        else if Go.get d "nictype" =s "macvlan" then
          (lines ++ [["lxc.network.type"; "macvlan"]])
            ++ [["lxc.network.macvlan.mode"; "bridge"]]
        else lines in
      let lines := if negb (Go.get d "hwaddr" =s "")
                   then lines ++ [["lxc.network.hwaddr"; Go.get d "hwaddr"]] else lines in
      let lines := if negb (Go.get d "mtu" =s "")
                   then lines ++ [["lxc.network.mtu"; Go.get d "mtu"]] else lines in
      let lines := if Go.StringInSlice (Go.get d "nictype") ["bridged"; "physical"; "macvlan"]
                   then lines ++ [["lxc.network.link"; Go.get d "parent"]] else lines in
      let lines := if negb (Go.get d "name" =s "")
                   then lines ++ [["lxc.network.name"; Go.get d "name"]] else lines in
      Ok lines
  else if t =s "disk" then
    let path := Go.get d "path" in
    let p := if (path =s "/") || (path =s "") then ""
             else if Go.substr path 0 1 =s "/" then Go.substr path 1 (String.length path)
             else path in
    let source := Go.get d "source" in
    if IsBlockdevPath fs (Go.get d "source") then
      match mountTmpBlockdev fs cntPath d with
      | Err err => Err (Errorf ("Error adding blockdev: " +:+ Live.error_msg err))
      | Ok l => Ok [l]
      end
    else
      let options := if IsDir fs source then ["bind"; "create=dir"]
                     else ["bind"; "create=file"] in
      let options := if (Go.get d "readonly" =s "1") || (Go.get d "readonly" =s "true")
                     then options ++ ["ro"] else options in
      let options := if (Go.get d "optional" =s "1") || (Go.get d "optional" =s "true")
                     then options ++ ["optional"] else options in
      let opts := Go.Join options "," in
      let opts := if opts =s "" then "defaults" else opts in
      let l := ["lxc.mount.entry";
                source +:+ " " +:+ p +:+ " " +:+ "none" +:+ " " +:+ opts +:+ " 0 0"] in
      Ok [l]
  else if t =s "none" then Ok []
  else Err (Errorf "Bad device type").

(** ** Instance configuration keys ([IsUserConfig], [InstanceIncludeWhenCopying]) *)

Definition IsUserConfig (key : string) : bool := Go.HasPrefix key "user.".

Definition ConfigVolatilePrefix : string := "volatile.".

Definition InstanceIncludeWhenCopying (configKey : string) (remoteCopy : bool) : bool :=
  if configKey =s "volatile.base_image" then true
  else if (configKey =s "volatile.last_state.idmap") && negb remoteCopy then true
  else if Go.HasPrefix configKey ConfigVolatilePrefix then false
  else true.

(** ** Instance configuration keys ([ConfigKeyChecker]) *)

(** [api.InstanceType] is declared outside [src/]; the checker compares it
    with three named values, and any other value is none of them. *)
Inductive InstanceType : Type :=
| InstanceTypeAny
| InstanceTypeContainer
| InstanceTypeVM
| InstanceTypeOther (name : string).

Definition is_any_or_container (t : InstanceType) : bool :=
  match t with InstanceTypeAny | InstanceTypeContainer => true | _ => false end.

Definition is_any_or_vm (t : InstanceType) : bool :=
  match t with InstanceTypeAny | InstanceTypeVM => true | _ => false end.

Section ConfigKeyChecker.

(** The validators are functions declared outside [src/]; the three tables
    of the source map keys to them.  The checker only hands them on, so
    they are kept abstract: [V] is the type of validators. *)
Variable V : Type.
Variables InstanceConfigKeysAny InstanceConfigKeysContainer InstanceConfigKeysVM :
  gmap string V.
Variables IsAny IsBool IsListOfNetworkAddress : V.

(** The tests on a key that starts with [ConfigVolatilePrefix], in the
    order of the source. *)
Definition volatile_checker (key : string) : option V :=
  if Go.HasSuffix key ".hwaddr" then Some IsAny
  else if Go.HasSuffix key ".name" then Some IsAny
  else if Go.HasSuffix key ".host_name" then Some IsAny
  else if Go.HasSuffix key ".mtu" then Some IsAny
  else if Go.HasSuffix key ".created" then Some IsAny
  else if Go.HasSuffix key ".id" then Some IsAny
  else if Go.HasSuffix key ".vlan" then Some IsAny
  else if Go.HasSuffix key ".spoofcheck" then Some IsAny
  else if Go.HasSuffix key ".last_state.vf.parent" then Some IsAny
  else if Go.HasSuffix key ".last_state.ip_addresses" then Some IsListOfNetworkAddress
  else if Go.HasSuffix key ".apply_quota" then Some IsAny
  else if Go.HasSuffix key ".ceph_rbd" then Some IsAny
  else if Go.HasSuffix key ".driver" then Some IsAny
  else if Go.HasSuffix key ".uuid" then Some IsAny
  else if Go.HasSuffix key ".last_state.ready" then Some IsBool
  else None.

Definition ConfigKeyChecker (key : string) (instanceType : InstanceType) : result V :=
  match InstanceConfigKeysAny !! key with
  | Some f => Ok f
  | None =>
      match (if is_any_or_container instanceType then InstanceConfigKeysContainer !! key
             else None) with
      | Some f => Ok f
      | None =>
          match (if is_any_or_vm instanceType then InstanceConfigKeysVM !! key
                 else None) with
          | Some f => Ok f
          | None =>
              match (if Go.HasPrefix key ConfigVolatilePrefix then volatile_checker key
                     else None) with
              | Some f => Ok f
              | None =>
                  if Go.HasPrefix key "environment." then Ok IsAny
                  else if Go.HasPrefix key "user." then Ok IsAny
                  else if Go.HasPrefix key "image." then Ok IsAny
                  else if Go.HasPrefix key "limits.kernel."
                          && (String.length "limits.kernel." <? String.length key)%nat
                  then Ok IsAny
                  else if is_any_or_container instanceType
                          && Go.HasPrefix key "linux.sysctl."
                  then Ok IsAny
                  else Err (Errorf ("Unknown configuration key: " +:+ key))
              end
          end
      end
  end.

End ConfigKeyChecker.

(** ** CPU Balancer: counting the CPUs ([deviceTaskBalance], first part) *)

Module Scan.

(** [fmt]'s [isSpace] on the rune that starts [s], read as UTF-8: the rest
    of [s] after that rune when it is a space other than a newline (U+0009,
    U+000B to U+000D, U+0020, U+0085, U+00A0, U+1680, U+2000 to U+200A,
    U+2028, U+2029, U+202F, U+205F, U+3000). *)
Definition space_rune (s : string) : option string :=
  match s with
  | EmptyString => None
  | String c1 r1 =>
      let b1 := N_of_ascii c1 in
      if ((b1 =? 9) || ((11 <=? b1) && (b1 <=? 13)) || (b1 =? 32))%N then Some r1
      else
        match r1 with
        | EmptyString => None
        | String c2 r2 =>
            let b2 := N_of_ascii c2 in
            if ((b1 =? 194) && ((b2 =? 133) || (b2 =? 160)))%N then Some r2
            else
              match r2 with
              | EmptyString => None
              | String c3 r3 =>
                  let b3 := N_of_ascii c3 in
                  if (((b1 =? 225) && (b2 =? 154) && (b3 =? 128))
                      || ((b1 =? 226) && (b2 =? 128)
                          && (((128 <=? b3) && (b3 <=? 138)) || (b3 =? 168) || (b3 =? 169)
                              || (b3 =? 175)))
                      || ((b1 =? 226) && (b2 =? 129) && (b3 =? 159))
                      || ((b1 =? 227) && (b2 =? 128) && (b3 =? 128)))%N
                  then Some r3
                  else None
              end
        end
  end.

(** The [SkipSpace] step of [fmt.Sscanf]: spaces are skipped, a newline is an
    error ([None]).  Each step takes at least one byte, so [fuel] above the
    length of [s] is never used up. *)
Fixpoint SkipSpace (fuel : nat) (s : string) : option string :=
  match fuel with
  | O => Some s
  | S fuel' =>
      match s with
      | EmptyString => Some s
      | String c _ =>
          if (N_of_ascii c =? 10)%N then None
          else match space_rune s with
               | Some rest => SkipSpace fuel' rest
               | None => Some s
               end
      end
  end.

Definition is_digit (c : ascii) : bool := ((48 <=? N_of_ascii c) && (N_of_ascii c <=? 57))%N.

(** The decimal digits that start [s]. *)
Fixpoint take_digits (s : string) : string :=
  match s with
  | String c rest => if is_digit c then String c (take_digits rest) else EmptyString
  | EmptyString => EmptyString
  end.

(** [fmt.Sscanf(name, "cpu%d", &id)], as the number scanned when the count
    returned is 1: the literal [cpu], spaces, an optional sign, at least
    one decimal digit, and a value that fits an [int]; what follows the
    digits is not looked at. *)
Definition Sscanf_cpu_d (name : string) : option Z :=
  if Go.HasPrefix name "cpu" then
    let rest := Go.substr name 3 (String.length name) in
    match SkipSpace (S (String.length rest)) rest with
    | None => None
    | Some rest =>
        let signed := match rest with
                      | String c _ => Ascii.eqb c "+" || Ascii.eqb c "-"
                      | EmptyString => false
                      end in
        let sign := if signed then Go.substr rest 0 1 else EmptyString in
        let body := if signed then Go.substr rest 1 (String.length rest) else rest in
        let digits := take_digits body in
        if digits =s "" then None
        else match Go.ParseInt (sign +:+ digits) 10 64 with
             | Ok id => Some id
             | Err _ => None
             end
    end
  else None.

End Scan.

(** What the enumeration asks of the file system: the names in
    [/sys/bus/cpu/devices/] as [ioutil.ReadDir] gives them,
    [shared.PathExists], and [ioutil.ReadFile]. *)
Record sysfs : Type := {
  ReadDir : result (list string);
  PathExists : string -> bool;
  ReadFile : string -> result (list Byte.byte)
}.

Definition onlinePath (name : string) : string :=
  "/sys/bus/cpu/devices/" +:+ name +:+ "/online".

(** "Count CPUs": the loop over the directory entries; [cpus] is the slice
    built so far.  [online[0]] on an empty file is a run-time panic. *)
Fixpoint count_cpus (fs : sysfs) (dents : list string) (cpus : list Z) : outcome (list Z) :=
  match dents with
  | [] => Done cpus
  | name :: rest =>
      match Scan.Sscanf_cpu_d name with
      | None => count_cpus fs rest cpus
      | Some id =>
          if id =? -1 then count_cpus fs rest cpus
          else if negb (PathExists fs (onlinePath name)) then count_cpus fs rest (cpus ++ [id])
          else
            match ReadFile fs (onlinePath name) with
            | Err _ => count_cpus fs rest cpus
            | Ok online =>
                b0 ← Go.index online 0;
                if Byte.eqb b0 Byte.x30 then count_cpus fs rest cpus
                else count_cpus fs rest (cpus ++ [id])
            end
      end
  end.

(** [deviceTaskBalance] from the file system on: nothing is done when the
    directory cannot be listed. *)
Definition deviceTaskBalance_sysfs (rt : runtime) (fs : sysfs) (containers : list container) :
    outcome (option pass) :=
  match ReadDir fs with
  | Err _ => Done None
  | Ok dents =>
      cpus ← count_cpus fs dents [];
      p ← deviceTaskBalance rt cpus containers;
      Done (Some p)
  end.

(** The validator of ["limits.cpu.allowance"] in
    [InstanceConfigKeysContainer]: the error it returns, if any. *)
Definition limits_cpu_allowance (value : string) : option error :=
  if value =s "" then None
  else if Go.HasSuffix value "%" then
    match Go.Atoi (Go.TrimSuffix value "%") with
    | Err err => Some err
    | Ok _ => None
    end
  else
    match Go.SplitN2 value "/" with
    | [f0; f1] =>
        match Go.Atoi (Go.TrimSuffix f0 "ms") with
        | Err err => Some err
        | Ok _ =>
            match Go.Atoi (Go.TrimSuffix f1 "ms") with
            | Err err => Some err
            | Ok _ => None
            end
        end
    | _ => Some (Errorf ("Invalid allowance: " +:+ value))
    end.


(** * Part II: the vocabulary of the properties *)

(** ** Kernel Resource Translator *)

(** The permission string as the specification words it: ["m"], then ["r"]
    when one of the read bits (owner, group, other) is set, then ["w"] when
    one of the write bits is set. *)
Definition any_read_bit (mode : Z) : bool :=
  Z.testbit mode 8 || Z.testbit mode 5 || Z.testbit mode 2.

Definition any_write_bit (mode : Z) : bool :=
  Z.testbit mode 7 || Z.testbit mode 4 || Z.testbit mode 1.

Definition spec_mode_string (mode : Z) : string :=
  "m" +:+ (if any_read_bit mode then "r" else "") +:+ (if any_write_bit mode then "w" else "").

(** An environment in which no path can be stat'ed, to evaluate devices
    that carry their numbers. *)
Definition os_no_stat : os_env := {|
  stat_rdev := fun path => Err (ErrExternal "no such file or directory");
  filepath_Join := fun a b => a +:+ b
|}.

(** ** CPU Balancer *)

Definition in_range (z : Z) : Prop := Go.min_int <= z <= Go.max_int.

(** The unsigned reading of an [int]: the number of decrements that bring
    it to zero. *)
Definition uns (z : Z) : Z := z mod 2 ^ Go.int_bits.

(** The allocation loop takes the first [uns count] entries of the slice it
    is given, or all of them when there are fewer. *)
Definition taken_len (count : Z) (n : nat) : nat := Nat.min (Z.to_nat (uns count)) n.

(** [pinning[ctn]] after appending the ids [ids] in turn. *)
Definition pin_all (ctn : nat) (ids : list string) (pinning : gmap nat (list string)) :
    gmap nat (list string) :=
  fold_left (fun p s => pin_add ctn s p) ids pinning.

(** [pinning] after one entry [(cpu, ctns)] of [fixedContainers], [sid]
    being the id read from the usage slice. *)
Definition pin_many (ctns : list nat) (sid : string) (p : gmap nat (list string)) :
    gmap nat (list string) :=
  fold_left (fun p ctn => pin_add ctn sid p) ctns p.

(** The order the specification words: least loaded first, equally loaded
    CPUs by ascending id. *)
Definition spec_le (a b : deviceTaskCPU) : bool :=
  (count a <? count b) || ((count a =? count b) && (id a <=? id b)).

Definition spec_order (u : list deviceTaskCPU) : list deviceTaskCPU :=
  Go.insertion_sort spec_le u.

(** Every running instance has a limit that parses as an integer. *)
Definition all_balanced (cpus : list Z) (containers : list container) : Prop :=
  forall c, In c containers -> IsRunning c = true ->
    exists n, Go.Atoi (limits_cpu cpus c) = Ok n.

(** After [k] load-balanced allocations the counters take at most two
    adjacent values, and none exceeds [k]. *)
Definition balanced_inv (k : Z) (u : list deviceTaskCPU) : Prop :=
  exists m, 0 <= m /\ forall c, In c u -> m <= count c <= m + 1 /\ count c <= k.

(** The written value as the specification words it: the CPU ids in
    ascending numeric order, comma-joined. *)
Definition spec_cpuset_value (ids : list Z) : string :=
  Go.Join (map Go.itoa (Go.insertion_sort Z.leb ids)) ",".

(** No instance is in the pinning map with an empty set. *)
Definition pin_nonempty (p : gmap nat (list string)) : Prop :=
  map_Forall (fun _ set => set <> []) p.

(** What a pass leaves for the instance loaded as number [h]: its pinning
    set and the value written for it. *)
Definition outcome_of (o : outcome pass) (h : nat) :
    outcome (option (list string) * option string) :=
  p ← o; Done (pinning p !! h, cpuset_cpus p !! h).

(** [f'] comes from [f] by fixed assignments of the instance [c] to online
    CPUs. *)
Definition fixed_from (cpus : list Z) (c : nat) (f f' : gmap Z (list nat)) : Prop :=
  forall j l, f' !! j = Some l ->
    (Go.IntInSlice j cpus = true \/ is_Some (f !! j)) /\
    (forall k, In k l -> k = c \/ exists l0, f !! j = Some l0 /\ In k l0).

(** Recorded assignments are kept. *)
Definition grows (f f' : gmap Z (list nat)) : Prop :=
  forall j l0 k, f !! j = Some l0 -> In k l0 -> exists l, f' !! j = Some l /\ In k l.

(** The online ids that one chunk of a pinning expression names. *)
Definition chunk_names (chunk : string) (i : Z) : Prop :=
  (Go.Contains chunk "-" = false /\ Go.Atoi chunk = Ok i) \/
  (Go.Contains chunk "-" = true /\
     exists a b low high, Go.SplitN2 chunk "-" = [a; b] /\
       Go.Atoi a = Ok low /\ Go.Atoi b = Ok high /\ low <= i <= high).

(** ** Live Device Delta Engine *)

Module LiveSpec.
Import Live.

(** A step on the link [dev] that failed: assigning the MAC address,
    bringing the link up, or moving it into the instance's namespace. *)
Definition failed_step (dev : string) (e : event) : Prop :=
  (exists hwaddr err, e = EExec ["ip"; "link"; "set"; "dev"; dev; "address"; hwaddr] (Err err)) \/
  (exists err, e = EExec ["ip"; "link"; "set"; "dev"; dev; "up"] (Err err)) \/
  (exists dst err, e = EAttachInterface dev dst (Err err)).

(** The successful creation of the link [dev]: the second end of a veth
    pair (deleting one end deletes the pair), or a macvlan link. *)
Definition creates (dev : string) (e : event) : Prop :=
  (exists n1, e = EExec ["ip"; "link"; "add"; n1; "type"; "veth"; "peer"; "name"; dev] (Ok tt)) \/
  (exists parent, e = EExec ["ip"; "link"; "add"; dev; "type"; "macvlan"; "link"; parent;
                             "mode"; "bridge"] (Ok tt)).

(** [removeInterface dev]: the command that deletes the link is run. *)
Definition destroys (dev : string) (e : event) : Prop :=
  exists r, e = EExec ["ip"; "link"; "del"; dev] r.

Definition steps_ok (evs : list event) : Prop :=
  forall e dev, In e evs -> ~ failed_step dev e.

(** The events end with a failed step on a link and the deletion of that
    link, and no step failed before. *)
Definition ends_with_cleanup (evs : list event) : Prop :=
  exists evs' dev e_fail e_del,
    evs = evs' ++ [e_fail; e_del] /\ steps_ok evs' /\
    failed_step dev e_fail /\ destroys dev e_del.

Definition good {A : Type} (r : result A) (evs : list event) : Prop :=
  match r with
  | Ok _ => steps_ok evs
  | Err _ => steps_ok evs \/ ends_with_cleanup evs
  end.

(** [traces m Q]: from every trace, [m] appends events [evs] and returns
    [a] with [Q a evs]. *)
Definition traces {A : Type} (m : M A) (Q : A -> list event -> Prop) : Prop :=
  forall t, exists a evs, m t = (a, t ++ evs) /\ Q a evs.

(** A computation that fails no step. *)
Definition quiet {A : Type} (m : M A) : Prop := traces m (fun _ evs => steps_ok evs).

(** A world in which assigning the MAC address fails and everything else
    succeeds, and the hot-add of one macvlan nic. *)
Definition world_mac_fails : world := {|
  rand_Read := fun _ => [Byte.x01; Byte.x02; Byte.x03; Byte.x04];
  exec_Run := fun _ argv =>
    if existsb (Go.streq "address") argv then Err (ErrExternal "exit status 2") else Ok tt;
  Interfaces := fun _ => Ok ["eth0"];
  generateMacAddr := fun _ _ => Ok "00:16:3e:aa:bb:cc";
  tx_Exec := fun _ _ _ => Ok tt;
  tx_QueryRow := fun _ _ _ => Ok 1;
  AttachInterface := fun _ _ _ => Ok tt;
  open_DevNull := fun _ => Ok tt;
  RunCommand := fun _ _ => Ok tt;
  container_method := fun _ _ _ => Ok tt;
  InitPid := fun _ => 1;
  os_Remove := fun _ _ => Ok tt;
  os_Args0 := "lxd";
  os := os_no_stat
|}.

Definition one_instance : instance :=
  {| ID := 1; Name := "c1"; ExpandedConfig := ∅ |}.

Definition one_macvlan : gmap string (gmap string string) :=
  {[ "net1" := {[ "type" := "nic"; "nictype" := "macvlan"; "parent" := "eth0" ]} ]}.


End LiveSpec.

(** ** Hotplug monitor *)

(** The NUL-terminated pieces of a byte string, in order; [cur] holds the
    bytes of the piece being read, last byte first.  What follows the last
    NUL is no piece. *)
Fixpoint pieces (b : list Byte.byte) (cur : list Byte.byte) : list (list Byte.byte) :=
  match b with
  | [] => []
  | e :: rest =>
      if Byte.eqb e Byte.x00 then rev cur :: pieces rest [] else pieces rest (e :: cur)
  end.

(** A piece of the form [key=value] sets [key] (the value is what follows
    the first [=]); any other piece is skipped. *)
Definition record_piece (props : gmap string string) (piece : list Byte.byte) :
    gmap string string :=
  match Go.SplitN2 (string_of_list_byte piece) "=" with
  | [f0; f1] => <[f0 := f1]> props
  | _ => props
  end.

(** A buffer that holds a CPU hotplug message, and a shorter message about
    a memory block that is read into it next. *)
Definition cpu_uevent : list Byte.byte :=
  list_byte_of_string "online@/devices/system/cpu/cpu1" ++ [Byte.x00]
  ++ list_byte_of_string "ACTION=online" ++ [Byte.x00]
  ++ list_byte_of_string "DEVPATH=/devices/system/cpu/cpu1" ++ [Byte.x00]
  ++ list_byte_of_string "SUBSYSTEM=cpu" ++ [Byte.x00]
  ++ list_byte_of_string "DRIVER=processor" ++ [Byte.x00].

Definition memory_uevent : list Byte.byte :=
  list_byte_of_string "online@/devices/system/memory/memory3" ++ [Byte.x00]
  ++ list_byte_of_string "ACTION=online" ++ [Byte.x00]
  ++ list_byte_of_string "SUBSYSTEM=memory" ++ [Byte.x00].

(** ** Mount options of a unix device *)

(** The option that [devGetOptions] gives for an owner id: none when the
    attribute is empty, [key=<n>] when it reads as the integer [n]. *)
Definition id_option (key value : string) (opt : list string) : Prop :=
  (value = "" /\ opt = []) \/
  (exists n, Go.Atoi value = Ok n /\ opt = [key +:+ "=" +:+ Go.itoa n]).

(** ** LXC configuration lines *)

(** A line that is a key and a value, neither empty. *)
Definition key_value (line : list string) : Prop :=
  exists k v, line = [k; v] /\ k <> "" /\ v <> "".

Definition line_key (line : list string) : string := hd "" line.

(** A host on which no path is a block device or a directory. *)
Definition fs_plain : disk_env := {|
  IsBlockdevPath := fun _ => false;
  IsDir := fun _ => false;
  mountTmpBlockdev := fun _ _ => Err (ErrExternal "not a block device")
|}.

(** ** CPU Balancer: counters and assignments *)

(** The number of times the id [s] stands in the pinning sets. *)
Definition assigned (s : string) (p : gmap nat (list string)) : nat :=
  sum_list_with (fun kv => count_occ string_dec (snd kv) s) (map_to_list p).

(** Every counter of the usage slice holds the number of assignments of
    its CPU, as an [int]. *)
Definition counted (u : list deviceTaskCPU) (p : gmap nat (list string)) : Prop :=
  forall c, In c u -> count c = Go.wrap (Z.of_nat (assigned (strId c) p)).

(** Every id in a pinning set is one of [ids]. *)
Definition pins_in (ids : list string) (p : gmap nat (list string)) : Prop :=
  forall h set s, p !! h = Some set -> In s set -> In s ids.

(** ** Live Device Delta Engine: what a call runs *)

Module LiveTrace.
Import Live LiveSpec.

(** Every event that [m] appends satisfies [P]. *)
Definition only {A : Type} (P : event -> Prop) (m : M A) : Prop :=
  traces m (fun _ evs => List.Forall P evs).

(** An event that is not a command other than [ip link ...]. *)
Definition ip_link_only (e : event) : Prop :=
  forall argv r, e = EExec argv r -> exists args, argv = "ip" :: "link" :: args.

(** An event that is neither a command nor a move into the instance. *)
Definition no_command (e : event) : Prop :=
  match e with
  | EExec _ _ | EAttachInterface _ _ _ => False
  | _ => True
  end.

(** What [setupNic] leaves in the trace for a physical nic: requests that
    run no command, then nothing, or the commands on the parent. *)
Definition physical_trace (parent : string) (evs : list event) : Prop :=
  exists pre tail, evs = pre ++ tail /\ List.Forall no_command pre /\
    (tail = [] \/
     (exists hw err r,
        tail = [EExec ["ip"; "link"; "set"; "dev"; parent; "address"; hw] (Err err);
                EExec ["ip"; "link"; "del"; parent] r]) \/
     (exists hw err r,
        tail = [EExec ["ip"; "link"; "set"; "dev"; parent; "address"; hw] (Ok tt);
                EExec ["ip"; "link"; "set"; "dev"; parent; "up"] (Err err);
                EExec ["ip"; "link"; "del"; parent] r]) \/
     (exists hw,
        tail = [EExec ["ip"; "link"; "set"; "dev"; parent; "address"; hw] (Ok tt);
                EExec ["ip"; "link"; "set"; "dev"; parent; "up"] (Ok tt)])).

(** The hot-add of a physical nic on [eth1]. *)
Definition one_physical : gmap string string :=
  {[ "type" := "nic"; "nictype" := "physical"; "parent" := "eth1" ]}.

End LiveTrace.

(** ** CPU Balancer: counting the CPUs *)

Definition cpu_name (i : Z) : string := "cpu" +:+ Go.itoa i.

(** The CPU [i] counts as online: its directory has no [online] file, or
    the file does not start with the character [0]. *)
Definition is_online (fs : sysfs) (i : Z) : bool :=
  negb (PathExists fs (onlinePath (cpu_name i))) ||
  match ReadFile fs (onlinePath (cpu_name i)) with
  | Ok (b0 :: _) => negb (Byte.eqb b0 Byte.x30)
  | _ => false
  end.

(** A host with three CPUs: CPU 0 cannot be unplugged (it has no [online]
    file), CPU 1 is offline, CPU 2 is online. *)
Definition sysfs_02 : sysfs := {|
  ReadDir := Ok ["cpu0"; "cpu1"; "cpu2"];
  PathExists := fun p => negb (p =s onlinePath "cpu0");
  ReadFile := fun p => if p =s onlinePath "cpu1" then Ok (list_byte_of_string "0")
                       else Ok (list_byte_of_string "1")
|}.

(** The same host when the [online] file of CPU 1 reads as empty. *)
Definition sysfs_empty : sysfs := {|
  ReadDir := Ok ["cpu0"; "cpu1"; "cpu2"];
  PathExists := fun p => negb (p =s onlinePath "cpu0");
  ReadFile := fun p => if p =s onlinePath "cpu1" then Ok []
                       else Ok (list_byte_of_string "1")
|}.


(** A text that [strconv.Atoi] reads as an [int]. *)
Definition int_text (s : string) : Prop := exists z, Go.Atoi s = Ok z.

(** The unit a time of [limits.cpu.allowance] may carry. *)
Definition time_unit (u : string) : Prop := u = "" \/ u = "ms".

(** A range chunk whose upper end is the largest [int]: the loop over it
    does not end. *)
Definition endless_range (chunk : string) : Prop :=
  Go.Contains chunk "-" = true /\
  exists a b low, Go.SplitN2 chunk "-" = [a; b] /\
    Go.Atoi a = Ok low /\ Go.Atoi b = Ok Go.max_int.

(** An instance on which classification does not end. *)
Definition endless (cpus : list Z) (c : container) : Prop :=
  IsRunning c = true /\
  exists e chunk, Go.Atoi (limits_cpu cpus c) = Err e /\
    In chunk (Go.Split (limits_cpu cpus c) ",") /\ endless_range chunk.

(** A byte that is no digit of base ten. *)
Definition no_digit (c : ascii) : bool :=
  match Go.digit_val c with
  | Some d => 10 <=? d
  | None => true
  end.


(** * Part III: properties *)

(** ** Go primitives *)

Lemma streq_spec (a b : string) : reflect (a = b) (Go.streq a b).
Proof. apply String.eqb_spec. Qed.

(** ** Device Model & Validator *)

Ltac case_streq :=
  repeat match goal with
    | |- context [ ?a =s ?b ] => destruct (streq_spec a b); subst
    | H : context [ ?a =s ?b ] |- _ => destruct (streq_spec a b); subst
    end.

Lemma validDeviceConfig_type (t v : string) : validDeviceConfig t "type" v = false.
Proof. reflexivity. Qed.

Lemma validDeviceConfig_sound (t k v : string) :
  validDeviceConfig t k v = true -> In k (spec_whitelist t) /\ k <> "type".
Proof.
  unfold validDeviceConfig, spec_whitelist.
  case_streq; simpl; intros H; try discriminate H; split;
    first [ congruence | tauto | discriminate ].
Qed.

(** C8. [validDeviceConfig] rejects the key ["type"] for every device type
    and value, rejects every key outside the type's whitelist, rejects
    [("nic","path","/x")] and accepts [("disk","path","/x")]. *)
Theorem validDeviceConfig_rejects_outside_whitelist :
  (forall t v, validDeviceConfig t "type" v = false) /\
  (forall t k v, ~ In k (spec_whitelist t) -> validDeviceConfig t k v = false) /\
  validDeviceConfig "nic" "path" "/x" = false /\
  validDeviceConfig "disk" "path" "/x" = true.
Proof.
  split; [exact validDeviceConfig_type|].
  split; [|split; reflexivity].
  intros t k v Hk.
  destruct (validDeviceConfig t k v) eqn:E; [|reflexivity].
  apply validDeviceConfig_sound in E. tauto.
Qed.

Lemma validDeviceConfig_rejects_outside_whitelist_witness :
  validDeviceConfig "unix-char" "source" "/dev/null" = false.
Proof.
  apply (proj1 (proj2 validDeviceConfig_rejects_outside_whitelist)).
  vm_compute. intuition discriminate.
Defined.

(** Every whitelisted key other than [nictype] is accepted whatever the
    value, and [nictype] is accepted for the four nic types. *)
Lemma validDeviceConfig_complete (t k v : string) :
  In k (spec_whitelist t) -> k <> "nictype" -> validDeviceConfig t k v = true.
Proof.
  unfold validDeviceConfig, spec_whitelist.
  case_streq; simpl; intuition (subst; try congruence; try discriminate).
Qed.

(** ** Kernel Resource Translator *)

Lemma land_mask_zero (mode mask : Z) (bits : list Z) :
  (forall n, 0 <= n -> Z.testbit mask n = true <-> In n bits) ->
  Z.land mode mask = 0 <-> forall n, In n bits -> Z.testbit mode n = false.
Proof.
  intros Hmask. split.
  - intros H0 n Hn.
    destruct (Z_le_gt_dec 0 n) as [Hn0|Hneg]; [|apply Z.testbit_neg_r; lia].
    assert (Hb : Z.testbit (Z.land mode mask) n = false) by (rewrite H0; apply Z.bits_0).
    rewrite Z.land_spec in Hb.
    assert (Hm : Z.testbit mask n = true) by (apply Hmask; assumption).
    rewrite Hm, andb_true_r in Hb. exact Hb.
  - intros Hbits. apply Z.bits_inj'. intros n Hn.
    rewrite Z.land_spec, Z.bits_0.
    destruct (Z.testbit mask n) eqn:E.
    + rewrite (Hbits n); [reflexivity|]. apply Hmask; assumption.
    + apply andb_false_r.
Qed.

Lemma small_mask_bits (mask : Z) (bits : list Z) :
  0 <= mask < 2 ^ 9 ->
  (forall n, In n [0; 1; 2; 3; 4; 5; 6; 7; 8] -> Z.testbit mask n = true <-> In n bits) ->
  (forall n, In n bits -> 0 <= n < 9) ->
  forall n, 0 <= n -> Z.testbit mask n = true <-> In n bits.
Proof.
  intros Hm Hsmall Hin n Hn.
  destruct (Z_lt_ge_dec n 9) as [Hlt|Hge].
  - apply Hsmall. simpl. lia.
  - split.
    + intros Ht.
      destruct (Z.eq_dec mask 0) as [->|Hne]; [rewrite Z.bits_0 in Ht; discriminate|].
      rewrite Z.bits_above_log2 in Ht; [discriminate|lia|].
      apply Z.log2_lt_pow2; [lia|].
      apply Z.lt_le_trans with (2 ^ 9); [lia|].
      apply Z.pow_le_mono_r; lia.
    + intros Hi. apply Hin in Hi. lia.
Qed.

Lemma o0444_bits (n : Z) : 0 <= n -> Z.testbit o0444 n = true <-> In n [8; 5; 2].
Proof.
  apply small_mask_bits.
  - vm_compute. split; [discriminate|reflexivity].
  - intros m Hm. simpl in Hm.
    repeat (destruct Hm as [<-|Hm]; [vm_compute; intuition (try discriminate; try lia)|]).
    destruct Hm.
  - simpl. intros m Hm. lia.
Qed.

Lemma o0222_bits (n : Z) : 0 <= n -> Z.testbit o0222 n = true <-> In n [7; 4; 1].
Proof.
  apply small_mask_bits.
  - vm_compute. split; [discriminate|reflexivity].
  - intros m Hm. simpl in Hm.
    repeat (destruct Hm as [<-|Hm]; [vm_compute; intuition (try discriminate; try lia)|]).
    destruct Hm.
  - simpl. intros m Hm. lia.
Qed.

Lemma modeHasRead_bits (mode : Z) : modeHasRead mode = any_read_bit mode.
Proof.
  unfold modeHasRead, any_read_bit.
  pose proof (land_mask_zero mode o0444 [8; 5; 2] o0444_bits) as H.
  destruct (Z.eqb_spec (Z.land mode o0444) 0) as [E|E]; cbn [negb].
  - pose proof (proj1 H E) as E'.
    rewrite (E' 8), (E' 5), (E' 2) by (simpl; auto). reflexivity.
  - destruct (Z.testbit mode 8) eqn:E8; [reflexivity|].
    destruct (Z.testbit mode 5) eqn:E5; [reflexivity|].
    destruct (Z.testbit mode 2) eqn:E2; [reflexivity|].
    exfalso. apply E. apply (proj2 H). simpl. intros n [<-|[<-|[<-|[]]]]; assumption.
Qed.

Lemma modeHasWrite_bits (mode : Z) : modeHasWrite mode = any_write_bit mode.
Proof.
  unfold modeHasWrite, any_write_bit.
  pose proof (land_mask_zero mode o0222 [7; 4; 1] o0222_bits) as H.
  destruct (Z.eqb_spec (Z.land mode o0222) 0) as [E|E]; cbn [negb].
  - pose proof (proj1 H E) as E'.
    rewrite (E' 7), (E' 4), (E' 1) by (simpl; auto). reflexivity.
  - destruct (Z.testbit mode 7) eqn:E7; [reflexivity|].
    destruct (Z.testbit mode 4) eqn:E4; [reflexivity|].
    destruct (Z.testbit mode 1) eqn:E1; [reflexivity|].
    exfalso. apply E. apply (proj2 H). simpl. intros n [<-|[<-|[<-|[]]]]; assumption.
Qed.



Lemma Atoi_nonempty (s : string) (z : Z) : Go.Atoi s = Ok z -> s <> "".
Proof. intros H ->. discriminate H. Qed.

(** With explicit numbers that parse and a mode that parses, the directive
    is produced. *)
Lemma deviceCgroupInfo_explicit (os : os_env) (dev : gmap string string)
    (t : string) (major minor i : Z) :
  (Go.get dev "type" = "unix-char" /\ t = "c" \/ Go.get dev "type" = "unix-block" /\ t = "b") ->
  Go.Atoi (Go.get dev "major") = Ok major ->
  Go.Atoi (Go.get dev "minor") = Ok minor ->
  devModeOct (Go.get dev "mode") = Ok i ->
  deviceCgroupInfo os dev =
    Ok (t +:+ " " +:+ Go.itoa major +:+ ":" +:+ Go.itoa minor +:+ " " +:+ spec_mode_string i).
Proof.
  intros Ht Hmaj Hmin Hmode.
  pose proof (Atoi_nonempty _ _ Hmaj) as Nmaj.
  pose proof (Atoi_nonempty _ _ Hmin) as Nmin.
  unfold deviceCgroupInfo, devModeString.
  rewrite Hmaj, Hmin, Hmode.
  destruct (streq_spec (Go.get dev "major") "") as [?|_]; [contradiction|].
  destruct (streq_spec (Go.get dev "minor") "") as [?|_]; [contradiction|].
  cbn [andb negb].
  assert (Hs : ((if modeHasWrite i then (if modeHasRead i then "m" +:+ "r" else "m") +:+ "w"
                 else if modeHasRead i then "m" +:+ "r" else "m") = spec_mode_string i)).
  { unfold spec_mode_string. rewrite <- modeHasRead_bits, <- modeHasWrite_bits.
    destruct (modeHasRead i), (modeHasWrite i); reflexivity. }
  destruct Ht as [[-> ->]|[-> ->]]; cbn [Go.streq String.eqb Ascii.eqb Bool.eqb];
    unfold devcg_line; cbv zeta; rewrite Hs; reflexivity.
Qed.



(** ** Sorting *)

Section InsertionSort.
Context {A : Type} (le : A -> A -> bool).
Hypothesis le_total : forall a b, le a b = true \/ le b a = true.

Let R (a b : A) : Prop := le a b = true.

Lemma insert_sorted_perm (x : A) (l : list A) :
  Permutation (Go.insert_sorted le x l) (x :: l).
Proof.
  induction l as [|y t IH]; simpl; [reflexivity|].
  destruct (le y x); [|reflexivity].
  rewrite IH. apply perm_swap.
Qed.

Lemma insert_sorted_hd (x a : A) (l : list A) :
  R a x -> HdRel R a l -> HdRel R a (Go.insert_sorted le x l).
Proof.
  intros Hax Hl. destruct l as [|y t]; simpl; [constructor; assumption|].
  destruct (le y x); constructor; [|assumption].
  inversion Hl; assumption.
Qed.

Lemma insert_sorted_Sorted (x : A) (l : list A) :
  Sorted R l -> Sorted R (Go.insert_sorted le x l).
Proof.
  induction 1 as [|y t Ht IH Hhd]; simpl.
  - repeat constructor.
  - destruct (le y x) eqn:E.
    + constructor; [assumption|]. apply insert_sorted_hd; assumption.
    + constructor; [constructor; assumption|].
      constructor. destruct (le_total x y) as [H|H]; [exact H|congruence].
Qed.

Lemma insertion_sort_from_perm (l acc : list A) :
  Permutation (fold_left (fun acc x => Go.insert_sorted le x acc) l acc) (acc ++ l).
Proof.
  revert acc. induction l as [|x l IH]; intros acc; simpl.
  - rewrite app_nil_r. reflexivity.
  - rewrite IH, insert_sorted_perm. apply Permutation_middle.
Qed.

Lemma insertion_sort_from_Sorted (l acc : list A) :
  Sorted R acc -> Sorted R (fold_left (fun acc x => Go.insert_sorted le x acc) l acc).
Proof.
  revert acc. induction l as [|x l IH]; intros acc Hacc; simpl; [assumption|].
  apply IH, insert_sorted_Sorted, Hacc.
Qed.

Lemma insertion_sort_perm (l : list A) : Permutation (Go.insertion_sort le l) l.
Proof. unfold Go.insertion_sort. rewrite insertion_sort_from_perm. reflexivity. Qed.

Lemma insertion_sort_Sorted (l : list A) : Sorted R (Go.insertion_sort le l).
Proof. apply insertion_sort_from_Sorted. constructor. Qed.

Hypothesis le_trans : forall a b c, le a b = true -> le b c = true -> le a c = true.

Lemma insertion_sort_StronglySorted (l : list A) :
  StronglySorted R (Go.insertion_sort le l).
Proof.
  apply Sorted_StronglySorted; [|apply insertion_sort_Sorted].
  intros a b c. apply le_trans.
Qed.

Hypothesis le_antisym : forall a b, le a b = true -> le b a = true -> a = b.

(** Under an order in which elements that compare equal are equal, a list
    has one sorted arrangement. *)
Lemma sorted_perm_unique (l1 l2 : list A) :
  StronglySorted R l1 -> StronglySorted R l2 -> Permutation l1 l2 -> l1 = l2.
Proof.
  intros H1. revert l2.
  induction H1 as [|a l1 Hs1 IH Ha]; intros l2 H2 Hp.
  - apply Permutation_nil in Hp. congruence.
  - destruct H2 as [|b l2 Hs2 Hb].
    + apply Permutation_sym, Permutation_nil in Hp. discriminate.
    + assert (Hab : a = b).
      { assert (Ia : In a (b :: l2)) by (eapply Permutation_in; [exact Hp|left; reflexivity]).
        assert (Ib : In b (a :: l1)).
        { eapply Permutation_in; [apply Permutation_sym; exact Hp|left; reflexivity]. }
        destruct Ia as [->|Ia]; [reflexivity|].
        destruct Ib as [->|Ib]; [reflexivity|].
        rewrite Forall_forall in Ha, Hb.
        apply le_antisym; [apply Ha|apply Hb]; apply list_elem_of_In; assumption. }
      subst b. f_equal. apply IH; [assumption|].
      eapply Permutation_cons_inv. exact Hp.
Qed.

End InsertionSort.

(** Byte-wise order on strings is a total order. *)
Lemma ascii_compare_N (a b : ascii) :
  Ascii.compare a b = N.compare (N_of_ascii a) (N_of_ascii b).
Proof. reflexivity. Qed.

Lemma string_compare_lt_trans (a b c : string) :
  String.compare a b = Lt -> String.compare b c = Lt -> String.compare a c = Lt.
Proof.
  revert b c. induction a as [|x a IH]; intros [|y b] [|z c]; simpl; try congruence.
  rewrite !ascii_compare_N.
  destruct (N.compare_spec (N_of_ascii x) (N_of_ascii y)) as [Exy|Lxy|Gxy]; try discriminate;
    destruct (N.compare_spec (N_of_ascii y) (N_of_ascii z)) as [Eyz|Lyz|Gyz]; try discriminate;
    intros Hab Hbc.
  - rewrite Exy, Eyz, N.compare_refl. eapply IH; eassumption.
  - apply N.compare_lt_iff in Lyz. rewrite Exy, Lyz. reflexivity.
  - apply N.compare_lt_iff in Lxy. rewrite <- Eyz, Lxy. reflexivity.
  - assert (L : (N_of_ascii x < N_of_ascii z)%N) by lia.
    apply N.compare_lt_iff in L. rewrite L. reflexivity.
Qed.

Lemma strle_total (a b : string) : Go.strle a b = true \/ Go.strle b a = true.
Proof. apply String.leb_total. Qed.

Lemma strle_antisym (a b : string) : Go.strle a b = true -> Go.strle b a = true -> a = b.
Proof. apply String.leb_antisym. Qed.

Lemma strle_trans (a b c : string) :
  Go.strle a b = true -> Go.strle b c = true -> Go.strle a c = true.
Proof.
  unfold Go.strle, String.leb.
  destruct (String.compare a b) eqn:Eab; try discriminate;
    destruct (String.compare b c) eqn:Ebc; try discriminate; intros _ _.
  - apply String.compare_eq_iff in Eab. subst. rewrite Ebc. reflexivity.
  - apply String.compare_eq_iff in Eab. subst. rewrite Ebc. reflexivity.
  - apply String.compare_eq_iff in Ebc. subst. rewrite Eab. reflexivity.
  - rewrite (string_compare_lt_trans a b c Eab Ebc). reflexivity.
Qed.

Lemma SortStrings_perm (l : list string) : Permutation (Go.SortStrings l) l.
Proof. apply insertion_sort_perm. Qed.

Lemma SortStrings_sorted (l : list string) :
  StronglySorted (fun a b => Go.strle a b = true) (Go.SortStrings l).
Proof. apply insertion_sort_StronglySorted; [apply strle_total|apply strle_trans]. Qed.

(** [sort.Strings] can give no other list than [Go.SortStrings]. *)
Lemma sorted_strings_unique (l l' : list string) :
  Permutation l' l -> StronglySorted (fun a b => Go.strle a b = true) l' ->
  l' = Go.SortStrings l.
Proof.
  intros Hp Hs.
  apply (sorted_perm_unique Go.strle strle_antisym); [assumption|apply SortStrings_sorted|].
  rewrite Hp. symmetry. apply SortStrings_perm.
Qed.

(** ** CPU Balancer: integers, sorting, and the allocation loop *)

Ltac int_consts :=
  unfold in_range, uns, Go.wrap, Go.max_int, Go.min_int, Go.int_bits in *;
  change (2 ^ (64 - 1)) with 9223372036854775808 in *;
  change (2 ^ 64) with 18446744073709551616 in *.

Lemma wrap_id (z : Z) : in_range z -> Go.wrap z = z.
Proof. int_consts. intros H. Z.div_mod_to_equations. lia. Qed.

Lemma wrap_in_range (z : Z) : in_range (Go.wrap z).
Proof. int_consts. Z.div_mod_to_equations. lia. Qed.

Lemma uns_nonneg (z : Z) : in_range z -> 0 <= z -> uns z = z.
Proof. int_consts. intros H H0. Z.div_mod_to_equations. lia. Qed.

Lemma uns_neg (z : Z) : in_range z -> z < 0 -> Go.max_int < uns z.
Proof. int_consts. intros H H0. Z.div_mod_to_equations. lia. Qed.

Lemma uns_pos (z : Z) : in_range z -> z <> 0 -> 0 < uns z.
Proof. int_consts. intros H H0. Z.div_mod_to_equations. lia. Qed.

Lemma uns_wrap_pred (z : Z) : in_range z -> z <> 0 -> uns (Go.wrap (z - 1)) = uns z - 1.
Proof. int_consts. intros H H0. Z.div_mod_to_equations. lia. Qed.

Lemma min_in_range (x y : Z) : in_range x -> 0 <= y -> in_range (min x y).
Proof.
  unfold min. destruct (Z.ltb_spec x y); [auto|].
  int_consts. lia.
Qed.

Lemma min_spec (x y : Z) : min x y = Z.min x y.
Proof. unfold min. destruct (Z.ltb_spec x y); lia. Qed.

Lemma pin_add_lookup (ctn : nat) (s : string) (p : gmap nat (list string)) :
  pin_add ctn s p !! ctn = Some (default [] (p !! ctn) ++ [s]).
Proof.
  unfold pin_add. destruct (p !! ctn) as [l|] eqn:E; simpl; apply lookup_insert_eq.
Qed.

Lemma pin_add_lookup_ne (ctn c' : nat) (s : string) (p : gmap nat (list string)) :
  ctn <> c' -> pin_add ctn s p !! c' = p !! c'.
Proof.
  intros Hne. unfold pin_add.
  destruct (p !! ctn); rewrite lookup_insert_ne by assumption; reflexivity.
Qed.

Lemma pin_all_lookup_ne (ctn c' : nat) (ids : list string) (p : gmap nat (list string)) :
  ctn <> c' -> pin_all ctn ids p !! c' = p !! c'.
Proof.
  intros Hne. revert p. induction ids as [|s ids IH]; intros p; simpl; [reflexivity|].
  unfold pin_all in *. simpl. rewrite IH. apply pin_add_lookup_ne, Hne.
Qed.

Lemma pin_all_lookup (ctn : nat) (ids : list string) (p : gmap nat (list string)) :
  ids <> [] -> pin_all ctn ids p !! ctn = Some (default [] (p !! ctn) ++ ids).
Proof.
  revert p. induction ids as [|s ids IH]; intros p Hne; [congruence|].
  unfold pin_all in *. simpl.
  destruct ids as [|s' ids].
  - simpl. apply pin_add_lookup.
  - rewrite IH by discriminate. rewrite pin_add_lookup. simpl.
    rewrite <- app_assoc. reflexivity.
Qed.

Lemma alloc_spec (ctn : nat) (us : list deviceTaskCPU) :
  forall (count : Z) (p : gmap nat (list string)),
    in_range count ->
    alloc ctn count us p =
      (map incr (firstn (taken_len count (length us)) us)
         ++ skipn (taken_len count (length us)) us,
       pin_all ctn (map strId (firstn (taken_len count (length us)) us)) p).
Proof.
  induction us as [|cpu rest IH]; intros count p Hc.
  - unfold taken_len. rewrite Nat.min_0_r. reflexivity.
  - cbn [alloc length]. destruct (Z.eqb_spec count 0) as [->|Hne].
    + reflexivity.
    + rewrite IH by apply wrap_in_range.
      assert (Hj : taken_len count (S (length rest))
                   = S (taken_len (Go.wrap (count - 1)) (length rest))).
      { unfold taken_len. rewrite uns_wrap_pred by assumption.
        pose proof (uns_pos count Hc Hne). lia. }
      rewrite Hj. reflexivity.
Qed.

Lemma taken_len_nonneg (count : Z) (n : nat) :
  in_range count -> 0 <= count ->
  Z.of_nat (taken_len count n) = Z.min count (Z.of_nat n).
Proof. intros H H0. unfold taken_len. rewrite uns_nonneg by assumption. lia. Qed.

Lemma taken_len_neg (count : Z) (n : nat) :
  in_range count -> count < 0 -> Z.of_nat n <= Go.max_int -> taken_len count n = n.
Proof. intros H H0 Hn. unfold taken_len. pose proof (uns_neg count H H0). lia. Qed.

(** The evaluation runtimes keep Go's promises. *)
Lemma StronglySorted_impl {A : Type} (R S : A -> A -> Prop) (l : list A) :
  (forall a b, R a b -> S a b) -> StronglySorted R l -> StronglySorted S l.
Proof.
  intros HRS. induction 1 as [|a l Hl IH Ha]; constructor; [assumption|].
  eapply List.Forall_impl; [|exact Ha]. apply HRS.
Qed.

Lemma insertion_sort_le_count (u : list deviceTaskCPU) :
  StronglySorted (fun a b => Less b a = false) (Go.insertion_sort le_count u).
Proof.
  eapply StronglySorted_impl; [|apply (insertion_sort_StronglySorted le_count)].
  - intros a b. unfold le_count. destruct (Less b a); [discriminate|reflexivity].
  - intros a b. unfold le_count, Less.
    destruct (Z.ltb_spec (count b) (count a)), (Z.ltb_spec (count a) (count b)); simpl; auto; lia.
  - intros a b c. unfold le_count, Less.
    destruct (Z.ltb_spec (count b) (count a)), (Z.ltb_spec (count c) (count b)),
      (Z.ltb_spec (count c) (count a)); simpl; auto; lia.
Qed.

Lemma rt_ascending_ok : runtime_ok rt_ascending.
Proof.
  split; simpl; intros.
  - apply insertion_sort_perm.
  - apply insertion_sort_le_count.
  - apply insertion_sort_perm.
  - apply insertion_sort_perm.
Qed.

Lemma rt_descending_ok : runtime_ok rt_descending.
Proof.
  split; simpl; intros.
  - apply insertion_sort_perm.
  - apply insertion_sort_le_count.
  - apply insertion_sort_perm.
  - apply insertion_sort_perm.
Qed.

Lemma Less_false (a b : deviceTaskCPU) : Less b a = false <-> count a <= count b.
Proof. unfold Less. destruct (Z.ltb_spec (count b) (count a)); split; intros; (lia || congruence). Qed.

Lemma StronglySorted_app_le {A : Type} (R : A -> A -> Prop) (l1 l2 : list A) :
  StronglySorted R (l1 ++ l2) -> forall a b, In a l1 -> In b l2 -> R a b.
Proof.
  induction l1 as [|x l1 IH]; intros Hs a b Ha Hb; [destruct Ha|].
  simpl in Hs. apply StronglySorted_inv in Hs. destruct Hs as [Hs Hx].
  destruct Ha as [->|Ha].
  - rewrite List.Forall_forall in Hx. apply Hx, in_or_app. right. exact Hb.
  - apply IH; assumption.
Qed.

Section BalanceOne.
Variable rt : runtime.
Hypothesis Hrt : runtime_ok rt.

(** What one allocation does, in terms of the slice [sort.Sort] left. *)
Lemma balance_one_spec (u : list deviceTaskCPU) (p : gmap nat (list string))
    (ctn : nat) (cnt : Z) :
  in_range cnt ->
  let s := sort_usage rt u in
  let j := taken_len cnt (length u) in
  balance_one rt (u, p) (ctn, cnt) =
    (map incr (firstn j s) ++ skipn j s, pin_all ctn (map strId (firstn j s)) p).
Proof.
  intros Hc s j. unfold balance_one. cbn [fst snd].
  rewrite alloc_spec by assumption.
  assert (Hlen : length (sort_usage rt u) = length u).
  { apply Permutation_length, (sort_usage_perm rt Hrt). }
  rewrite Hlen. reflexivity.
Qed.

(** C4 (as amended). The CPUs of an instance are the first entries of the
    usage slice as [sort.Sort] has just arranged it by ascending usage count
    (as many as the count asks for, at most all): they are taken least
    loaded first, none of them is more loaded than a CPU that is left, and
    the slice is sorted again before each instance's allocation, with the
    counts the earlier allocations left.  How equally loaded CPUs are
    ordered is up to [sort.Sort]. *)
Theorem balance_one_takes_least_loaded (u : list deviceTaskCPU)
    (p : gmap nat (list string)) (ctn : nat) (cnt : Z) :
  in_range cnt ->
  (exists taken rest,
     sort_usage rt u = taken ++ rest /\
     Permutation (taken ++ rest) u /\
     length taken = taken_len cnt (length u) /\
     (0 <= cnt -> Z.of_nat (length taken) = Z.min cnt (Z.of_nat (length u))) /\
     StronglySorted (fun a b => count a <= count b) taken /\
     (forall a b, In a taken -> In b rest -> count a <= count b) /\
     balance_one rt (u, p) (ctn, cnt) =
       (map incr taken ++ rest, pin_all ctn (map strId taken) p)) /\
  (forall e es st,
     balanced_stage rt (e :: es) st = balanced_stage rt es (balance_one rt st e)).
Proof.
  intros Hc. split; [|reflexivity].
  set (s := sort_usage rt u). set (j := taken_len cnt (length u)).
  assert (Hlen : length s = length u).
  { apply Permutation_length, (sort_usage_perm rt Hrt). }
  assert (Hsorted : StronglySorted (fun a b => count a <= count b) (firstn j s ++ skipn j s)).
  { rewrite firstn_skipn. eapply StronglySorted_impl; [|apply (sort_usage_sorted rt Hrt)].
    intros a b. apply Less_false. }
  exists (firstn j s), (skipn j s). repeat split.
  - symmetry. apply firstn_skipn.
  - rewrite firstn_skipn. apply (sort_usage_perm rt Hrt).
  - rewrite length_firstn, Hlen. unfold j, taken_len. lia.
  - intros H0. rewrite length_firstn, Hlen. unfold j.
    pose proof (taken_len_nonneg cnt (length u) Hc H0). unfold taken_len in *. lia.
  - clear -Hsorted. induction (firstn j s) as [|a l IH]; [constructor|].
    simpl in Hsorted. apply StronglySorted_inv in Hsorted. destruct Hsorted as [Hs Ha].
    constructor; [apply IH, Hs|].
    rewrite List.Forall_forall in *. intros x Hx. apply Ha, in_or_app. left. exact Hx.
  - apply StronglySorted_app_le, Hsorted.
  - apply balance_one_spec, Hc.
Qed.

End BalanceOne.

Lemma balance_one_takes_least_loaded_witness :
  exists taken rest,
    sort_usage rt_ascending (usage_init [0; 1; 2; 3]) = taken ++ rest /\
    length taken = 2%nat /\
    balance_one rt_ascending (usage_init [0; 1; 2; 3], ∅) (0%nat, 2) =
      (map incr taken ++ rest, pin_all 0%nat (map strId taken) ∅).
Proof.
  assert (Hc : in_range 2) by (vm_compute; split; discriminate).
  destruct (balance_one_takes_least_loaded rt_ascending rt_ascending_ok
              (usage_init [0; 1; 2; 3]) ∅ 0%nat 2 Hc)
    as [(taken & rest & Hs & _ & Hl & _ & _ & _ & Hb) _].
  exists taken, rest. split; [exact Hs|]. split; [exact Hl|exact Hb].
Defined.

(** C4 (counterexample). Four CPUs 0..3 and three load-balanced instances
    asking for 3, 2 and 1 CPUs, visited in that order, with a stable sort:
    when the third is served, CPUs 1, 2 and 3 all carry one instance, and it
    gets CPU 3, not CPU 1 as a tie-break by ascending id would give. *)
Lemma tie_not_broken_by_id :
  let st := balanced_stage rt_ascending [(0%nat, 3); (1%nat, 2)]
              (usage_init [0; 1; 2; 3], ∅) in
  map (fun c => (id c, count c)) (sort_usage rt_ascending (fst st))
    = [(3, 1); (1, 1); (2, 1); (0, 2)] /\
  snd (balance_one rt_ascending st (2%nat, 1)) !! 2%nat = Some ["3"] /\
  map strId (firstn 1 (spec_order (fst st))) = ["1"] /\
  match deviceTaskBalance rt_ascending [0; 1; 2; 3]
          [instance "A" "3"; instance "B" "2"; instance "C" "1"] with
  | Done p => pinning p !! 2%nat
  | _ => None
  end = Some ["3"].
Proof. vm_compute. repeat split; reflexivity. Qed.

(** ** CPU Balancer: classification *)

Lemma digit_val_nonneg (c : ascii) (d : Z) : Go.digit_val c = Some d -> 0 <= d.
Proof.
  unfold Go.digit_val.
  repeat match goal with
         | |- context [ if ?b then _ else _ ] => destruct b eqn:?
         end; intros [= <-]; lia.
Qed.

Lemma parse_digits_nonneg (base : Z) (s : string) :
  forall acc z, 0 <= base -> 0 <= acc -> Go.parse_digits base s acc = Some z -> 0 <= z.
Proof.
  induction s as [|c s IH]; intros acc z Hb Hacc; simpl.
  - intros [= <-]. exact Hacc.
  - destruct (Go.digit_val c) as [d|] eqn:Ed; [|discriminate].
    destruct (d <? base); [|discriminate].
    apply IH; [assumption|]. pose proof (digit_val_nonneg _ _ Ed). nia.
Qed.

Lemma Atoi_in_range (s : string) (z : Z) : Go.Atoi s = Ok z -> in_range z.
Proof.
  unfold Go.Atoi, Go.ParseInt. destruct s as [|c rest]; [discriminate|].
  change (if 0 =? 0 then Go.int_bits else 0) with 64.
  cbv zeta.
  set (body := if (Ascii.eqb c "+" || Ascii.eqb c "-")%bool then rest else String c rest).
  destruct body as [|c' body']; [discriminate|].
  destruct (Go.parse_digits 10 (String c' body') 0) as [un|] eqn:Eun; [|discriminate].
  apply parse_digits_nonneg in Eun; [|lia|lia].
  change (2 ^ (64 - 1)) with 9223372036854775808.
  destruct (Ascii.eqb c "-"); cbn [negb andb].
  - destruct (Z.ltb_spec 9223372036854775808 un); [discriminate|].
    intros [= <-]. int_consts. lia.
  - destruct (Z.leb_spec 9223372036854775808 un); [discriminate|].
    intros [= <-]. int_consts. lia.
Qed.

Lemma classify_one_balanced (cpus : list Z) (h : nat) (c : container)
    (f : gmap Z (list nat)) (b : gmap nat Z) :
  (IsRunning c = true -> exists n, Go.Atoi (limits_cpu cpus c) = Ok n) ->
  exists b', classify_one cpus h c (f, b) = Done (f, b') /\
    (b' = b \/ exists v, in_range v /\ b' = <[h := v]> b).
Proof.
  intros Hc. unfold classify_one. destruct (IsRunning c); cbn [negb].
  - destruct Hc as [n Hn]; [reflexivity|]. rewrite Hn.
    eexists. split; [reflexivity|]. right. eexists. split; [|reflexivity].
    apply min_in_range; [eapply Atoi_in_range; eassumption|lia].
  - exists b. split; [reflexivity|]. left. reflexivity.
Qed.

Lemma classify_from_balanced (cpus : list Z) (cs : list container) :
  forall (h : nat) (f : gmap Z (list nat)) (b : gmap nat Z),
    all_balanced cpus cs ->
    exists b', classify_from cpus h cs (f, b) = Done (f, b') /\
      (forall k, is_Some (b' !! k) -> is_Some (b !! k) \/ (h <= k < h + length cs)%nat) /\
      (map_Forall (fun _ v => in_range v) b -> map_Forall (fun _ v => in_range v) b').
Proof.
  induction cs as [|c cs IH]; intros h f b Hall.
  - exists b. split; [reflexivity|]. split; [auto|auto].
  - destruct (classify_one_balanced cpus h c f b) as (b1 & E1 & Hb1).
    { apply Hall. left. reflexivity. }
    destruct (IH (S h) f b1) as (b' & E' & Hdom & Hval).
    { intros c' Hc'. apply Hall. right. exact Hc'. }
    exists b'. split; [|split].
    + cbn [classify_from]. rewrite E1. exact E'.
    + intros k Hk. apply Hdom in Hk. cbn [length].
      destruct Hk as [Hk|Hk]; [|right; lia].
      destruct Hb1 as [->|(v & _ & ->)]; [left; exact Hk|].
      destruct (decide (h = k)) as [->|Hne]; [right; lia|].
      rewrite lookup_insert_ne in Hk by assumption. left. exact Hk.
    + intros Hb. apply Hval.
      destruct Hb1 as [->|(v & Hv & ->)]; [exact Hb|].
      apply map_Forall_insert_2; assumption.
Qed.

Lemma size_bounded_keys (b : gmap nat Z) (n : nat) :
  (forall k, is_Some (b !! k) -> (k < n)%nat) -> (size b <= n)%nat.
Proof.
  intros Hk. rewrite <- (size_dom (D := gset nat)).
  etransitivity; [|apply Nat.eq_le_incl, (size_set_seq (C := gset nat) 0 n)].
  apply subseteq_size. intros k Hin.
  apply elem_of_dom in Hin. apply Hk in Hin.
  apply elem_of_set_seq. lia.
Qed.

(** ** CPU Balancer: passes without fixed pins *)

Lemma count_incr (c : deviceTaskCPU) :
  0 <= count c < Go.max_int -> count (incr c) = count c + 1.
Proof. intros H. cbn [incr count]. apply wrap_id. int_consts. lia. Qed.

Lemma existsb_false_forall {A : Type} (f : A -> bool) (l : list A) :
  existsb f l = false -> forall x, In x l -> f x = false.
Proof.
  intros H x Hx. destruct (f x) eqn:E; [|reflexivity].
  assert (existsb f l = true) by (apply existsb_exists; eauto). congruence.
Qed.

Section BalancedOnly.
Variable rt : runtime.
Hypothesis Hrt : runtime_ok rt.

Lemma balance_one_ids (st : list deviceTaskCPU * gmap nat (list string)) (e : nat * Z) :
  in_range (snd e) ->
  Permutation (map id (fst (balance_one rt st e))) (map id (fst st)).
Proof.
  destruct st as [u p], e as [ctn cnt]. cbn [fst snd]. intros Hc.
  rewrite (balance_one_spec rt Hrt) by assumption. cbn [fst].
  rewrite map_app, map_map. cbn [incr id].
  rewrite <- (map_app id), firstn_skipn.
  apply Permutation_map, (sort_usage_perm rt Hrt).
Qed.

Lemma balance_one_inv (k : Z) (st : list deviceTaskCPU * gmap nat (list string))
    (e : nat * Z) :
  in_range (snd e) -> 0 <= k < Go.max_int ->
  balanced_inv k (fst st) -> balanced_inv (k + 1) (fst (balance_one rt st e)).
Proof.
  destruct st as [u p], e as [ctn cnt]. cbn [fst snd].
  intros Hc Hk (m & Hm & Hu).
  rewrite (balance_one_spec rt Hrt) by assumption. cbn [fst].
  set (s := sort_usage rt u). set (j := taken_len cnt (length u)).
  assert (Hs : forall c, In c s -> m <= count c <= m + 1 /\ count c <= k).
  { intros c Hin. apply Hu. eapply Permutation_in; [apply (sort_usage_perm rt Hrt)|exact Hin]. }
  assert (HT : forall c, In c (firstn j s) -> In c s).
  { intros c Hin. rewrite <- (firstn_skipn j s). apply in_or_app. left. exact Hin. }
  assert (HR : forall c, In c (skipn j s) -> In c s).
  { intros c Hin. rewrite <- (firstn_skipn j s). apply in_or_app. right. exact Hin. }
  assert (Hle : forall a b, In a (firstn j s) -> In b (skipn j s) -> count a <= count b).
  { apply (StronglySorted_app_le (fun a b => count a <= count b)).
    rewrite firstn_skipn. eapply StronglySorted_impl; [|apply (sort_usage_sorted rt Hrt)].
    intros a b. apply Less_false. }
  assert (Hincr : forall a, In a (firstn j s) -> count (incr a) = count a + 1).
  { intros a Ha. apply count_incr. specialize (Hs a (HT a Ha)). lia. }
  destruct (existsb (fun a => count a =? m + 1) (firstn j s)) eqn:E.
  - apply existsb_exists in E. destruct E as (a0 & Ha0 & E0). apply Z.eqb_eq in E0.
    exists (m + 1). split; [lia|]. intros c Hin.
    apply in_app_or in Hin. destruct Hin as [Hin|Hin].
    + apply in_map_iff in Hin. destruct Hin as (a & <- & Ha).
      rewrite (Hincr a Ha). specialize (Hs a (HT a Ha)). lia.
    + specialize (Hle a0 c Ha0 Hin). specialize (Hs c (HR c Hin)). lia.
  - exists m. split; [lia|]. intros c Hin.
    apply in_app_or in Hin. destruct Hin as [Hin|Hin].
    + apply in_map_iff in Hin. destruct Hin as (a & <- & Ha).
      rewrite (Hincr a Ha). specialize (Hs a (HT a Ha)).
      pose proof (existsb_false_forall _ _ E a Ha) as Hne. apply Z.eqb_neq in Hne. lia.
    + specialize (Hs c (HR c Hin)). lia.
Qed.

Lemma balanced_stage_inv (es : list (nat * Z)) :
  forall (k : Z) (st : list deviceTaskCPU * gmap nat (list string)),
    Forall (fun e => in_range (snd e)) es ->
    0 <= k -> k + Z.of_nat (length es) <= Go.max_int ->
    balanced_inv k (fst st) ->
    balanced_inv (k + Z.of_nat (length es)) (fst (balanced_stage rt es st)) /\
    Permutation (map id (fst (balanced_stage rt es st))) (map id (fst st)).
Proof.
  induction es as [|e es IH]; intros k st Hes Hk Hlen Hinv.
  - cbn. rewrite Z.add_0_r. split; [assumption|reflexivity].
  - apply List.Forall_cons_iff in Hes. destruct Hes as [He Hes].
    cbn [length] in Hlen. unfold balanced_stage. cbn [fold_left].
    destruct (IH (k + 1) (balance_one rt st e)) as [Hi Hp]; try assumption; try lia.
    { apply balance_one_inv; [assumption|lia|assumption]. }
    split.
    + replace (k + Z.of_nat (length (e :: es))) with (k + 1 + Z.of_nat (length es))
        by (cbn [length]; lia).
      exact Hi.
    + unfold balanced_stage in Hp. rewrite Hp. apply balance_one_ids, He.
Qed.

(** A pass whose classification records no fixed assignment runs to its
    end with counters that differ by at most 1. *)
Lemma no_fixed_pins_counts (cpus : list Z) (containers : list container) (b : gmap nat Z) :
  classify cpus containers = Done (∅, b) ->
  map_Forall (fun _ v => in_range v) b ->
  (forall k, is_Some (b !! k) -> (k < length containers)%nat) ->
  Z.of_nat (length containers) <= Go.max_int ->
  exists p, deviceTaskBalance rt cpus containers = Done p /\
    Permutation (map id (usage p)) cpus /\
    forall x y, In x (usage p) -> In y (usage p) -> Z.abs (count x - count y) <= 1.
Proof.
  intros Ec Hval Hdom Hlen. unfold deviceTaskBalance.
  rewrite Ec. cbn [mbind outcome_bind Go.obind].
  assert (Hf : range_fixed rt ∅ = []).
  { apply Permutation_nil. rewrite (range_fixed_perm rt Hrt), map_to_list_empty. reflexivity. }
  rewrite Hf. cbn [fixed_stage mbind outcome_bind Go.obind].
  set (es := range_balanced rt b).
  assert (Hes : Forall (fun e => in_range (snd e)) es).
  { apply List.Forall_forall. intros [h v] Hin.
    assert (Hin' : In (h, v) (map_to_list b)).
    { eapply Permutation_in; [apply (range_balanced_perm rt Hrt)|exact Hin]. }
    apply list_elem_of_In, elem_of_map_to_list in Hin'.
    apply (Hval h v Hin'). }
  assert (Hsize : (length es <= length containers)%nat).
  { unfold es. rewrite (Permutation_length (range_balanced_perm rt Hrt b)).
    rewrite length_map_to_list. apply size_bounded_keys, Hdom. }
  destruct (balanced_stage_inv es 0 (usage_init cpus, ∅)) as [Hinv Hperm];
    [assumption|lia|lia| |].
  { exists 0. split; [lia|]. intros c Hin. unfold usage_init in Hin. cbn [fst] in Hin.
    apply in_map_iff in Hin. destruct Hin as (i & <- & _). cbn. lia. }
  destruct (balanced_stage rt es (usage_init cpus, ∅)) as [u p] eqn:Est.
  eexists. split; [reflexivity|]. cbn [usage fst] in *. split.
  - rewrite Hperm. unfold usage_init. rewrite map_map. cbn [id].
    rewrite map_id. reflexivity.
  - destruct Hinv as (m & _ & Hm). intros x y Hx Hy.
    specialize (Hm x Hx) as Hx'. specialize (Hm y Hy) as Hy'. lia.
Qed.

End BalancedOnly.

(** ** CPU Balancer: the value written to [cpuset.cpus] *)

Lemma pin_add_nonempty (ctn : nat) (s : string) (p : gmap nat (list string)) :
  pin_nonempty p -> pin_nonempty (pin_add ctn s p).
Proof.
  intros Hp. unfold pin_add.
  destruct (p !! ctn); apply map_Forall_insert_2; try assumption;
    try discriminate; intros H; apply app_eq_nil in H; destruct H; discriminate.
Qed.

Lemma alloc_nonempty (ctn : nat) (us : list deviceTaskCPU) :
  forall cnt p, pin_nonempty p -> pin_nonempty (snd (alloc ctn cnt us p)).
Proof.
  induction us as [|cpu rest IH]; intros cnt p Hp; cbn [alloc]; [exact Hp|].
  destruct (cnt =? 0); [exact Hp|].
  specialize (IH (Go.wrap (cnt - 1)) (pin_add ctn (strId cpu) p) (pin_add_nonempty _ _ _ Hp)).
  destruct (alloc ctn (Go.wrap (cnt - 1)) rest (pin_add ctn (strId cpu) p)). exact IH.
Qed.

Lemma balanced_stage_nonempty (rt : runtime) (es : list (nat * Z)) :
  forall st, pin_nonempty (snd st) -> pin_nonempty (snd (balanced_stage rt es st)).
Proof.
  induction es as [|[ctn cnt] es IH]; intros st Hp; [exact Hp|].
  unfold balanced_stage in *. cbn [fold_left]. apply IH.
  unfold balance_one. apply alloc_nonempty, Hp.
Qed.

Lemma fixed_one_nonempty (st st' : list deviceTaskCPU * gmap nat (list string))
    (e : Z * list nat) :
  fixed_one st e = Done st' -> pin_nonempty (snd st) -> pin_nonempty (snd st').
Proof.
  destruct e as [cpu ctns]. unfold fixed_one.
  destruct (Go.index (fst st) cpu) as [entry| |]; cbn; try discriminate.
  intros [= <-]. revert st.
  induction ctns as [|ctn ctns IH]; intros [u p] Hp; cbn [fold_left]; [exact Hp|].
  apply IH. apply pin_add_nonempty, Hp.
Qed.

Lemma fixed_stage_nonempty (es : list (Z * list nat)) :
  forall st st', fixed_stage es st = Done st' ->
    pin_nonempty (snd st) -> pin_nonempty (snd st').
Proof.
  induction es as [|e es IH]; intros st st'; cbn [fixed_stage].
  - intros [= <-]. auto.
  - destruct (fixed_one st e) as [st1| |] eqn:E1; cbn; try discriminate.
    intros E Hp. eapply IH; [exact E|]. eapply fixed_one_nonempty; eassumption.
Qed.

Lemma deviceTaskBalance_done (rt : runtime) (cpus : list Z) (containers : list container)
    (p : pass) :
  deviceTaskBalance rt cpus containers = Done p ->
  exists f b st,
    classify cpus containers = Done (f, b) /\
    fixed_stage (range_fixed rt f) (usage_init cpus, ∅) = Done st /\
    balanced_stage rt (range_balanced rt b) st = (usage p, pinning p) /\
    cpuset_cpus p = cpuset_value <$> pinning p.
Proof.
  unfold deviceTaskBalance.
  destruct (classify cpus containers) as [[f b]| |] eqn:Ec; cbn; try discriminate.
  destruct (fixed_stage (range_fixed rt f) (usage_init cpus, ∅)) as [st| |] eqn:Ef; cbn;
    try discriminate.
  destruct (balanced_stage rt (range_balanced rt b) st) as [u pin] eqn:E.
  intros [= <-]. exists f, b, st. cbn. repeat split; assumption || reflexivity.
Qed.

(** C3 (as amended). When a pass reaches its write stage, the instances
    written to are those that received at least one CPU, and the value
    written for one is its CPU-id strings in ascending byte-wise
    (lexicographic) order, comma-joined: the ids ["2"] and ["10"] give
    ["10,2"]. *)
Theorem cpuset_value_lexicographic (rt : runtime) (cpus : list Z)
    (containers : list container) (p : pass) :
  deviceTaskBalance rt cpus containers = Done p ->
  (forall h,
     match pinning p !! h with
     | None => cpuset_cpus p !! h = None
     | Some set =>
         set <> [] /\
         exists l, cpuset_cpus p !! h = Some (Go.Join l ",") /\
           Permutation l set /\
           StronglySorted (fun a b => Go.strle a b = true) l
     end) /\
  cpuset_value ["2"; "10"] = "10,2".
Proof.
  intros Hrun. split; [|reflexivity].
  destruct (deviceTaskBalance_done _ _ _ _ Hrun) as (f & b & st & Hc & Hf & Hb & Hw).
  assert (Hne : pin_nonempty (pinning p)).
  { change (pinning p) with (snd (usage p, pinning p)). rewrite <- Hb.
    apply balanced_stage_nonempty. eapply fixed_stage_nonempty; [exact Hf|].
    cbn. apply map_Forall_empty. }
  intros h. rewrite Hw, lookup_fmap.
  destruct (pinning p !! h) as [set|] eqn:E; cbn; [|reflexivity].
  split; [exact (Hne h set E)|].
  exists (Go.SortStrings set). split; [reflexivity|].
  split; [apply SortStrings_perm|apply SortStrings_sorted].
Qed.

Lemma cpuset_value_lexicographic_witness :
  exists p,
    deviceTaskBalance rt_ascending [0; 1; 2; 3]
      [instance "A" "0-1"; instance "B" "2"] = Done p /\
    cpuset_cpus p !! 1%nat = Some "2,3" /\
    forall h,
      match pinning p !! h with
      | None => cpuset_cpus p !! h = None
      | Some set =>
          set <> [] /\
          exists l, cpuset_cpus p !! h = Some (Go.Join l ",") /\
            Permutation l set /\
            StronglySorted (fun a b => Go.strle a b = true) l
      end.
Proof.
  destruct (deviceTaskBalance rt_ascending [0; 1; 2; 3]
              [instance "A" "0-1"; instance "B" "2"]) as [p| |] eqn:E;
    [|vm_compute in E; discriminate E|vm_compute in E; discriminate E].
  exists p. split; [reflexivity|]. split.
  - vm_compute in E. injection E as <-. reflexivity.
  - exact (proj1 (cpuset_value_lexicographic _ _ _ p E)).
Defined.

(** C3 (counterexample). With CPUs 10 and 2 online, an instance that asks
    for two CPUs holds both, and ["10,2"] is written, not ["2,10"]. *)
Lemma cpuset_value_not_numeric :
  match deviceTaskBalance rt_ascending [10; 2] [instance "A" "2"] with
  | Done p => (pinning p !! 0%nat, cpuset_cpus p !! 0%nat)
  | _ => (None, None)
  end = (Some ["10"; "2"], Some "10,2") /\
  spec_cpuset_value [10; 2] = "2,10".
Proof. vm_compute. split; reflexivity. Qed.

(** ** CPU Balancer: fixed pins index the usage slice by CPU id *)

(** C2 (the code at the failing input). CPUs 0, 2 and 3 are online (CPU 1
    is offline) and one instance is pinned to ["0,2"]: both ids are online
    and are recorded as fixed assignments, but [usage[2]] is the third entry
    of the usage slice, CPU 3, so the instance is pinned to CPUs 0 and 3 and
    CPU 2 is not in its set; this whatever the order the map is visited
    in.  The same happens with every CPU online once there are more than
    ten: the directory listing gives the ids in the order of the names
    (cpu0, cpu1, cpu10, cpu11, cpu2, ...), and the pin to CPU 2 lands on
    CPU 10. *)
Theorem fixed_pin_takes_wrong_cpu :
  classify [0; 2; 3] [instance "A" "0,2"]
    = Done ({[ 0 := [0%nat]; 2 := [0%nat] ]}, ∅) /\
  outcome_of (deviceTaskBalance rt_ascending [0; 2; 3] [instance "A" "0,2"]) 0
    = Done (Some ["0"; "3"], Some "0,3") /\
  outcome_of (deviceTaskBalance rt_descending [0; 2; 3] [instance "A" "0,2"]) 0
    = Done (Some ["3"; "0"], Some "0,3") /\
  outcome_of (deviceTaskBalance rt_ascending [0; 1; 10; 11; 2; 3; 4; 5; 6; 7; 8; 9]
                [instance "A" "0,2"]) 0
    = Done (Some ["0"; "10"], Some "0,10").
Proof. vm_compute. repeat split; reflexivity. Qed.

(** C6 (the code at the failing input). CPUs 0 and 2 are online and one
    instance is pinned to ["0-2"]: the offline CPU 1 is left out of the
    fixed assignments and the ids 0 and 2 are kept, but [usage[2]] is out
    of range for a slice of two entries and the pass panics.  A range that
    ends at the largest [int] never finishes. *)
Theorem pin_range_with_offline_cpu_panics :
  classify [0; 2] [instance "A" "0-2"]
    = Done ({[ 0 := [0%nat]; 2 := [0%nat] ]}, ∅) /\
  deviceTaskBalance rt_ascending [0; 2] [instance "A" "0-2"] = Panic /\
  deviceTaskBalance rt_descending [0; 2] [instance "A" "0-2"] = Panic /\
  deviceTaskBalance rt_ascending [0; 1] [instance "A" "0-9223372036854775807"] = Hang.
Proof. vm_compute. repeat split; reflexivity. Qed.

(** C1 (the code at the failing input). CPUs 0 and 2 are online, instance
    A is pinned to ["0,2"] and instance B asks for one CPU: the pass panics
    in the fixed stage, before B is served. *)
Theorem balanced_instance_unserved_on_panic :
  deviceTaskBalance rt_ascending [0; 2] [instance "A" "0,2"; instance "B" "1"] = Panic /\
  deviceTaskBalance rt_descending [0; 2] [instance "A" "0,2"; instance "B" "1"] = Panic.
Proof. vm_compute. split; reflexivity. Qed.

(** C10 (the code at the failing input). As above with instance B asking
    for [-1] CPUs. *)
Theorem negative_count_unserved_on_panic :
  deviceTaskBalance rt_ascending [0; 2] [instance "A" "0,2"; instance "B" "-1"] = Panic /\
  deviceTaskBalance rt_descending [0; 2] [instance "A" "0,2"; instance "B" "-1"] = Panic.
Proof. vm_compute. split; reflexivity. Qed.

(** ** Live Device Delta Engine: cleanup of the host-side link *)

Module LiveProps.
Import Live LiveSpec.

Lemma traces_ret {A : Type} (a : A) (Q : A -> list event -> Prop) :
  Q a [] -> traces (ret a) Q.
Proof. intros H t. exists a, []. rewrite app_nil_r. split; [reflexivity|exact H]. Qed.

Lemma traces_bind {A B : Type} (m : M A) (k : A -> M B)
    (Q1 : A -> list event -> Prop) (Q : B -> list event -> Prop) :
  traces m Q1 ->
  (forall a evs1, Q1 a evs1 -> traces (k a) (fun b evs2 => Q b (evs1 ++ evs2))) ->
  traces (bind m k) Q.
Proof.
  intros Hm Hk t. destruct (Hm t) as (a & evs1 & E1 & H1).
  destruct (Hk a evs1 H1 (t ++ evs1)) as (b & evs2 & E2 & H2).
  exists b, (evs1 ++ evs2). unfold bind. rewrite E1, E2, app_assoc. split; [reflexivity|exact H2].
Qed.

Lemma traces_ask {A : Type} (answer : list event -> A) (ev : A -> event)
    (Q : A -> list event -> Prop) :
  (forall a, Q a [ev a]) -> traces (ask answer ev) Q.
Proof. intros H t. exists (answer t), [ev (answer t)]. split; [reflexivity|apply H]. Qed.

Lemma traces_ask_eq {A : Type} (answer : list event -> A) (ev : A -> event) :
  traces (ask answer ev) (fun a evs => evs = [ev a]).
Proof. apply traces_ask. reflexivity. Qed.

Lemma traces_weaken {A : Type} (m : M A) (Q Q' : A -> list event -> Prop) :
  traces m Q -> (forall a evs, Q a evs -> Q' a evs) -> traces m Q'.
Proof.
  intros Hm HQ t. destruct (Hm t) as (a & evs & E & H). exists a, evs. auto.
Qed.

Lemma steps_ok_nil : steps_ok [].
Proof. intros e dev []. Qed.

Lemma steps_ok_app (l1 l2 : list event) : steps_ok l1 -> steps_ok l2 -> steps_ok (l1 ++ l2).
Proof.
  intros H1 H2 e dev Hin. apply in_app_or in Hin. destruct Hin; [apply H1|apply H2]; assumption.
Qed.

Lemma steps_ok_one (e : event) : (forall dev, ~ failed_step dev e) -> steps_ok [e].
Proof. intros H e' dev [<-|[]]. apply H. Qed.

Lemma cleanup_after (l1 l2 : list event) :
  steps_ok l1 -> ends_with_cleanup l2 -> ends_with_cleanup (l1 ++ l2).
Proof.
  intros H1 (evs' & dev & ef & ed & -> & Hok & Hf & Hd).
  exists (l1 ++ evs'), dev, ef, ed. rewrite app_assoc.
  split; [reflexivity|]. split; [apply steps_ok_app; assumption|]. split; assumption.
Qed.

Lemma good_after {A : Type} (r : result A) (l1 l2 : list event) :
  steps_ok l1 -> good r l2 -> good r (l1 ++ l2).
Proof.
  intros H1. destruct r; cbn.
  - apply steps_ok_app, H1.
  - intros [H|H]; [left; apply steps_ok_app|right; apply cleanup_after]; assumption.
Qed.

Ltac not_failed :=
  let H := fresh "H" in
  intros ? [(? & ? & H)|[(? & H)|(? & ? & H)]]; discriminate H.

Lemma quiet_ret {A : Type} (a : A) : quiet (ret a).
Proof. apply traces_ret, steps_ok_nil. Qed.

Lemma quiet_bind {A B : Type} (m : M A) (k : A -> M B) :
  quiet m -> (forall a, quiet (k a)) -> quiet (bind m k).
Proof.
  intros Hm Hk. eapply traces_bind; [exact Hm|].
  intros a evs1 H1. eapply traces_weaken; [apply Hk|].
  intros b evs2 H2. apply steps_ok_app; assumption.
Qed.

Lemma quiet_ask {A : Type} (answer : list event -> A) (ev : A -> event) :
  (forall a dev, ~ failed_step dev (ev a)) -> quiet (ask answer ev).
Proof. intros H. apply traces_ask. intros a. apply steps_ok_one, H. Qed.

Lemma quiet_removeInterface (w : world) (nic : string) : quiet (removeInterface w nic).
Proof.
  apply quiet_bind; [|intros; apply quiet_ret].
  apply quiet_ask. intros ?. not_failed.
Qed.

Lemma quiet_tempNic (w : world) : quiet (tempNic w).
Proof.
  apply quiet_bind; [|intros; apply quiet_ret].
  apply quiet_ask. intros ?. not_failed.
Qed.

Lemma quiet_nextUnusedNic (w : world) : quiet (nextUnusedNic w).
Proof.
  apply quiet_bind; [apply quiet_ask; intros ?; not_failed|].
  intros [list|e]; [|apply quiet_ret].
  destruct (length list =? 0)%nat; apply quiet_ret.
Qed.

Lemma quiet_setupNic_hwaddr (w : world) (c : instance) (name : string)
    (d : gmap string string) : quiet (setupNic_hwaddr w c name d).
Proof.
  unfold setupNic_hwaddr. cbv zeta.
  destruct (_ =s ""); [|apply quiet_ret].
  apply quiet_bind; [apply quiet_ask; intros ?; not_failed|].
  intros [hwaddr|e]; [|apply quiet_ret].
  destruct (negb _); [|apply quiet_ret].
  apply quiet_bind; [apply quiet_ask; intros ?; not_failed|].
  intros [?|?]; apply quiet_ret.
Qed.

Lemma quiet_setupNic_create (w : world) (d : gmap string string) :
  quiet (setupNic_create w d).
Proof.
  unfold setupNic_create. cbv zeta.
  apply quiet_bind.
  - destruct (Go.StringInSlice _ _); [|apply quiet_ret].
    apply quiet_bind; [apply quiet_tempNic|]. intros n1.
    apply quiet_bind; [apply quiet_tempNic|]. intros n2.
    apply quiet_bind; [apply quiet_ask; intros ?; not_failed|].
    intros [?|?]; [|apply quiet_ret].
    destruct (_ =s "bridge"); [|apply quiet_ret].
    apply quiet_bind; [apply quiet_ask; intros ?; not_failed|].
    intros [?|?]; [apply quiet_ret|].
    apply quiet_bind; [apply quiet_removeInterface|]. intros _. apply quiet_ret.
  - intros [dev|e]; [|apply quiet_ret].
    destruct (_ =s "macvlan"); [|apply quiet_ret].
    apply quiet_bind; [apply quiet_tempNic|]. intros n1.
    apply quiet_bind; [apply quiet_ask; intros ?; not_failed|].
    intros [?|?]; apply quiet_ret.
Qed.

Lemma traces_quiet_then {A B C : Type} (m : M A) (k : A -> M B) (pr : B -> result C) :
  quiet m ->
  (forall a, traces (k a) (fun b evs => good (pr b) evs)) ->
  traces (bind m k) (fun b evs => good (pr b) evs).
Proof.
  intros Hm Hk. eapply traces_bind; [exact Hm|].
  intros a evs1 H1. eapply traces_weaken; [apply Hk|].
  intros b evs2 H2. apply good_after; assumption.
Qed.

Lemma traces_quiet_good {A B : Type} (m : M A) (pr : A -> result B) :
  quiet m -> traces m (fun a evs => good (pr a) evs).
Proof.
  intros Hm. eapply traces_weaken; [exact Hm|].
  intros a evs H. unfold good. destruct (pr a); auto.
Qed.

(** Returning [b] after [removeInterface dev], when the step [e_fail] on
    [dev] has just failed. *)
Lemma traces_cleanup {B C : Type} (w : world) (dev : string) (e_fail : event) (b : B)
    (pr : B -> result C) (err : error) :
  failed_step dev e_fail -> pr b = Err err ->
  traces (bind (removeInterface w dev) (fun _ => ret b))
    (fun b' evs => good (pr b') ([e_fail] ++ evs)).
Proof.
  intros Hf Hb t. unfold removeInterface, exec, bind, ask, ret.
  eexists b, [_]. split; [reflexivity|].
  rewrite Hb. cbn. right.
  eexists [], dev, e_fail, _. split; [reflexivity|].
  split; [apply steps_ok_nil|]. split; [exact Hf|]. eexists. reflexivity.
Qed.

Lemma good_setupNic (w : world) (c : instance) (name : string) (d : gmap string string) :
  traces (setupNic w c name d) (fun p evs => good (snd p) evs).
Proof.
  unfold setupNic.
  destruct (nic_checks d); [|apply traces_ret; left; apply steps_ok_nil].
  apply traces_quiet_then.
  { destruct (_ =s ""); [|apply quiet_ret].
    apply quiet_bind; [apply quiet_nextUnusedNic|]. intros; apply quiet_ret. }
  intros d'. apply traces_quiet_then; [apply quiet_setupNic_hwaddr|].
  intros [hwaddr|e]; [|apply traces_ret; left; apply steps_ok_nil].
  apply traces_quiet_then; [apply quiet_setupNic_create|].
  intros [dev|e]; [|apply traces_ret; left; apply steps_ok_nil].
  eapply traces_bind; [apply traces_ask_eq|].
  intros [u|e] evs1 ->.
  2:{ eapply traces_cleanup; [|reflexivity]. left. eauto. }
  eapply traces_weaken.
  2:{ intros b evs2 H. apply good_after; [|exact H].
      apply steps_ok_one. not_failed. }
  eapply traces_bind; [apply traces_ask_eq|].
  intros [u'|e] evs2 ->.
  2:{ eapply traces_cleanup; [|reflexivity]. right. left. eauto. }
  apply traces_ret. cbn. apply steps_ok_one. not_failed.
Qed.

Lemma quiet_txUpdateNic (w : world) (cId : Z) (devname nicname : string) :
  quiet (txUpdateNic w cId devname nicname).
Proof.
  unfold txUpdateNic. cbv zeta.
  apply quiet_bind; [apply quiet_ask; intros ?; not_failed|].
  intros [?|?]; [|apply quiet_ret]. apply quiet_ask; intros ?; not_failed.
Qed.

Lemma quiet_container_call (w : world) (method : string) (dev : gmap string string) :
  quiet (container_call w method dev).
Proof. apply quiet_ask; intros ?; not_failed. Qed.

Lemma quiet_detachInterface (w : world) (key : string) : quiet (detachInterface w key).
Proof.
  unfold detachInterface.
  apply quiet_bind; [apply quiet_ask; intros ?; not_failed|].
  intros [?|?]; [|apply quiet_ret]. apply quiet_ask; intros ?; not_failed.
Qed.

Lemma quiet_DetachUnixDev (w : world) (dev : gmap string string) : quiet (DetachUnixDev w dev).
Proof.
  unfold DetachUnixDev.
  destruct (deviceCgroupInfo _ _); [|apply quiet_ret].
  apply quiet_bind; [apply quiet_ask; intros ?; not_failed|]. intros _.
  apply quiet_bind; [apply quiet_ask; intros ?; not_failed|]. intros pid.
  destruct (pid =? -1); [apply quiet_ret|]. cbv zeta.
  apply quiet_bind; [apply quiet_ask; intros ?; not_failed|].
  intros [?|?]; [|apply quiet_ret]. apply quiet_ask; intros ?; not_failed.
Qed.

Lemma quiet_remove_one (w : world) (c : instance) (key : string) (dev : gmap string string) :
  quiet (remove_one w c key dev).
Proof.
  unfold remove_one. cbv zeta.
  destruct (_ =s "nic").
  { destruct (_ =s ""); [apply quiet_ret|].
    apply quiet_bind; [apply quiet_detachInterface|]. intros [?|?]; apply quiet_ret. }
  destruct (_ =s "disk"); [apply quiet_container_call|].
  destruct (_ =s "unix-block"); [apply quiet_DetachUnixDev|].
  destruct (_ =s "unix-char"); [apply quiet_DetachUnixDev|].
  apply quiet_ret.
Qed.

Lemma good_add_one (w : world) (c : instance) (key : string) (dev : gmap string string) :
  traces (add_one w c key dev) (fun r evs => good r evs).
Proof.
  unfold add_one. cbv zeta.
  destruct (_ =s "nic").
  2:{ apply (traces_quiet_good _ (fun r => r)).
      destruct (_ =s "disk").
      { destruct (_ || _); [apply quiet_ret|apply quiet_container_call]. }
      destruct (_ =s "unix-block"); [apply quiet_container_call|].
      destruct (_ =s "unix-char"); [apply quiet_container_call|].
      apply quiet_ret. }
  eapply traces_bind; [apply good_setupNic|].
  intros [dev' [tmpName|e]] evs1 H1; cbn [snd] in H1.
  2:{ apply traces_ret. rewrite app_nil_r. exact H1. }
  eapply traces_weaken.
  2:{ intros b evs2 H. apply good_after; [exact H1|exact H]. }
  eapply traces_bind; [apply traces_ask_eq|].
  intros [u|e] evs2 ->.
  2:{ eapply (traces_cleanup w tmpName _ _ (fun r => r)); [|reflexivity].
      right. right. eauto. }
  eapply traces_weaken.
  2:{ intros b evs3 H. apply good_after; [|exact H]. apply steps_ok_one. not_failed. }
  apply (traces_quiet_good _ (fun r => r)).
  apply quiet_bind; [apply quiet_txUpdateNic|]. intros [?|?]; apply quiet_ret.
Qed.

Lemma good_for_each (body : string -> gmap string string -> M (result unit))
    (entries : list (string * gmap string string)) :
  (forall key dev, traces (body key dev) (fun r evs => good r evs)) ->
  traces (for_each body entries) (fun r evs => good r evs).
Proof.
  intros Hbody. induction entries as [|[key dev] rest IH]; cbn [for_each].
  - apply traces_ret. apply steps_ok_nil.
  - eapply traces_bind; [apply Hbody|].
    intros [u|e] evs1 H1.
    + eapply traces_weaken; [exact IH|].
      intros b evs2 H. apply good_after; assumption.
    + apply traces_ret. rewrite app_nil_r. exact H1.
Qed.

Lemma good_devicesApplyDeltaLive
    (range : gmap string (gmap string string) -> list (string * gmap string string))
    (w : world) (c : instance) (preDevList postDevList : gmap string (gmap string string)) :
  traces (devicesApplyDeltaLive range w c preDevList postDevList) (fun r evs => good r evs).
Proof.
  unfold devicesApplyDeltaLive. destruct (Update _ _) as [rmList addList].
  eapply traces_bind.
  { apply good_for_each. intros key dev.
    apply (traces_quiet_good _ (fun r => r)), quiet_remove_one. }
  intros [u|e] evs1 H1.
  - eapply traces_weaken; [apply good_for_each, good_add_one|].
    intros b evs2 H. apply good_after; assumption.
  - apply traces_ret. rewrite app_nil_r. exact H1.
Qed.

Lemma failed_step_inj (dev dev' : string) (e : event) :
  failed_step dev e -> failed_step dev' e -> dev = dev'.
Proof.
  intros [(? & ? & ->)|[(? & ->)|(? & ? & ->)]] [(? & ? & H)|[(? & H)|(? & ? & H)]];
    congruence.
Qed.

Lemma destroys_not_failed (dev dev' : string) (e : event) :
  destroys dev e -> ~ failed_step dev' e.
Proof. intros [r ->]. revert dev'. not_failed. Qed.

(** Where an element can stand in a list that ends with two given ones. *)
Lemma in_list_with_two_last {A : Type} (l1 l2 l : list A) (x y z : A) :
  l1 ++ x :: l2 = l ++ [y; z] ->
  In x l \/ (x = y /\ l2 = [z]) \/ (x = z /\ l2 = []).
Proof.
  revert l. induction l1 as [|a l1 IH]; intros l H.
  - destruct l as [|b l]; cbn in H.
    + injection H as -> ->. right. left. auto.
    + injection H as -> H. left. left. reflexivity.
  - destruct l as [|b l]; cbn in H.
    + injection H as -> H. destruct l1 as [|a' l1]; cbn in H.
      * injection H as -> ->. right. right. auto.
      * injection H as -> H. destruct l1; discriminate H.
    + injection H as -> H. destruct (IH l H) as [Hin|Hrest]; [left; right; exact Hin|].
      right. exact Hrest.
Qed.

(** C9. In [devicesApplyDeltaLive], when a host-side link has been created
    for a nic and a later step on it fails (assigning the MAC address,
    bringing the link up, or moving it into the instance's network
    namespace), the call returns an error, and the last thing it did before
    returning is to run the deletion of that link. *)
Theorem failed_step_after_creation_destroys_link
    (range : gmap string (gmap string string) -> list (string * gmap string string))
    (w : world) (c : instance) (preDevList postDevList : gmap string (gmap string string))
    (t t' : list event) (res : result unit) :
  devicesApplyDeltaLive range w c preDevList postDevList t = (res, t') ->
  exists evs, t' = t ++ evs /\
    forall dev before e_create mid e_fail after,
      evs = before ++ e_create :: mid ++ e_fail :: after ->
      creates dev e_create -> failed_step dev e_fail ->
      (exists err, res = Err err) /\
      exists e_del, after = [e_del] /\ destroys dev e_del.
Proof.
  intros Hrun.
  destruct (good_devicesApplyDeltaLive range w c preDevList postDevList t)
    as (res0 & evs & E & Hgood).
  rewrite E in Hrun. injection Hrun as <- <-.
  exists evs. split; [reflexivity|].
  intros dev before e_create mid e_fail after Hevs _ Hfail.
  assert (Hin : In e_fail evs).
  { rewrite Hevs. apply in_or_app. right. right. apply in_or_app. right. left. reflexivity. }
  assert (Hcl : ends_with_cleanup evs).
  { destruct res0; cbn in Hgood.
    - exfalso. exact (Hgood e_fail dev Hin Hfail).
    - destruct Hgood as [Hok|Hcl]; [|exact Hcl].
      exfalso. exact (Hok e_fail dev Hin Hfail). }
  destruct Hcl as (evs' & dev0 & ef & ed & Hsplit & Hok & Hf0 & Hd0).
  rewrite Hsplit in Hevs. symmetry in Hevs.
  change (before ++ e_create :: mid ++ e_fail :: after)
    with (before ++ (e_create :: mid) ++ e_fail :: after) in Hevs.
  rewrite app_assoc in Hevs.
  destruct (in_list_with_two_last _ _ _ _ _ _ Hevs) as [Hin'|[[-> ->]|[-> _]]].
  - exfalso. exact (Hok e_fail dev Hin' Hfail).
  - pose proof (failed_step_inj _ _ _ Hfail Hf0) as ->.
    split.
    + destruct res0 as [u|err]; [|eauto].
      exfalso. cbn in Hgood. apply (Hgood ef dev0); [|exact Hf0].
      rewrite Hsplit. apply in_or_app. right. left. reflexivity.
    + exists ed. auto.
  - exfalso. exact (destroys_not_failed _ _ _ Hd0 Hfail).
Qed.

Lemma failed_step_after_creation_destroys_link_witness :
  exists err e_del,
    fst (devicesApplyDeltaLive map_to_list world_mac_fails one_instance ∅ one_macvlan [])
      = Err err /\
    last (snd (devicesApplyDeltaLive map_to_list world_mac_fails one_instance ∅
                 one_macvlan [])) = Some e_del /\
    destroys "veth01020304" e_del.
Proof.
  destruct (devicesApplyDeltaLive map_to_list world_mac_fails one_instance ∅ one_macvlan [])
    as [res t'] eqn:E.
  destruct (failed_step_after_creation_destroys_link _ _ _ _ _ _ _ _ E) as (evs & Ht & H).
  vm_compute in E. injection E as <- <-. cbn [app] in Ht. subst evs.
  destruct (H "veth01020304"
              [EInterfaces (Ok ["eth0"]);
               EGenerateMacAddr "00:16:3e:xx:xx:xx" (Ok "00:16:3e:aa:bb:cc");
               ETxExec "INSERT OR REPLACE into containers_config (container_id, key, value) VALUES (?, ?, ?)"
                 ["1"; "volatile.net1.hwaddr"; "00:16:3e:aa:bb:cc"] (Ok tt);
               ERandRead [Byte.x01; Byte.x02; Byte.x03; Byte.x04]]
              (EExec ["ip"; "link"; "add"; "veth01020304"; "type"; "macvlan"; "link";
                      "eth0"; "mode"; "bridge"] (Ok tt))
              []
              (EExec ["ip"; "link"; "set"; "dev"; "veth01020304"; "address";
                      "00:16:3e:aa:bb:cc"] (Err (ErrExternal "exit status 2")))
              [EExec ["ip"; "link"; "del"; "veth01020304"] (Ok tt)])
    as [[err Herr] (e_del & Hafter & Hdel)].
  - reflexivity.
  - right. exists "eth0". reflexivity.
  - left. eauto.
  - injection Hafter as <-. exists err, (EExec ["ip"; "link"; "del"; "veth01020304"] (Ok tt)).
    split; [exact Herr|]. split; [reflexivity|exact Hdel].
Defined.

End LiveProps.

(** ** CPU Balancer: what a load-balanced instance receives *)

Lemma itoa_inj (z z' : Z) : Go.itoa z = Go.itoa z' -> z = z'.
Proof.
  unfold Go.itoa. intros H. apply DecimalZ.to_int_inj.
  assert (Hnn : forall n, Z.to_int n <> Decimal.Pos Decimal.Nil /\
                          Z.to_int n <> Decimal.Neg Decimal.Nil).
  { intros [|q|q]; cbn; split; try discriminate;
      intros [= Hq]; exact (DecimalPos.Unsigned.to_uint_nonnil q Hq). }
  assert (Hrt : forall n, NilZero.int_of_string (NilZero.string_of_int (Z.to_int n))
                          = Some (Z.to_int n)).
  { intros n. apply NilZero.isi; apply Hnn. }
  pose proof (Hrt z) as Hz. rewrite H, Hrt in Hz. congruence.
Qed.

Lemma alloc_lookup_ne (ctn h : nat) (us : list deviceTaskCPU) :
  forall cnt p, ctn <> h -> snd (alloc ctn cnt us p) !! h = p !! h.
Proof.
  induction us as [|cpu rest IH]; intros cnt p Hne; cbn [alloc]; [reflexivity|].
  destruct (cnt =? 0); [reflexivity|].
  specialize (IH (Go.wrap (cnt - 1)) (pin_add ctn (strId cpu) p) Hne).
  destruct (alloc ctn (Go.wrap (cnt - 1)) rest (pin_add ctn (strId cpu) p)) as [r q].
  cbn [snd] in *. rewrite IH. apply pin_add_lookup_ne, Hne.
Qed.

(** The allocation loop only appends to a pinning set. *)
Lemma pin_add_extends (ctn h : nat) (s : string) (p : gmap nat (list string))
    (l0 : list string) :
  p !! h = Some l0 -> exists l, pin_add ctn s p !! h = Some (l0 ++ l).
Proof.
  intros Hl. destruct (decide (ctn = h)) as [->|Hne].
  - rewrite pin_add_lookup, Hl. cbn. eauto.
  - rewrite pin_add_lookup_ne by assumption. exists []. rewrite app_nil_r. exact Hl.
Qed.

Lemma alloc_extends (ctn h : nat) (us : list deviceTaskCPU) :
  forall cnt p l0, p !! h = Some l0 ->
    exists l, snd (alloc ctn cnt us p) !! h = Some (l0 ++ l).
Proof.
  induction us as [|cpu rest IH]; intros cnt p l0 Hl; cbn [alloc].
  - exists []. rewrite app_nil_r. exact Hl.
  - destruct (cnt =? 0); [exists []; rewrite app_nil_r; exact Hl|].
    destruct (pin_add_extends ctn h (strId cpu) p l0 Hl) as [l1 H1].
    destruct (IH (Go.wrap (cnt - 1)) _ _ H1) as [l2 H2].
    destruct (alloc ctn (Go.wrap (cnt - 1)) rest (pin_add ctn (strId cpu) p)) as [r q].
    cbn [snd] in *. exists (l1 ++ l2). rewrite app_assoc. exact H2.
Qed.

Section BalancedStage.
Variable rt : runtime.
Hypothesis Hrt : runtime_ok rt.

Lemma balanced_stage_other (es : list (nat * Z)) (h : nat) :
  forall st, ~ In h (map fst es) ->
    snd (balanced_stage rt es st) !! h = snd st !! h.
Proof.
  induction es as [|[ctn cnt] es IH]; intros st Hnin; [reflexivity|].
  unfold balanced_stage in *. cbn [fold_left]. cbn [map fst] in Hnin.
  rewrite IH by (intros Hin; apply Hnin; right; exact Hin).
  unfold balance_one. apply alloc_lookup_ne. intros ->. apply Hnin. left. reflexivity.
Qed.

Lemma balanced_stage_extends (es : list (nat * Z)) (h : nat) :
  forall st l0, snd st !! h = Some l0 ->
    exists l, snd (balanced_stage rt es st) !! h = Some (l0 ++ l).
Proof.
  induction es as [|[ctn cnt] es IH]; intros st l0 Hl.
  - exists []. rewrite app_nil_r. exact Hl.
  - unfold balanced_stage in *. cbn [fold_left].
    destruct (alloc_extends ctn h (sort_usage rt (fst st)) cnt (snd st) l0 Hl) as [l1 H1].
    destruct (IH (balance_one rt st (ctn, cnt)) (l0 ++ l1) H1) as [l2 H2].
    exists (l1 ++ l2). rewrite app_assoc. exact H2.
Qed.

Lemma balance_one_strIds (st : list deviceTaskCPU * gmap nat (list string)) (e : nat * Z) :
  in_range (snd e) ->
  Permutation (map strId (fst (balance_one rt st e))) (map strId (fst st)).
Proof.
  destruct st as [u p], e as [ctn cnt]. cbn [fst snd]. intros Hc.
  rewrite (balance_one_spec rt Hrt) by assumption. cbn [fst].
  rewrite map_app, map_map. cbn [incr strId].
  rewrite <- (map_app strId), firstn_skipn.
  apply Permutation_map, (sort_usage_perm rt Hrt).
Qed.

(** The instance [h] of the entry [(h, cnt)] ends with the ids of the first
    [taken_len cnt N] entries of the usage slice as sorted for it, and with
    no entry in the pinning map when that is none. *)
Lemma balanced_stage_entry (es : list (nat * Z)) :
  forall st h cnt,
    List.NoDup (map fst es) -> Forall (fun e => in_range (snd e)) es ->
    In (h, cnt) es -> snd st !! h = None ->
    exists ids rest,
      Permutation (ids ++ rest) (map strId (fst st)) /\
      length ids = taken_len cnt (length (fst st)) /\
      snd (balanced_stage rt es st) !! h = match ids with [] => None | _ => Some ids end.
Proof.
  induction es as [|[h' cnt'] es IH]; intros st h cnt Hnd Hr Hin Hnone; [destruct Hin|].
  apply List.NoDup_cons_iff in Hnd. cbn [map fst] in Hnd. destruct Hnd as [Hh' Hnd].
  apply List.Forall_cons_iff in Hr. destruct Hr as [Hc' Hr]. cbn [snd] in Hc'.
  assert (Hlen : length (sort_usage rt (fst st)) = length (fst st)).
  { apply Permutation_length, (sort_usage_perm rt Hrt). }
  destruct Hin as [[= -> ->]|Hin].
  - set (s := sort_usage rt (fst st)). set (j := taken_len cnt (length (fst st))).
    exists (map strId (firstn j s)), (map strId (skipn j s)).
    split; [|split].
    + rewrite <- map_app, firstn_skipn. apply Permutation_map, (sort_usage_perm rt Hrt).
    + rewrite length_map, length_firstn. fold s in Hlen. rewrite Hlen.
      unfold j, taken_len. lia.
    + unfold balanced_stage. cbn [fold_left].
      fold (balanced_stage rt es (balance_one rt st (h, cnt))).
      rewrite balanced_stage_other by assumption.
      destruct st as [u p]. rewrite (balance_one_spec rt Hrt) by assumption.
      cbn [fst snd] in *. fold s j.
      destruct (map strId (firstn j s)) as [|x l] eqn:E; [exact Hnone|].
      rewrite pin_all_lookup by discriminate. rewrite Hnone. reflexivity.
  - assert (Hne : h' <> h).
    { intros ->. apply Hh'. apply in_map_iff. exists (h, cnt). auto. }
    destruct (IH (balance_one rt st (h', cnt')) h cnt Hnd Hr Hin) as (ids & rest & Hp & Hl & He).
    { unfold balance_one. rewrite alloc_lookup_ne by assumption. exact Hnone. }
    exists ids, rest. split; [|split].
    + rewrite Hp. apply (balance_one_strIds st (h', cnt')). exact Hc'.
    + rewrite Hl. f_equal.
      apply Permutation_length in Hp.
      pose proof (Permutation_length (balance_one_strIds st (h', cnt') Hc')) as Hp'.
      rewrite !length_map in Hp'. exact Hp'.
    + exact He.
Qed.

End BalancedStage.

(** ** CPU Balancer: what classification records *)

Lemma fixed_from_refl (cpus : list Z) (c : nat) (f : gmap Z (list nat)) :
  fixed_from cpus c f f.
Proof. intros j l H. split; [right; eauto|]. intros k Hk. right. eauto. Qed.

Lemma fixed_from_trans (cpus : list Z) (c : nat) (f1 f2 f3 : gmap Z (list nat)) :
  fixed_from cpus c f1 f2 -> fixed_from cpus c f2 f3 -> fixed_from cpus c f1 f3.
Proof.
  intros H12 H23 j l Hl. destruct (H23 j l Hl) as [Hon Hmem]. split.
  - destruct Hon as [Hon|[l2 Hl2]]; [left; exact Hon|]. apply (H12 j l2 Hl2).
  - intros k Hk. destruct (Hmem k Hk) as [->|(l2 & Hl2 & Hk2)]; [left; reflexivity|].
    apply (H12 j l2 Hl2). exact Hk2.
Qed.

Lemma fixed_add_from (cpus : list Z) (c : nat) (i : Z) (f : gmap Z (list nat)) :
  Go.IntInSlice i cpus = true -> fixed_from cpus c f (fixed_add i c f).
Proof.
  intros Hon j l. unfold fixed_add.
  destruct (f !! i) as [l0|] eqn:E0.
  - destruct (decide (i = j)) as [<-|Hne].
    + rewrite lookup_insert_eq. intros [= <-]. split; [left; exact Hon|].
      intros k Hk. apply in_app_or in Hk. destruct Hk as [Hk|[<-|[]]]; [right; eauto|left; reflexivity].
    + rewrite lookup_insert_ne by assumption. intros Hl. apply (fixed_from_refl cpus c f j l Hl).
  - destruct (decide (i = j)) as [<-|Hne].
    + rewrite lookup_insert_eq. intros [= <-]. split; [left; exact Hon|].
      intros k [<-|[]]. left. reflexivity.
    + rewrite lookup_insert_ne by assumption. intros Hl. apply (fixed_from_refl cpus c f j l Hl).
Qed.

Lemma pin_range_from (cpus : list Z) (c : nat) (low high : Z) (f f' : gmap Z (list nat)) :
  pin_range cpus c low high f = Done f' -> fixed_from cpus c f f'.
Proof.
  unfold pin_range. destruct (high =? Go.max_int); [discriminate|]. intros [= <-].
  generalize (seqZ low (high - low + 1)). intros l. revert f.
  induction l as [|i l IH]; intros f; cbn [fold_left]; [apply fixed_from_refl|].
  eapply fixed_from_trans; [|apply IH].
  destruct (Go.IntInSlice i cpus) eqn:Hon; cbn [negb];
    [apply fixed_add_from, Hon|apply fixed_from_refl].
Qed.

Lemma pin_chunk_from (cpus : list Z) (c : nat) (chunk : string) (f f' : gmap Z (list nat)) :
  pin_chunk cpus c chunk f = Done f' -> fixed_from cpus c f f'.
Proof.
  unfold pin_chunk. destruct (Go.Contains chunk "-").
  - destruct (Go.SplitN2 chunk "-") as [|f0 [|f1 [|? ?]]];
      try (intros [= <-]; apply fixed_from_refl).
    destruct (Go.Atoi f0); [|intros [= <-]; apply fixed_from_refl].
    destruct (Go.Atoi f1); [|intros [= <-]; apply fixed_from_refl].
    apply pin_range_from.
  - destruct (Go.Atoi chunk) as [nr|]; [|intros [= <-]; apply fixed_from_refl].
    destruct (Go.IntInSlice nr cpus) eqn:Hon; cbn [negb]; intros [= <-];
      [apply fixed_add_from, Hon|apply fixed_from_refl].
Qed.

Lemma pin_chunks_from (cpus : list Z) (c : nat) (chunks : list string) :
  forall f f', pin_chunks cpus c chunks f = Done f' -> fixed_from cpus c f f'.
Proof.
  induction chunks as [|chunk rest IH]; intros f f'; cbn [pin_chunks].
  - intros [= <-]. apply fixed_from_refl.
  - destruct (pin_chunk cpus c chunk f) as [f1| |] eqn:E1; cbn; try discriminate.
    intros E. eapply fixed_from_trans; [eapply pin_chunk_from; exact E1|apply IH, E].
Qed.

(** Classification does not panic. *)
Lemma pin_chunks_no_panic (cpus : list Z) (c : nat) (chunks : list string) :
  forall f, pin_chunks cpus c chunks f <> Panic.
Proof.
  induction chunks as [|chunk rest IH]; intros f; cbn [pin_chunks]; [discriminate|].
  assert (H1 : pin_chunk cpus c chunk f <> Panic).
  { unfold pin_chunk, pin_range.
    repeat match goal with
           | |- context [ match ?x with _ => _ end ] => destruct x
           end; discriminate. }
  destruct (pin_chunk cpus c chunk f) as [f1| |]; cbn; [apply IH|contradiction|discriminate].
Qed.

Lemma classify_one_spec (cpus : list Z) (h : nat) (c : container)
    (f f1 : gmap Z (list nat)) (b b1 : gmap nat Z) :
  classify_one cpus h c (f, b) = Done (f1, b1) ->
  (IsRunning c = false /\ f1 = f /\ b1 = b) \/
  (IsRunning c = true /\ exists n, Go.Atoi (limits_cpu cpus c) = Ok n /\ f1 = f /\
     b1 = <[h := min n (Z.of_nat (length cpus))]> b) \/
  (IsRunning c = true /\ exists e, Go.Atoi (limits_cpu cpus c) = Err e /\ b1 = b /\
     fixed_from cpus h f f1).
Proof.
  unfold classify_one. destruct (IsRunning c); cbn [negb].
  - destruct (Go.Atoi (limits_cpu cpus c)) as [n|e] eqn:E.
    + intros [= <- <-]. right. left. eauto.
    + destruct (pin_chunks cpus h (Go.Split (limits_cpu cpus c) ",") f) as [f'| |] eqn:Ep;
        cbn; try discriminate.
      intros [= <- <-]. right. right. split; [reflexivity|]. exists e.
      split; [reflexivity|]. split; [reflexivity|]. eapply pin_chunks_from, Ep.
  - intros [= <- <-]. left. auto.
Qed.

Lemma classify_from_spec (cpus : list Z) (cs : list container) :
  forall (h0 : nat) (f f' : gmap Z (list nat)) (b b' : gmap nat Z),
    classify_from cpus h0 cs (f, b) = Done (f', b') ->
    (forall k, (k < h0)%nat -> b' !! k = b !! k) /\
    (forall i c n, nth_error cs i = Some c -> IsRunning c = true ->
       Go.Atoi (limits_cpu cpus c) = Ok n ->
       b' !! (h0 + i)%nat = Some (min n (Z.of_nat (length cpus)))) /\
    (forall j l, f' !! j = Some l ->
       (Go.IntInSlice j cpus = true \/ is_Some (f !! j)) /\
       forall k, In k l ->
         (exists l0, f !! j = Some l0 /\ In k l0) \/
         (exists c e, (h0 <= k)%nat /\ nth_error cs (k - h0) = Some c /\
            IsRunning c = true /\ Go.Atoi (limits_cpu cpus c) = Err e)).
Proof.
  induction cs as [|c cs IH]; intros h0 f f' b b'; cbn [classify_from].
  - intros [= <- <-]. split; [auto|]. split.
    + intros [|i] ? ? Hn; discriminate Hn.
    + intros j l Hl. split; [right; eauto|]. intros k Hk. left. eauto.
  - destruct (classify_one cpus h0 c (f, b)) as [[f1 b1]| |] eqn:E1; cbn; try discriminate.
    intros E. destruct (IH (S h0) f1 f' b1 b' E) as (Hframe & Hpres & Hfix).
    apply classify_one_spec in E1.
    assert (Hb1 : forall k, k <> h0 -> b1 !! k = b !! k).
    { intros k Hk. destruct E1 as [(_ & _ & ->)|[(_ & n & _ & _ & ->)|(_ & e & _ & -> & _)]];
        try reflexivity. apply lookup_insert_ne. congruence. }
    split; [|split].
    + intros k Hk. rewrite Hframe by lia. apply Hb1. lia.
    + intros [|i] c' n Hn Hrun Hat.
      * cbn in Hn. injection Hn as <-. rewrite Nat.add_0_r, Hframe by lia.
        destruct E1 as [(Hr & _)|[(_ & n' & Hn' & _ & ->)|(_ & e & He & _)]]; try congruence.
        rewrite lookup_insert_eq. congruence.
      * cbn in Hn. replace (h0 + S i)%nat with (S h0 + i)%nat by lia.
        eapply Hpres; eassumption.
    + assert (Hf1 : fixed_from cpus h0 f f1 /\
                    (f1 = f \/ (IsRunning c = true /\
                                exists e, Go.Atoi (limits_cpu cpus c) = Err e))).
      { destruct E1 as [(_ & -> & _)|[(_ & n & _ & -> & _)|(Hr & e & He & _ & Hff)]].
        - split; [apply fixed_from_refl|left; reflexivity].
        - split; [apply fixed_from_refl|left; reflexivity].
        - split; [exact Hff|right; eauto]. }
      destruct Hf1 as [Hff Hcase].
      intros j l Hl. destruct (Hfix j l Hl) as [Hon Hmem]. split.
      * destruct Hon as [Hon|[l1 Hl1]]; [left; exact Hon|]. apply (Hff j l1 Hl1).
      * intros k Hk. destruct (Hmem k Hk) as [(l1 & Hl1 & Hk1)|(c' & e & Hle & Hn & Hr & He)].
        -- destruct Hcase as [->|(Hr & e & He)]; [left; eauto|].
           destruct (proj2 (Hff j l1 Hl1) k Hk1) as [->|Hold]; [|left; exact Hold].
           right. exists c, e. rewrite Nat.sub_diag. cbn. auto.
        -- right. exists c', e. split; [lia|]. split; [|auto].
           replace (k - h0)%nat with (S (k - S h0)) by lia. exact Hn.
Qed.

(** ** CPU Balancer: the fixed stage *)

Lemma map_alter_incr {B : Type} (g : deviceTaskCPU -> B) (w : list deviceTaskCPU) :
  (forall c, g (incr c) = g c) -> forall i, map g (alter incr i w) = map g w.
Proof.
  intros Hg. induction w as [|c w IHw]; intros [|i']; cbn; try reflexivity.
  - rewrite Hg. reflexivity.
  - f_equal. apply IHw.
Qed.

Lemma nth_error_same_strId (a b : list deviceTaskCPU) :
  map strId a = map strId b ->
  forall k x, nth_error a k = Some x ->
    exists y, nth_error b k = Some y /\ strId y = strId x.
Proof.
  revert b. induction a as [|a0 a IHa]; intros [|b0 b] Hs [|k] x Hx;
    cbn in *; try discriminate.
  - injection Hx as <-. injection Hs as Hs0 _. eauto.
  - injection Hs as _ Hs. eapply IHa; eassumption.
Qed.

Lemma fixed_fold_spec (i : nat) (sid : string) (ctns : list nat) :
  forall (u : list deviceTaskCPU) (p : gmap nat (list string)),
    exists u',
      fold_left (fun '(usage, pinning) ctn => (alter incr i usage, pin_add ctn sid pinning))
        ctns (u, p) = (u', pin_many ctns sid p) /\
      map strId u' = map strId u /\ map id u' = map id u.
Proof.
  induction ctns as [|ctn ctns IH]; intros u p; cbn [fold_left].
  - exists u. auto.
  - destruct (IH (alter incr i u) (pin_add ctn sid p)) as (u' & E & Hs & Hi).
    exists u'. split; [exact E|].
    split; [rewrite Hs|rewrite Hi]; apply map_alter_incr; reflexivity.
Qed.

Lemma pin_many_extends (ctns : list nat) (sid : string) (h : nat) :
  forall p l0, p !! h = Some l0 -> exists l, pin_many ctns sid p !! h = Some (l0 ++ l).
Proof.
  induction ctns as [|ctn ctns IH]; intros p l0 Hl.
  - exists []. rewrite app_nil_r. exact Hl.
  - unfold pin_many in *. cbn [fold_left].
    destruct (pin_add_extends ctn h sid p l0 Hl) as [l1 H1].
    destruct (IH _ _ H1) as [l2 H2]. exists (l1 ++ l2). rewrite app_assoc. exact H2.
Qed.

Lemma pin_many_member (ctns : list nat) (sid : string) (h : nat) :
  forall p, In h ctns -> exists set, pin_many ctns sid p !! h = Some set /\ In sid set.
Proof.
  induction ctns as [|ctn ctns IH]; intros p Hin; [destruct Hin|].
  unfold pin_many in *. cbn [fold_left]. destruct Hin as [->|Hin].
  - destruct (pin_many_extends ctns sid h (pin_add h sid p) _ (pin_add_lookup h sid p))
      as [l Hl].
    unfold pin_many in Hl. eexists. split; [exact Hl|].
    apply in_or_app. left. apply in_or_app. right. left. reflexivity.
  - apply IH, Hin.
Qed.

Lemma pin_many_dom (ctns : list nat) (sid : string) (h : nat) :
  forall p, is_Some (pin_many ctns sid p !! h) -> is_Some (p !! h) \/ In h ctns.
Proof.
  induction ctns as [|ctn ctns IH]; intros p Hs; [left; exact Hs|].
  unfold pin_many in *. cbn [fold_left] in Hs. apply IH in Hs.
  destruct Hs as [Hs|Hs]; [|right; right; exact Hs].
  destruct (decide (ctn = h)) as [->|Hne]; [right; left; reflexivity|].
  rewrite pin_add_lookup_ne in Hs by assumption. left. exact Hs.
Qed.

Lemma index_spec {A : Type} (l : list A) (i : Z) :
  (0 <= i < Z.of_nat (length l) /\
     exists x, nth_error l (Z.to_nat i) = Some x /\ Go.index l i = Done x) \/
  (~ (0 <= i < Z.of_nat (length l)) /\ Go.index l i = Panic).
Proof.
  unfold Go.index.
  destruct (Z.leb_spec 0 i), (Z.ltb_spec i (Z.of_nat (length l))); cbn [andb];
    try (right; split; [lia|reflexivity]).
  left. split; [lia|].
  destruct (nth_error l (Z.to_nat i)) as [x|] eqn:E; [eauto|].
  apply nth_error_None in E. lia.
Qed.

Lemma fixed_one_spec (st : list deviceTaskCPU * gmap nat (list string))
    (cpu : Z) (ctns : list nat) :
  (0 <= cpu < Z.of_nat (length (fst st)) /\
     exists entry u',
       nth_error (fst st) (Z.to_nat cpu) = Some entry /\
       fixed_one st (cpu, ctns) = Done (u', pin_many ctns (strId entry) (snd st)) /\
       map strId u' = map strId (fst st) /\ map id u' = map id (fst st)) \/
  (~ (0 <= cpu < Z.of_nat (length (fst st))) /\ fixed_one st (cpu, ctns) = Panic).
Proof.
  unfold fixed_one.
  destruct (index_spec (fst st) cpu) as [(Hr & entry & Hn & ->)|(Hr & ->)];
    [left|right; split; [exact Hr|reflexivity]].
  split; [exact Hr|]. destruct st as [u p]. cbn [fst snd] in *.
  destruct (fixed_fold_spec (Z.to_nat cpu) (strId entry) ctns u p) as (u' & E & Hs & Hi).
  exists entry, u'. cbn. rewrite E. auto.
Qed.

Lemma fixed_stage_spec (es : list (Z * list nat)) :
  forall st,
    (Forall (fun e => 0 <= fst e < Z.of_nat (length (fst st))) es /\
       exists st',
         fixed_stage es st = Done st' /\
         map strId (fst st') = map strId (fst st) /\ map id (fst st') = map id (fst st) /\
         (forall h l0, snd st !! h = Some l0 -> exists l, snd st' !! h = Some (l0 ++ l)) /\
         (forall h, is_Some (snd st' !! h) ->
            is_Some (snd st !! h) \/ exists cpu l, In (cpu, l) es /\ In h l) /\
         (forall cpu l h, In (cpu, l) es -> In h l ->
            exists entry set,
              nth_error (fst st) (Z.to_nat cpu) = Some entry /\
              snd st' !! h = Some set /\ In (strId entry) set)) \/
    (Exists (fun e => ~ (0 <= fst e < Z.of_nat (length (fst st)))) es /\
       fixed_stage es st = Panic).
Proof.
  induction es as [|[cpu ctns] es IH]; intros st.
  - left. split; [constructor|]. exists st. cbn. split; [reflexivity|].
    split; [reflexivity|]. split; [reflexivity|]. split.
    + intros h l0 Hl. exists []. rewrite app_nil_r. exact Hl.
    + split; [auto|]. intros ? ? ? [].
  - cbn [fixed_stage].
    destruct (fixed_one_spec st cpu ctns) as [(Hr & entry & u' & Hn & -> & Hs & Hi)|(Hr & ->)].
    2:{ right. split; [left; exact Hr|reflexivity]. }
    cbn [mbind outcome_bind Go.obind].
    assert (Hlen : length u' = length (fst st)).
    { rewrite <- (length_map strId u'), Hs, length_map. reflexivity. }
    specialize (IH (u', pin_many ctns (strId entry) (snd st))). cbn [fst snd] in IH.
    rewrite Hlen in IH.
    destruct IH as [(Hall & st' & -> & Hs' & Hi' & Hext & Hdom & Hmem)|(Hex & ->)].
    2:{ right. split; [right; exact Hex|reflexivity]. }
    left. split; [constructor; assumption|]. exists st'. split; [reflexivity|].
    split; [congruence|]. split; [congruence|]. split; [|split].
    + intros h l0 Hl.
      destruct (pin_many_extends ctns (strId entry) h _ _ Hl) as [l1 H1].
      destruct (Hext h _ H1) as [l2 H2]. exists (l1 ++ l2). rewrite app_assoc. exact H2.
    + intros h Hsome. destruct (Hdom h Hsome) as [H1|(cpu' & l & Hin & Hh)].
      * apply pin_many_dom in H1. destruct H1 as [H1|H1]; [left; exact H1|].
        right. exists cpu, ctns. split; [left; reflexivity|exact H1].
      * right. exists cpu', l. split; [right; exact Hin|exact Hh].
    + intros cpu' l h [[= <- <-]|Hin] Hh.
      * destruct (pin_many_member ctns (strId entry) h (snd st) Hh) as (set & Hset & Hsid).
        destruct (Hext h set Hset) as [l' Hl'].
        exists entry, (set ++ l'). split; [exact Hn|]. split; [exact Hl'|].
        apply in_or_app. left. exact Hsid.
      * destruct (Hmem cpu' l h Hin Hh) as (entry' & set & Hn' & Hset & Hsid).
        destruct (nth_error_same_strId _ _ Hs _ _ Hn') as (y & Hy & Hsy).
        exists y, set. rewrite Hsy. auto.
Qed.

(** ** CPU Balancer: a whole pass *)

Lemma IntInSlice_In (key : Z) (l : list Z) : Go.IntInSlice key l = true <-> In key l.
Proof.
  unfold Go.IntInSlice. rewrite existsb_exists. split.
  - intros (x & Hx & E). apply Z.eqb_eq in E. congruence.
  - intros H. exists key. split; [exact H|apply Z.eqb_refl].
Qed.

Lemma classify_from_values (cpus : list Z) (cs : list container) :
  forall h0 f f' b b',
    classify_from cpus h0 cs (f, b) = Done (f', b') ->
    map_Forall (fun _ v => in_range v) b -> map_Forall (fun _ v => in_range v) b'.
Proof.
  induction cs as [|c cs IH]; intros h0 f f' b b'; cbn [classify_from].
  - intros [= <- <-]. auto.
  - destruct (classify_one cpus h0 c (f, b)) as [[f1 b1]| |] eqn:E1; cbn; try discriminate.
    intros E Hb. apply (IH _ _ _ _ _ E).
    apply classify_one_spec in E1.
    destruct E1 as [(_ & _ & ->)|[(_ & n & Hn & _ & ->)|(_ & e & _ & -> & _)]]; try exact Hb.
    apply map_Forall_insert_2; [|exact Hb].
    apply min_in_range; [eapply Atoi_in_range; exact Hn|lia].
Qed.

Lemma classify_from_no_panic (cpus : list Z) (cs : list container) :
  forall h0 st, classify_from cpus h0 cs st <> Panic.
Proof.
  induction cs as [|c cs IH]; intros h0 [f b]; cbn [classify_from]; [discriminate|].
  assert (H1 : classify_one cpus h0 c (f, b) <> Panic).
  { unfold classify_one. destruct (negb (IsRunning c)); [discriminate|].
    destruct (Go.Atoi (limits_cpu cpus c)); [discriminate|].
    pose proof (pin_chunks_no_panic cpus h0 (Go.Split (limits_cpu cpus c) ",") f) as Hp.
    destruct (pin_chunks cpus h0 (Go.Split (limits_cpu cpus c) ",") f); cbn;
      [discriminate|contradiction|discriminate]. }
  destruct (classify_one cpus h0 c (f, b)) as [st1| |]; cbn;
    [apply IH|contradiction|discriminate].
Qed.

Section Pass.
Variable rt : runtime.
Hypothesis Hrt : runtime_ok rt.
Variable cpus : list Z.
Variable containers : list container.

Let N : Z := Z.of_nat (length cpus).

Lemma range_fixed_In (f : gmap Z (list nat)) (cpu : Z) (l : list nat) :
  In (cpu, l) (range_fixed rt f) <-> f !! cpu = Some l.
Proof.
  split; intros H.
  - apply elem_of_map_to_list, list_elem_of_In.
    eapply Permutation_in; [apply (range_fixed_perm rt Hrt)|exact H].
  - apply elem_of_map_to_list, list_elem_of_In in H.
    eapply Permutation_in; [symmetry; apply (range_fixed_perm rt Hrt)|exact H].
Qed.

Lemma range_balanced_In (b : gmap nat Z) (h : nat) (cnt : Z) :
  In (h, cnt) (range_balanced rt b) <-> b !! h = Some cnt.
Proof.
  split; intros H.
  - apply elem_of_map_to_list, list_elem_of_In.
    eapply Permutation_in; [apply (range_balanced_perm rt Hrt)|exact H].
  - apply elem_of_map_to_list, list_elem_of_In in H.
    eapply Permutation_in; [symmetry; apply (range_balanced_perm rt Hrt)|exact H].
Qed.

Lemma range_balanced_NoDup (b : gmap nat Z) : List.NoDup (map fst (range_balanced rt b)).
Proof.
  eapply Permutation_NoDup.
  - apply Permutation_map. symmetry. apply (range_balanced_perm rt Hrt).
  - apply NoDup_ListNoDup, NoDup_fst_map_to_list.
Qed.

Lemma usage_init_length : length (usage_init cpus) = length cpus.
Proof. unfold usage_init. apply length_map. Qed.

Lemma usage_init_strId : map strId (usage_init cpus) = map Go.itoa cpus.
Proof. unfold usage_init. rewrite map_map. reflexivity. Qed.

Lemma usage_init_nth (k : nat) (entry : deviceTaskCPU) :
  nth_error (usage_init cpus) k = Some entry ->
  exists i, nth_error cpus k = Some i /\ strId entry = Go.itoa i /\ id entry = i.
Proof.
  unfold usage_init. rewrite nth_error_map.
  destruct (nth_error cpus k) as [i|]; cbn; [|discriminate].
  intros [= <-]. eauto.
Qed.

(** Once classification has finished, the pass panics exactly when a CPU
    id recorded in [fixedContainers] is not a valid index of the usage
    slice, and runs to its end otherwise. *)
Lemma pass_outcome (f : gmap Z (list nat)) (b : gmap nat Z) :
  classify cpus containers = Done (f, b) ->
  ((forall j, is_Some (f !! j) -> 0 <= j < N) /\
     exists p, deviceTaskBalance rt cpus containers = Done p) \/
  ((exists j, is_Some (f !! j) /\ ~ (0 <= j < N)) /\
     deviceTaskBalance rt cpus containers = Panic).
Proof.
  intros Hc. unfold deviceTaskBalance. rewrite Hc. cbn [mbind outcome_bind Go.obind].
  destruct (fixed_stage_spec (range_fixed rt f) (usage_init cpus, ∅))
    as [(Hall & st' & -> & _)|(Hex & ->)]; cbn [fst snd mbind outcome_bind Go.obind] in *.
  - left. split.
    + intros j [l Hl]. apply range_fixed_In in Hl.
      rewrite List.Forall_forall in Hall. specialize (Hall _ Hl). cbn in Hall.
      rewrite usage_init_length in Hall. exact Hall.
    + destruct (balanced_stage rt (range_balanced rt b) st'). eauto.
  - right. split; [|reflexivity].
    apply List.Exists_exists in Hex. destruct Hex as ([j l] & Hin & Hr).
    apply range_fixed_In in Hin. cbn in Hr. rewrite usage_init_length in Hr.
    exists j. split; [eauto|exact Hr].
Qed.

(** In a pass that runs to its end, a running instance whose limit parses
    as the integer [n] holds distinct ids of online CPUs: [min n N] of them
    when [n] is not negative, all of them when it is. *)
Lemma balanced_instance_served (p : pass) (h : nat) (c : container) (n : Z) :
  List.NoDup cpus ->
  deviceTaskBalance rt cpus containers = Done p ->
  nth_error containers h = Some c -> IsRunning c = true ->
  Go.Atoi (limits_cpu cpus c) = Ok n ->
  exists ids,
    pinning p !! h = match ids with [] => None | _ => Some ids end /\
    List.NoDup ids /\
    (forall s, In s ids -> exists i, In i cpus /\ s = Go.itoa i) /\
    (0 <= n -> Z.of_nat (length ids) = Z.min n N) /\
    (n < 0 -> N <= Go.max_int -> Permutation ids (map Go.itoa cpus)).
Proof.
  intros Hnd Hrun Hh Hr Hn.
  destruct (deviceTaskBalance_done _ _ _ _ Hrun) as (f & b & st & Hc & Hf & Hb & _).
  unfold classify in Hc.
  pose proof (classify_from_values _ _ _ _ _ _ _ Hc (map_Forall_empty _)) as Hval.
  destruct (classify_from_spec _ _ _ _ _ _ _ Hc) as (_ & Hpres & Hfix).
  specialize (Hpres h c n Hh Hr Hn). cbn [Nat.add] in Hpres.
  set (cnt := min n (Z.of_nat (length cpus))) in *.
  assert (Hcnt : in_range cnt) by exact (Hval h cnt Hpres).
  destruct (fixed_stage_spec (range_fixed rt f) (usage_init cpus, ∅))
    as [(_ & st' & Hf' & Hs & _ & _ & Hdom & _)|(_ & Hp)]; [|congruence].
  rewrite Hf in Hf'. injection Hf' as <-. cbn [fst snd] in *.
  assert (Hnone : snd st !! h = None).
  { destruct (snd st !! h) as [l|] eqn:E; [|reflexivity]. exfalso.
    destruct (Hdom h (ltac:(eauto))) as [[? Hs0]|(cpu & l' & Hin & Hh')].
    - rewrite lookup_empty in Hs0. discriminate.
    - apply range_fixed_In in Hin.
      destruct (proj2 (Hfix cpu l' Hin) h Hh') as [(l0 & Hl0 & _)|(c' & e & _ & Hc' & _ & He)].
      + rewrite lookup_empty in Hl0. discriminate.
      + rewrite Nat.sub_0_r in Hc'. congruence. }
  destruct (balanced_stage_entry rt Hrt (range_balanced rt b) st h cnt)
    as (ids & rest & Hperm & Hlen & Hpin).
  { apply range_balanced_NoDup. }
  { apply List.Forall_forall. intros [h' v] Hin. apply range_balanced_In in Hin.
    exact (Hval h' v Hin). }
  { apply range_balanced_In, Hpres. }
  { exact Hnone. }
  rewrite Hb in Hpin. cbn [snd] in Hpin.
  rewrite Hs, usage_init_strId in Hperm.
  assert (HlenN : length (fst st) = length cpus).
  { rewrite <- (length_map strId), Hs, usage_init_strId, length_map. reflexivity. }
  rewrite HlenN in Hlen.
  assert (Hnd' : List.NoDup (ids ++ rest)).
  { eapply Permutation_NoDup; [symmetry; exact Hperm|].
    apply Finite.Injective_map_NoDup; [|exact Hnd]. intros x y. apply itoa_inj. }
  exists ids. split; [exact Hpin|]. split; [|split; [|split]].
  - apply List.NoDup_app_remove_r in Hnd'. exact Hnd'.
  - intros s Hs'. assert (Hin : In s (map Go.itoa cpus)).
    { eapply Permutation_in; [exact Hperm|]. apply in_or_app. left. exact Hs'. }
    apply in_map_iff in Hin. destruct Hin as (i & <- & Hi). eauto.
  - intros H0. unfold cnt in *. rewrite min_spec in *.
    rewrite Hlen, taken_len_nonneg by (assumption || lia). unfold N. lia.
  - intros Hneg HN. unfold cnt in *. rewrite min_spec in *.
    rewrite taken_len_neg in Hlen by (assumption || lia).
    assert (Hrest : rest = []).
    { apply Permutation_length in Hperm. rewrite length_app, length_map in Hperm.
      destruct rest; [reflexivity|]. cbn in Hperm. lia. }
    subst rest. rewrite app_nil_r in Hperm. exact Hperm.
Qed.

(** In a pass that runs to its end, a fixed assignment of the instance [h]
    to the CPU id [cpu] puts in its set the id of the CPU that stands at
    position [cpu] among the online CPUs. *)
Lemma fixed_pin_by_position (p : pass) (f : gmap Z (list nat)) (b : gmap nat Z)
    (cpu : Z) (l : list nat) (h : nat) :
  classify cpus containers = Done (f, b) ->
  deviceTaskBalance rt cpus containers = Done p ->
  f !! cpu = Some l -> In h l ->
  0 <= cpu /\ In cpu cpus /\
  exists i set, nth_error cpus (Z.to_nat cpu) = Some i /\
    pinning p !! h = Some set /\ In (Go.itoa i) set.
Proof.
  intros Hc Hrun Hl Hh.
  destruct (deviceTaskBalance_done _ _ _ _ Hrun) as (f' & b' & st & Hc' & Hf & Hb & _).
  rewrite Hc in Hc'. injection Hc' as <- <-.
  destruct (fixed_stage_spec (range_fixed rt f) (usage_init cpus, ∅))
    as [(Hall & st' & Hf' & _ & _ & _ & _ & Hmem)|(_ & Hp)]; [|congruence].
  rewrite Hf in Hf'. injection Hf' as <-. cbn [fst snd] in *.
  assert (Hin : In (cpu, l) (range_fixed rt f)) by (apply range_fixed_In, Hl).
  rewrite List.Forall_forall in Hall. specialize (Hall _ Hin). cbn in Hall.
  destruct (Hmem cpu l h Hin Hh) as (entry & set & Hn & Hset & Hsid).
  destruct (usage_init_nth _ _ Hn) as (i & Hi & Hsi & _).
  destruct (balanced_stage_extends rt (range_balanced rt b) h st set Hset) as [l' Hl'].
  rewrite Hb in Hl'. cbn [snd] in Hl'.
  split; [lia|]. split.
  - unfold classify in Hc. destruct (classify_from_spec _ _ _ _ _ _ _ Hc) as (_ & _ & Hfix).
    destruct (proj1 (Hfix cpu l Hl)) as [Hon|[? Hs0]].
    + apply IntInSlice_In, Hon.
    + rewrite lookup_empty in Hs0. discriminate.
  - exists i, (set ++ l'). split; [exact Hi|]. split; [exact Hl'|].
    apply in_or_app. left. rewrite <- Hsi. exact Hsid.
Qed.

End Pass.

(** ** CPU Balancer: the ids a pinning expression names are recorded *)

Lemma grows_refl (f : gmap Z (list nat)) : grows f f.
Proof. intros j l0 k Hl Hk. eauto. Qed.

Lemma grows_trans (f1 f2 f3 : gmap Z (list nat)) : grows f1 f2 -> grows f2 f3 -> grows f1 f3.
Proof.
  intros H12 H23 j l0 k Hl Hk. destruct (H12 j l0 k Hl Hk) as (l & Hl2 & Hk2).
  exact (H23 j l k Hl2 Hk2).
Qed.

Lemma fixed_add_grows (i : Z) (c : nat) (f : gmap Z (list nat)) : grows f (fixed_add i c f).
Proof.
  intros j l0 k Hl Hk. unfold fixed_add.
  destruct (decide (i = j)) as [->|Hne].
  - rewrite Hl, lookup_insert_eq. eexists. split; [reflexivity|].
    apply in_or_app. left. exact Hk.
  - destruct (f !! i); rewrite lookup_insert_ne by assumption; eauto.
Qed.

Lemma fixed_add_records (i : Z) (c : nat) (f : gmap Z (list nat)) :
  exists l, fixed_add i c f !! i = Some l /\ In c l.
Proof.
  unfold fixed_add. destruct (f !! i) as [l0|]; rewrite lookup_insert_eq;
    eexists; (split; [reflexivity|]).
  - apply in_or_app. right. left. reflexivity.
  - left. reflexivity.
Qed.

Lemma pin_fold_records (cpus : list Z) (c : nat) (ids : list Z) :
  forall f,
    let f' := fold_left
                (fun f i => if negb (Go.IntInSlice i cpus) then f else fixed_add i c f)
                ids f in
    grows f f' /\
    forall i, In i ids -> In i cpus -> exists l, f' !! i = Some l /\ In c l.
Proof.
  induction ids as [|i0 ids IH]; intros f; cbn [fold_left].
  - split; [apply grows_refl|]. intros i [].
  - set (f1 := if negb (Go.IntInSlice i0 cpus) then f else fixed_add i0 c f).
    destruct (IH f1) as [Hg Hrec].
    assert (Hg1 : grows f f1).
    { unfold f1. destruct (negb _); [apply grows_refl|apply fixed_add_grows]. }
    split; [eapply grows_trans; eassumption|].
    intros i [<-|Hin] Hon; [|apply Hrec; assumption].
    assert (Hon' : Go.IntInSlice i0 cpus = true) by (apply IntInSlice_In, Hon).
    destruct (fixed_add_records i0 c f) as (l & Hl & Hc).
    apply (Hg i0 l c); [|exact Hc]. unfold f1. rewrite Hon'. exact Hl.
Qed.

Lemma pin_chunk_records (cpus : list Z) (c : nat) (chunk : string) (f f' : gmap Z (list nat)) :
  pin_chunk cpus c chunk f = Done f' ->
  grows f f' /\
  forall i, chunk_names chunk i -> In i cpus -> exists l, f' !! i = Some l /\ In c l.
Proof.
  unfold pin_chunk, chunk_names. destruct (Go.Contains chunk "-") eqn:Ec.
  - destruct (Go.SplitN2 chunk "-") as [|f0 [|f1 [|? ?]]] eqn:Es;
      try (intros [= <-]; split; [apply grows_refl|];
           intros i [[? _]|(_ & a & b & low & high & Hs & _)]; discriminate).
    destruct (Go.Atoi f0) as [low|] eqn:E0.
    2:{ intros [= <-]. split; [apply grows_refl|].
        intros i [[? _]|(_ & a & b & lo & hi & Hs & Ha & _)]; [discriminate|].
        injection Hs as <- <-. congruence. }
    destruct (Go.Atoi f1) as [high|] eqn:E1.
    2:{ intros [= <-]. split; [apply grows_refl|].
        intros i [[? _]|(_ & a & b & lo & hi & Hs & _ & Hb & _)]; [discriminate|].
        injection Hs as <- <-. congruence. }
    unfold pin_range. destruct (high =? Go.max_int); [discriminate|]. intros [= <-].
    destruct (pin_fold_records cpus c (seqZ low (high - low + 1)) f) as [Hg Hrec].
    split; [exact Hg|].
    intros i [[? _]|(_ & a & b & lo & hi & Hs & Ha & Hb & Hi)] Hon; [discriminate|].
    injection Hs as <- <-. rewrite E0 in Ha. rewrite E1 in Hb.
    injection Ha as <-. injection Hb as <-.
    apply Hrec; [|exact Hon]. apply list_elem_of_In, elem_of_seqZ. lia.
  - destruct (Go.Atoi chunk) as [nr|] eqn:En.
    2:{ intros [= <-]. split; [apply grows_refl|].
        intros i [[_ ?]|[? _]]; discriminate. }
    destruct (Go.IntInSlice nr cpus) eqn:Hon; cbn [negb]; intros [= <-].
    + split; [apply fixed_add_grows|].
      intros i [[_ [= <-]]|[? _]] _; [|discriminate]. apply fixed_add_records.
    + split; [apply grows_refl|].
      intros i [[_ [= <-]]|[? _]] Hin; [|discriminate].
      apply IntInSlice_In in Hin. congruence.
Qed.

Lemma pin_chunks_records (cpus : list Z) (c : nat) (chunks : list string) :
  forall f f', pin_chunks cpus c chunks f = Done f' ->
    grows f f' /\
    forall chunk i, In chunk chunks -> chunk_names chunk i -> In i cpus ->
      exists l, f' !! i = Some l /\ In c l.
Proof.
  induction chunks as [|chunk0 rest IH]; intros f f'; cbn [pin_chunks].
  - intros [= <-]. split; [apply grows_refl|]. intros ? ? [].
  - destruct (pin_chunk cpus c chunk0 f) as [f1| |] eqn:E1; cbn; try discriminate.
    intros E. destruct (pin_chunk_records _ _ _ _ _ E1) as [Hg1 Hrec1].
    destruct (IH _ _ E) as [Hg Hrec].
    split; [eapply grows_trans; eassumption|].
    intros chunk i [<-|Hin] Hnm Hon.
    + destruct (Hrec1 i Hnm Hon) as (l & Hl & Hc). exact (Hg i l c Hl Hc).
    + eapply Hrec; eassumption.
Qed.

Lemma classify_from_records (cpus : list Z) (cs : list container) :
  forall h0 f f' b b',
    classify_from cpus h0 cs (f, b) = Done (f', b') ->
    grows f f' /\
    forall k c e chunk i,
      nth_error cs k = Some c -> IsRunning c = true ->
      Go.Atoi (limits_cpu cpus c) = Err e ->
      In chunk (Go.Split (limits_cpu cpus c) ",") -> chunk_names chunk i -> In i cpus ->
      exists l, f' !! i = Some l /\ In (h0 + k)%nat l.
Proof.
  induction cs as [|c0 cs IH]; intros h0 f f' b b'; cbn [classify_from].
  - intros [= <- <-]. split; [apply grows_refl|]. intros [|k] ? ? ? ? Hn; discriminate Hn.
  - destruct (classify_one cpus h0 c0 (f, b)) as [[f1 b1]| |] eqn:E1; cbn; try discriminate.
    intros E. destruct (IH _ _ _ _ _ E) as [Hg Hrec].
    assert (H1 : grows f f1 /\
                 (IsRunning c0 = true -> forall e, Go.Atoi (limits_cpu cpus c0) = Err e ->
                  forall chunk i, In chunk (Go.Split (limits_cpu cpus c0) ",") ->
                    chunk_names chunk i -> In i cpus ->
                    exists l, f1 !! i = Some l /\ In h0 l)).
    { unfold classify_one in E1. destruct (IsRunning c0); cbn [negb] in E1.
      - destruct (Go.Atoi (limits_cpu cpus c0)) as [n|e0] eqn:Ea.
        + injection E1 as <- <-. split; [apply grows_refl|]. intros _ e He. discriminate He.
        + destruct (pin_chunks cpus h0 (Go.Split (limits_cpu cpus c0) ",") f)
            as [f2| |] eqn:Ep; cbn in E1; try discriminate.
          injection E1 as <- <-. destruct (pin_chunks_records _ _ _ _ _ Ep) as [Hg2 Hrec2].
          split; [exact Hg2|]. intros _ e _ chunk i. apply Hrec2.
      - injection E1 as <- <-. split; [apply grows_refl|]. intros Hr. discriminate Hr. }
    destruct H1 as [Hg1 Hrec1].
    split; [eapply grows_trans; eassumption|].
    intros [|k] c e chunk i Hn Hr He Hin Hnm Hon.
    + cbn in Hn. injection Hn as <-. rewrite Nat.add_0_r.
      destruct (Hrec1 Hr e He chunk i Hin Hnm Hon) as (l & Hl & Hc).
      exact (Hg i l h0 Hl Hc).
    + cbn in Hn. replace (h0 + S k)%nat with (S h0 + k)%nat by lia.
      eapply Hrec; eassumption.
Qed.

Lemma nth_error_lookup {A : Type} (l : list A) (i : nat) : nth_error l i = l !! i.
Proof. revert i. induction l as [|x l IH]; intros [|i]; cbn; auto. Qed.

(** ** CPU Balancer: results on whole passes *)

(** X1. In every pass that runs to its end over distinct online CPU ids,
    a running instance whose limit parses as the integer [n >= 0] holds
    exactly [min n N] distinct ids of online CPUs (and is not in the
    pinning map when that is none). *)
Theorem load_balanced_instance_gets_min_distinct (rt : runtime) (cpus : list Z)
    (containers : list container) (p : pass) (h : nat) (c : container) (n : Z) :
  runtime_ok rt -> List.NoDup cpus ->
  deviceTaskBalance rt cpus containers = Done p ->
  nth_error containers h = Some c -> IsRunning c = true ->
  Go.Atoi (limits_cpu cpus c) = Ok n -> 0 <= n ->
  exists ids,
    pinning p !! h = match ids with [] => None | _ => Some ids end /\
    Z.of_nat (length ids) = Z.min n (Z.of_nat (length cpus)) /\
    List.NoDup ids /\
    forall s, In s ids -> exists i, In i cpus /\ s = Go.itoa i.
Proof.
  intros Hrt Hnd Hrun Hh Hr Hn H0.
  destruct (balanced_instance_served rt Hrt cpus containers p h c n Hnd Hrun Hh Hr Hn)
    as (ids & Hp & Hnd' & Hin & Hlen & _).
  exists ids. auto.
Qed.

Lemma NoDup_0123 : List.NoDup [0; 1; 2; 3].
Proof. repeat constructor; cbn; intuition discriminate. Qed.

Lemma load_balanced_instance_gets_min_distinct_witness :
  exists p ids,
    deviceTaskBalance rt_ascending [0; 1; 2; 3] [instance "A" "0-1"; instance "B" "2"]
      = Done p /\
    pinning p !! 1%nat = match ids with [] => None | _ => Some ids end /\
    Z.of_nat (length ids) = 2.
Proof.
  destruct (deviceTaskBalance rt_ascending [0; 1; 2; 3]
              [instance "A" "0-1"; instance "B" "2"]) as [p| |] eqn:E;
    [|vm_compute in E; discriminate E|vm_compute in E; discriminate E].
  destruct (load_balanced_instance_gets_min_distinct rt_ascending [0; 1; 2; 3]
              [instance "A" "0-1"; instance "B" "2"] p 1%nat (instance "B" "2") 2
              rt_ascending_ok NoDup_0123 E eq_refl eq_refl eq_refl ltac:(lia))
    as (ids & Hp & Hl & _).
  exists p, ids. split; [reflexivity|]. split; [exact Hp|exact Hl].
Defined.

(** X2. In every pass that runs to its end over distinct online CPU ids, a
    running instance whose limit parses as a negative integer holds every
    online CPU. *)
Theorem negative_count_gets_every_online_cpu (rt : runtime) (cpus : list Z)
    (containers : list container) (p : pass) (h : nat) (c : container) (n : Z) :
  runtime_ok rt -> List.NoDup cpus -> Z.of_nat (length cpus) <= Go.max_int ->
  deviceTaskBalance rt cpus containers = Done p ->
  nth_error containers h = Some c -> IsRunning c = true ->
  Go.Atoi (limits_cpu cpus c) = Ok n -> n < 0 ->
  exists ids,
    pinning p !! h = match ids with [] => None | _ => Some ids end /\
    Permutation ids (map Go.itoa cpus) /\
    cpuset_cpus p !! h = match ids with [] => None | _ => Some (cpuset_value ids) end.
Proof.
  intros Hrt Hnd HN Hrun Hh Hr Hn H0.
  destruct (balanced_instance_served rt Hrt cpus containers p h c n Hnd Hrun Hh Hr Hn)
    as (ids & Hp & _ & _ & _ & Hall).
  exists ids. split; [exact Hp|]. split; [apply Hall; assumption|].
  destruct (deviceTaskBalance_done _ _ _ _ Hrun) as (_ & _ & _ & _ & _ & _ & ->).
  rewrite lookup_fmap, Hp. destruct ids; reflexivity.
Qed.

Lemma negative_count_gets_every_online_cpu_witness :
  exists p ids,
    deviceTaskBalance rt_ascending [0; 1; 2; 3] [instance "A" "-1"; instance "B" "2"]
      = Done p /\
    pinning p !! 0%nat = match ids with [] => None | _ => Some ids end /\
    Permutation ids ["0"; "1"; "2"; "3"].
Proof.
  destruct (deviceTaskBalance rt_ascending [0; 1; 2; 3]
              [instance "A" "-1"; instance "B" "2"]) as [p| |] eqn:E;
    [|vm_compute in E; discriminate E|vm_compute in E; discriminate E].
  assert (HN : Z.of_nat (length [0; 1; 2; 3]) <= Go.max_int) by (vm_compute; discriminate).
  destruct (negative_count_gets_every_online_cpu rt_ascending [0; 1; 2; 3]
              [instance "A" "-1"; instance "B" "2"] p 0%nat (instance "A" "-1") (-1)
              rt_ascending_ok NoDup_0123 HN E eq_refl eq_refl eq_refl ltac:(lia))
    as (ids & Hp & Hl & _).
  exists p, ids. split; [reflexivity|]. split; [exact Hp|exact Hl].
Defined.

Lemma ascending_nth_from (l : list Z) :
  forall m, StronglySorted Z.lt l -> (forall z, In z l -> m <= z) ->
    forall k y, nth_error l k = Some y -> m + Z.of_nat k <= y.
Proof.
  induction l as [|a l IH]; intros m Hs Hm [|k] y Hk; try discriminate Hk.
  - injection Hk as <-. specialize (Hm a (or_introl eq_refl)). lia.
  - apply StronglySorted_inv in Hs. destruct Hs as [Hs Ha].
    rewrite List.Forall_forall in Ha. cbn [nth_error] in Hk.
    assert (H := IH (m + 1) Hs).
    assert (Hm' : forall z, In z l -> m + 1 <= z).
    { intros z Hz. specialize (Ha z Hz). specialize (Hm a (or_introl eq_refl)). lia. }
    specialize (H Hm' k y Hk). lia.
Qed.

Lemma ascending_nth_gap (l : list Z) :
  StronglySorted Z.lt l ->
  forall j c x y, (j <= c)%nat -> nth_error l j = Some x -> nth_error l c = Some y ->
    x + Z.of_nat (c - j) <= y.
Proof.
  induction l as [|a l IH]; intros Hs [|j] [|c] x y Hjc Hj Hc; try discriminate; try lia.
  - cbn in Hj, Hc. injection Hj as <-. injection Hc as <-. cbn. lia.
  - cbn in Hj. injection Hj as <-. cbn [nth_error] in Hc.
    apply StronglySorted_inv in Hs. destruct Hs as [Hs Ha].
    rewrite List.Forall_forall in Ha.
    assert (Hm : forall z, In z l -> a + 1 <= z).
    { intros z Hz. specialize (Ha z Hz). lia. }
    pose proof (ascending_nth_from l (a + 1) Hs Hm c y Hc). lia.
  - cbn [nth_error] in Hj, Hc. apply StronglySorted_inv in Hs. destruct Hs as [Hs _].
    pose proof (IH Hs j c x y ltac:(lia) Hj Hc). lia.
Qed.

(** In an ascending list of ids that are not negative, position [cpu]
    holds [cpu] exactly when every id below [cpu] is in the list. *)
Lemma ascending_position (l : list Z) (cpu i : Z) :
  StronglySorted Z.lt l -> (forall z, In z l -> 0 <= z) ->
  0 <= cpu -> In cpu l -> nth_error l (Z.to_nat cpu) = Some i ->
  (i = cpu <-> forall k, 0 <= k < cpu -> In k l).
Proof.
  intros Hs Hnn Hcpu Hin Hi.
  assert (Hge : forall k y, nth_error l k = Some y -> Z.of_nat k <= y).
  { intros k y Hk. pose proof (ascending_nth_from l 0 Hs Hnn k y Hk). lia. }
  split.
  - intros -> k Hk.
    destruct (nth_error l (Z.to_nat k)) as [x|] eqn:Ex.
    2:{ apply nth_error_None in Ex.
        assert (Hl : (Z.to_nat cpu < length l)%nat) by (apply nth_error_Some; congruence).
        lia. }
    pose proof (Hge _ _ Ex) as H1.
    pose proof (ascending_nth_gap l Hs (Z.to_nat k) (Z.to_nat cpu) x cpu ltac:(lia) Ex Hi)
      as H2.
    assert (x = k) by lia. subst x. eapply nth_error_In, Ex.
  - intros Hall.
    assert (Hpos : forall n j, (j < n)%nat -> (j <= Z.to_nat cpu)%nat ->
                     nth_error l j = Some (Z.of_nat j)).
    { induction n as [|n IHn]; intros j Hj Hle; [lia|].
      assert (Hjin : In (Z.of_nat j) l).
      { destruct (Z.eq_dec (Z.of_nat j) cpu) as [->|Hne]; [exact Hin|apply Hall; lia]. }
      apply In_nth_error in Hjin. destruct Hjin as [m Hm].
      pose proof (Hge m _ Hm) as Hmj.
      destruct (Nat.eq_dec m j) as [->|Hne]; [exact Hm|].
      assert (Hlt : (m < n)%nat) by lia.
      rewrite (IHn m Hlt ltac:(lia)) in Hm. injection Hm as Hm. lia. }
    pose proof (Hpos (S (Z.to_nat cpu)) (Z.to_nat cpu) ltac:(lia) ltac:(lia)) as H.
    rewrite Hi in H. injection H as ->. lia.
Qed.

(** X3. In every pass that runs to its end, a fixed assignment of an
    instance to the online CPU id [cpu] puts in the instance's set the id of
    the CPU at position [cpu] of the list of online CPUs.  When the online
    ids are listed in ascending order, none negative, that id is [cpu]
    itself exactly when every id below [cpu] is online. *)
Theorem fixed_pin_lands_on_position (rt : runtime) (cpus : list Z)
    (containers : list container) (p : pass) (f : gmap Z (list nat)) (b : gmap nat Z)
    (cpu : Z) (l : list nat) (h : nat) :
  runtime_ok rt ->
  classify cpus containers = Done (f, b) ->
  deviceTaskBalance rt cpus containers = Done p ->
  f !! cpu = Some l -> In h l ->
  0 <= cpu /\ In cpu cpus /\
  exists i set, nth_error cpus (Z.to_nat cpu) = Some i /\
    pinning p !! h = Some set /\ In (Go.itoa i) set /\
    (StronglySorted Z.lt cpus -> (forall z, In z cpus -> 0 <= z) ->
     (i = cpu <-> forall k, 0 <= k < cpu -> In k cpus)).
Proof.
  intros Hrt Hc Hrun Hl Hh.
  destruct (fixed_pin_by_position rt Hrt cpus containers p f b cpu l h Hc Hrun Hl Hh)
    as (Hcpu & Hin & i & set & Hi & Hs & Hset).
  split; [exact Hcpu|]. split; [exact Hin|]. exists i, set.
  split; [exact Hi|]. split; [exact Hs|]. split; [exact Hset|].
  intros Hsorted Hnn. apply ascending_position; assumption.
Qed.

Lemma fixed_pin_lands_on_position_witness :
  exists p i set,
    deviceTaskBalance rt_ascending [0; 2; 3] [instance "A" "0,2"] = Done p /\
    nth_error [0; 2; 3] (Z.to_nat 2) = Some i /\
    pinning p !! 0%nat = Some set /\ In (Go.itoa i) set /\
    (i = 2 <-> forall k, 0 <= k < 2 -> In k [0; 2; 3]).
Proof.
  destruct (deviceTaskBalance rt_ascending [0; 2; 3] [instance "A" "0,2"])
    as [p| |] eqn:E;
    [|vm_compute in E; discriminate E|vm_compute in E; discriminate E].
  assert (Hc : classify [0; 2; 3] [instance "A" "0,2"]
               = Done ({[ 0 := [0%nat]; 2 := [0%nat] ]}, ∅)) by (vm_compute; reflexivity).
  assert (Hl : ({[ 0 := [0%nat]; 2 := [0%nat] ]} : gmap Z (list nat)) !! 2 = Some [0%nat])
    by (vm_compute; reflexivity).
  destruct (fixed_pin_lands_on_position rt_ascending [0; 2; 3] [instance "A" "0,2"] p
              _ _ 2 [0%nat] 0%nat rt_ascending_ok Hc E Hl (or_introl eq_refl))
    as (_ & _ & i & set & Hi & Hs & Hin & Hiff).
  exists p, i, set. split; [reflexivity|]. split; [exact Hi|]. split; [exact Hs|].
  split; [exact Hin|]. apply Hiff.
  - repeat constructor; lia.
  - intros z [<-|[<-|[<-|[]]]]; lia.
Defined.

(** X4. When the online CPU ids are [0 .. N-1] in order, a pass whose
    classification finishes runs to its end, and every fixed assignment is
    honored: the instance's set holds the id it was pinned to. *)
Theorem fixed_pins_honored_when_ids_are_positions (rt : runtime) (n : Z)
    (containers : list container) (f : gmap Z (list nat)) (b : gmap nat Z) :
  runtime_ok rt ->
  classify (seqZ 0 n) containers = Done (f, b) ->
  exists p, deviceTaskBalance rt (seqZ 0 n) containers = Done p /\
    forall cpu l h, f !! cpu = Some l -> In h l ->
      exists set, pinning p !! h = Some set /\ In (Go.itoa cpu) set.
Proof.
  intros Hrt Hc.
  assert (Hkeys : forall j, is_Some (f !! j) -> In j (seqZ 0 n)).
  { intros j [l Hl]. unfold classify in Hc.
    destruct (classify_from_spec _ _ _ _ _ _ _ Hc) as (_ & _ & Hfix).
    destruct (proj1 (Hfix j l Hl)) as [Hon|[? Hs0]]; [apply IntInSlice_In, Hon|].
    rewrite lookup_empty in Hs0. discriminate. }
  destruct (pass_outcome rt Hrt (seqZ 0 n) containers f b Hc) as [(_ & p & Hp)|((j & Hj & Hr) & _)].
  - exists p. split; [exact Hp|]. intros cpu l h Hl Hh.
    destruct (fixed_pin_by_position rt Hrt _ _ p f b cpu l h Hc Hp Hl Hh)
      as (H0 & _ & i & set & Hi & Hs & Hin).
    rewrite nth_error_lookup in Hi. apply lookup_seqZ in Hi. destruct Hi as [-> _].
    exists set. split; [exact Hs|]. replace (0 + Z.of_nat (Z.to_nat cpu)) with cpu in Hin by lia.
    exact Hin.
  - exfalso. apply Hr. apply Hkeys, list_elem_of_In, elem_of_seqZ in Hj.
    rewrite length_seqZ. lia.
Qed.

Lemma fixed_pins_honored_when_ids_are_positions_witness :
  exists p set,
    deviceTaskBalance rt_ascending (seqZ 0 4) [instance "A" "1-2"; instance "B" "2,3"]
      = Done p /\
    pinning p !! 1%nat = Some set /\ In (Go.itoa 2) set.
Proof.
  assert (Hc : classify (seqZ 0 4) [instance "A" "1-2"; instance "B" "2,3"]
               = Done ({[ 1 := [0%nat]; 2 := [0%nat; 1%nat]; 3 := [1%nat] ]}, ∅))
    by (vm_compute; reflexivity).
  destruct (fixed_pins_honored_when_ids_are_positions rt_ascending 4 _ _ _
              rt_ascending_ok Hc) as (p & Hp & H).
  destruct (H 2 [0%nat; 1%nat] 1%nat) as (set & Hs & Hin).
  - vm_compute. reflexivity.
  - right. left. reflexivity.
  - exists p, set. auto.
Defined.

(** X5. Once classification has finished, the pass panics exactly when an
    online CPU id recorded in [fixedContainers] is not smaller than the
    number of online CPUs, and runs to its end otherwise. *)
Theorem pass_panics_iff_fixed_id_out_of_range (rt : runtime) (cpus : list Z)
    (containers : list container) (f : gmap Z (list nat)) (b : gmap nat Z) :
  runtime_ok rt ->
  classify cpus containers = Done (f, b) ->
  ((forall j, is_Some (f !! j) -> 0 <= j < Z.of_nat (length cpus)) /\
     exists p, deviceTaskBalance rt cpus containers = Done p) \/
  ((exists j, is_Some (f !! j) /\ In j cpus /\ ~ (0 <= j < Z.of_nat (length cpus))) /\
     deviceTaskBalance rt cpus containers = Panic).
Proof.
  intros Hrt Hc.
  destruct (pass_outcome rt Hrt cpus containers f b Hc) as [H|((j & Hj & Hr) & Hp)];
    [left; exact H|right].
  split; [|exact Hp]. exists j. split; [exact Hj|]. split; [|exact Hr].
  destruct Hj as [l Hl]. unfold classify in Hc.
  destruct (classify_from_spec _ _ _ _ _ _ _ Hc) as (_ & _ & Hfix).
  destruct (proj1 (Hfix j l Hl)) as [Hon|[? Hs0]]; [apply IntInSlice_In, Hon|].
  rewrite lookup_empty in Hs0. discriminate.
Qed.

Lemma pass_panics_iff_fixed_id_out_of_range_witness :
  deviceTaskBalance rt_ascending [0; 2] [instance "A" "0-2"] = Panic.
Proof.
  assert (Hc : classify [0; 2] [instance "A" "0-2"]
               = Done ({[ 0 := [0%nat]; 2 := [0%nat] ]}, ∅)) by (vm_compute; reflexivity).
  destruct (pass_panics_iff_fixed_id_out_of_range rt_ascending [0; 2] _ _ _
              rt_ascending_ok Hc) as [(Hall & _)|(_ & Hp)]; [|exact Hp].
  exfalso. assert (H2 : 0 <= 2 < Z.of_nat (length [0; 2])).
  { apply Hall. vm_compute. eauto. }
  cbn in H2. lia.
Defined.

Lemma pin_chunk_Hang (cpus : list Z) (c : nat) (chunk : string) (f : gmap Z (list nat)) :
  pin_chunk cpus c chunk f = Hang <-> endless_range chunk.
Proof.
  unfold pin_chunk, pin_range, endless_range.
  destruct (Go.Contains chunk "-").
  - destruct (Go.SplitN2 chunk "-") as [|f0 [|f1 [|? ?]]].
    1,2,4: split; [discriminate|intros (_ & a & b & low & H & _); discriminate H].
    destruct (Go.Atoi f0) as [low|e0] eqn:E0.
    2:{ split; [discriminate|].
        intros (_ & a & b & low & [= <- <-] & Ha & _). congruence. }
    destruct (Go.Atoi f1) as [high|e1] eqn:E1.
    2:{ split; [discriminate|].
        intros (_ & a & b & low' & [= <- <-] & _ & Hb). congruence. }
    destruct (Z.eqb_spec high Go.max_int) as [->|Hne].
    + split; [|reflexivity]. intros _. split; [reflexivity|].
      exists f0, f1, low. auto.
    + split; [discriminate|].
      intros (_ & a & b & low' & [= <- <-] & _ & Hb). congruence.
  - split; [|intros [H _]; discriminate H].
    destruct (Go.Atoi chunk); [|discriminate].
    destruct (negb (Go.IntInSlice a cpus)); discriminate.
Qed.

Lemma pin_chunks_Hang (cpus : list Z) (c : nat) (chunks : list string) :
  forall f, pin_chunks cpus c chunks f = Hang <->
            exists chunk, In chunk chunks /\ endless_range chunk.
Proof.
  induction chunks as [|chunk rest IH]; intros f; cbn [pin_chunks].
  - split; [discriminate|intros (? & [] & _)].
  - pose proof (pin_chunk_Hang cpus c chunk f) as H1.
    pose proof (pin_chunks_no_panic cpus c [chunk] f) as Hp. cbn [pin_chunks] in Hp.
    destruct (pin_chunk cpus c chunk f) as [f1| |]; cbn [mbind outcome_bind Go.obind] in *.
    + rewrite IH. split.
      * intros (x & Hin & Hx). exists x. split; [right; exact Hin|exact Hx].
      * intros (x & [<-|Hin] & Hx); [|exists x; auto].
        apply H1 in Hx. discriminate Hx.
    + contradiction.
    + split; [|reflexivity]. intros _. exists chunk. split; [left; reflexivity|].
      apply H1. reflexivity.
Qed.

Lemma classify_one_Hang (cpus : list Z) (h : nat) (c : container)
    (st : gmap Z (list nat) * gmap nat Z) :
  classify_one cpus h c st = Hang <-> endless cpus c.
Proof.
  destruct st as [f b]. unfold classify_one, endless.
  destruct (IsRunning c); cbn [negb].
  2:{ split; [discriminate|intros [H _]; discriminate H]. }
  destruct (Go.Atoi (limits_cpu cpus c)) as [n|e] eqn:Ea.
  { split; [discriminate|intros (_ & e & chunk & H & _); discriminate H]. }
  pose proof (pin_chunks_Hang cpus h (Go.Split (limits_cpu cpus c) ",") f) as H.
  destruct (pin_chunks cpus h (Go.Split (limits_cpu cpus c) ",") f) as [f1| |];
    cbn [mbind outcome_bind Go.obind].
  - split; [discriminate|]. intros (_ & e' & chunk & _ & Hin & Hx).
    assert (Hh : @Done (gmap Z (list nat)) f1 = Hang) by (apply H; eauto). discriminate Hh.
  - split; [discriminate|]. intros (_ & e' & chunk & _ & Hin & Hx).
    assert (Hh : @Panic (gmap Z (list nat)) = Hang) by (apply H; eauto). discriminate Hh.
  - split; [|reflexivity]. intros _. split; [reflexivity|].
    destruct (proj1 H eq_refl) as (chunk & Hin & Hx). exists e, chunk. auto.
Qed.

Lemma classify_from_Hang (cpus : list Z) (cs : list container) :
  forall h0 st, classify_from cpus h0 cs st = Hang <-> exists c, In c cs /\ endless cpus c.
Proof.
  induction cs as [|c cs IH]; intros h0 st; cbn [classify_from].
  - split; [discriminate|intros (? & [] & _)].
  - pose proof (classify_one_Hang cpus h0 c st) as H1.
    pose proof (classify_from_no_panic cpus [c] h0 st) as Hp. cbn [classify_from] in Hp.
    destruct (classify_one cpus h0 c st) as [st1| |]; cbn [mbind outcome_bind Go.obind] in *.
    + rewrite IH. split.
      * intros (x & Hin & Hx). exists x. split; [right; exact Hin|exact Hx].
      * intros (x & [<-|Hin] & Hx); [|exists x; auto].
        apply H1 in Hx. discriminate Hx.
    + contradiction.
    + split; [|reflexivity]. intros _. exists c. split; [left; reflexivity|].
      apply H1. reflexivity.
Qed.

(** X6. Classification never panics, and it fails to end exactly when the
    pinning expression of a running instance holds a range whose upper end
    is the largest [int].  When it ends, every CPU id it has recorded in
    [fixedContainers] is online, and every online id that a chunk of a
    running instance's pinning expression names (an integer, or a member of
    a range [a-b] whose ends parse) is recorded for that instance. *)
Theorem pinning_expression_ids_recorded (cpus : list Z) (containers : list container) :
  classify cpus containers <> Panic /\
  (classify cpus containers = Hang <->
   exists c e chunk, In c containers /\ IsRunning c = true /\
     Go.Atoi (limits_cpu cpus c) = Err e /\
     In chunk (Go.Split (limits_cpu cpus c) ",") /\ endless_range chunk) /\
  forall f b, classify cpus containers = Done (f, b) ->
    (forall j, is_Some (f !! j) -> In j cpus) /\
    (forall h c e chunk i,
       nth_error containers h = Some c -> IsRunning c = true ->
       Go.Atoi (limits_cpu cpus c) = Err e ->
       In chunk (Go.Split (limits_cpu cpus c) ",") -> chunk_names chunk i -> In i cpus ->
       exists l, f !! i = Some l /\ In h l).
Proof.
  split; [apply classify_from_no_panic|]. split.
  - unfold classify. rewrite classify_from_Hang. unfold endless. split.
    + intros (c & Hin & Hr & e & chunk & He & Hc & Hx). exists c, e, chunk. auto.
    + intros (c & e & chunk & Hin & Hr & He & Hc & Hx). exists c. split; [exact Hin|].
      split; [exact Hr|]. exists e, chunk. auto.
  - intros f b Hc. unfold classify in Hc. split.
    + intros j [l Hl].
      destruct (classify_from_spec _ _ _ _ _ _ _ Hc) as (_ & _ & Hfix).
      destruct (proj1 (Hfix j l Hl)) as [Hon|[? Hs0]]; [apply IntInSlice_In, Hon|].
      rewrite lookup_empty in Hs0. discriminate.
    + destruct (classify_from_records _ _ _ _ _ _ _ Hc) as [_ Hrec].
      intros h c e chunk i Hn. apply (Hrec h c e chunk i Hn).
Qed.

Lemma pinning_expression_ids_recorded_witness :
  classify [0; 2] [instance "A" "0-2"] <> Panic /\
  classify [0; 2] [instance "A" "0-9223372036854775807"] = Hang /\
  In 2 [0; 2].
Proof.
  destruct (pinning_expression_ids_recorded [0; 2] [instance "A" "0-2"])
    as (Hnp & _ & Hdone).
  destruct (pinning_expression_ids_recorded [0; 2]
              [instance "A" "0-9223372036854775807"]) as (_ & Hhang & _).
  assert (Hc : classify [0; 2] [instance "A" "0-2"]
               = Done ({[ 0 := [0%nat]; 2 := [0%nat] ]}, ∅)) by (vm_compute; reflexivity).
  split; [exact Hnp|]. split.
  - apply Hhang. exists (instance "A" "0-9223372036854775807").
    eexists _, "0-9223372036854775807".
    split; [left; reflexivity|]. split; [reflexivity|].
    split; [vm_compute; reflexivity|]. split; [left; reflexivity|].
    split; [reflexivity|]. exists "0", "9223372036854775807", 0.
    split; [reflexivity|]. split; vm_compute; reflexivity.
  - apply (proj1 (Hdone _ _ Hc) 2). vm_compute. eauto.
Defined.

(** ** Further properties of the translator and the validator *)

(** X7. A unix device that carries numbers that parse and a mode that
    parses (or none) gets its directive: [deviceCgroupInfo] does not fail on
    it. *)
Theorem deviceCgroupInfo_succeeds_on_explicit_numbers (os : os_env)
    (dev : gmap string string) (major minor i : Z) :
  Go.get dev "type" = "unix-char" \/ Go.get dev "type" = "unix-block" ->
  Go.Atoi (Go.get dev "major") = Ok major ->
  Go.Atoi (Go.get dev "minor") = Ok minor ->
  devModeOct (Go.get dev "mode") = Ok i ->
  deviceCgroupInfo os dev =
    Ok ((if Go.get dev "type" =s "unix-char" then "c" else "b") +:+ " " +:+ Go.itoa major
        +:+ ":" +:+ Go.itoa minor +:+ " " +:+ spec_mode_string i).
Proof.
  intros Ht Hmaj Hmin Hmode.
  apply deviceCgroupInfo_explicit; try assumption.
  destruct Ht as [Ht|Ht]; rewrite Ht; [left|right]; split; reflexivity.
Qed.

Lemma deviceCgroupInfo_succeeds_on_explicit_numbers_witness :
  deviceCgroupInfo os_no_stat example_unix_char = Ok "c 10:200 mr".
Proof.
  exact (deviceCgroupInfo_succeeds_on_explicit_numbers os_no_stat example_unix_char
           10 200 288 (or_introl eq_refl) eq_refl eq_refl eq_refl).
Defined.

(** X8. [validDeviceConfig] accepts every whitelisted key of a type other
    than [nictype] whatever the value, and accepts [nictype] exactly for
    the four nic types. *)
Theorem validDeviceConfig_accepts_whitelist (t k v : string) :
  In k (spec_whitelist t) ->
  validDeviceConfig t k v =
    if k =s "nictype" then Go.StringInSlice v ["physical"; "bridged"; "p2p"; "macvlan"]
    else true.
Proof.
  intros Hk. destruct (streq_spec k "nictype") as [->|Hne].
  - unfold spec_whitelist in Hk. revert Hk. unfold validDeviceConfig.
    case_streq; cbn; intuition (try discriminate; try congruence).
  - apply validDeviceConfig_complete; assumption.
Qed.

Lemma validDeviceConfig_accepts_whitelist_witness :
  validDeviceConfig "disk" "readonly" "true" = true.
Proof.
  apply (validDeviceConfig_accepts_whitelist "disk" "readonly" "true").
  vm_compute. auto.
Defined.

Lemma classify_from_keys (cpus : list Z) (cs : list container) :
  forall h0 f f' b b',
    classify_from cpus h0 cs (f, b) = Done (f', b') ->
    forall k, is_Some (b' !! k) -> is_Some (b !! k) \/ (h0 <= k < h0 + length cs)%nat.
Proof.
  induction cs as [|c cs IH]; intros h0 f f' b b'; cbn [classify_from].
  - intros [= <- <-]. auto.
  - destruct (classify_one cpus h0 c (f, b)) as [[f1 b1]| |] eqn:E1; cbn; try discriminate.
    intros E k Hk. destruct (IH _ _ _ _ _ E k Hk) as [H1|H1]; [|right; cbn [length]; lia].
    apply classify_one_spec in E1.
    destruct E1 as [(_ & _ & ->)|[(_ & n & _ & _ & ->)|(_ & e & _ & -> & _)]]; auto.
    destruct (decide (h0 = k)) as [->|Hne]; [right; cbn [length]; lia|].
    rewrite lookup_insert_ne in H1 by assumption. auto.
Qed.


(** ** Live Device Delta Engine: the search for an unused nic name *)

Module NicName.
Import Live LiveSpec.





End NicName.

(** ** Go primitives: printing and parsing integers *)

Lemma parse_digits_of_uint_acc (d : Decimal.uint) :
  forall acc : positive,
    Go.parse_digits 10 (NilEmpty.string_of_uint d) (Z.pos acc)
    = Some (Z.pos (Pos.of_uint_acc d acc)).
Proof.
  induction d; intros acc; cbn [NilEmpty.string_of_uint Go.parse_digits Pos.of_uint_acc];
    try reflexivity;
    match goal with
    | |- context [ Go.digit_val ?c ] =>
        let v := eval vm_compute in (Go.digit_val c) in
        change (Go.digit_val c) with v; cbv iota beta
    end;
    match goal with
    | |- context [ ?k <? 10 ] =>
        let v := eval vm_compute in (k <? 10) in change (k <? 10) with v; cbv iota
    end;
    rewrite <- IHd; f_equal; lia.
Qed.

Lemma parse_digits_of_uint (d : Decimal.uint) :
  Go.parse_digits 10 (NilEmpty.string_of_uint d) 0 = Some (Z.of_N (Pos.of_uint d)).
Proof.
  induction d; cbn [NilEmpty.string_of_uint Go.parse_digits Pos.of_uint];
    try reflexivity;
    match goal with
    | |- context [ Go.digit_val ?c ] =>
        let v := eval vm_compute in (Go.digit_val c) in
        change (Go.digit_val c) with v; cbv iota beta
    end;
    match goal with
    | |- context [ ?k <? 10 ] =>
        let v := eval vm_compute in (k <? 10) in change (k <? 10) with v; cbv iota
    end;
    try (exact IHd);
    match goal with
    | |- Go.parse_digits 10 _ ?a = _ =>
        let v := eval vm_compute in a in change a with v
    end;
    rewrite parse_digits_of_uint_acc; reflexivity.
Qed.

Lemma string_of_uint_digit (d : Decimal.uint) :
  d <> Decimal.Nil ->
  exists c rest, NilEmpty.string_of_uint d = String c rest /\
    Ascii.eqb c "+" = false /\ Ascii.eqb c "-" = false.
Proof.
  destruct d; [congruence|..]; intros _; cbn; eexists _, _; repeat split; reflexivity.
Qed.

(** What [fmt.Sprintf("%d", z)] prints, [strconv.Atoi] reads back. *)
Lemma Atoi_itoa (z : Z) : in_range z -> Go.Atoi (Go.itoa z) = Ok z.
Proof.
  intros Hz. destruct z as [|p|p]; [reflexivity| |].
  - unfold Go.itoa. cbn [Z.to_int NilZero.string_of_int].
    pose proof (DecimalPos.Unsigned.to_uint_nonnil p) as Hnn.
    pose proof (parse_digits_of_uint (Pos.to_uint p)) as Hp.
    rewrite DecimalPos.Unsigned.of_to in Hp. cbn [Z.of_N] in Hp.
    assert (Hs : NilZero.string_of_uint (Pos.to_uint p)
                 = NilEmpty.string_of_uint (Pos.to_uint p)).
    { destruct (Pos.to_uint p); [congruence|reflexivity..]. }
    rewrite Hs. destruct (string_of_uint_digit _ Hnn) as (c & rest & E & Hplus & Hminus).
    rewrite E in *. unfold Go.Atoi, Go.ParseInt.
    rewrite Hplus, Hminus. cbn [orb negb andb]. rewrite Hp.
    change (if 0 =? 0 then Go.int_bits else 0) with 64.
    change (2 ^ (64 - 1)) with 9223372036854775808.
    int_consts. destruct (Z.leb_spec 9223372036854775808 (Z.pos p)); [lia|reflexivity].
  - unfold Go.itoa. cbn [Z.to_int NilZero.string_of_int].
    pose proof (DecimalPos.Unsigned.to_uint_nonnil p) as Hnn.
    pose proof (parse_digits_of_uint (Pos.to_uint p)) as Hp.
    rewrite DecimalPos.Unsigned.of_to in Hp. cbn [Z.of_N] in Hp.
    assert (Hs : NilZero.string_of_uint (Pos.to_uint p)
                 = NilEmpty.string_of_uint (Pos.to_uint p)).
    { destruct (Pos.to_uint p); [congruence|reflexivity..]. }
    rewrite Hs. destruct (string_of_uint_digit _ Hnn) as (c & rest & E & _).
    rewrite E in *. unfold Go.Atoi, Go.ParseInt.
    change (Ascii.eqb "-" "-") with true. change (Ascii.eqb "-" "+") with false.
    cbn [orb negb andb]. rewrite Hp.
    change (if 0 =? 0 then Go.int_bits else 0) with 64.
    change (2 ^ (64 - 1)) with 9223372036854775808.
    int_consts. destruct (Z.ltb_spec 9223372036854775808 (Z.pos p)); [lia|reflexivity].
Qed.

(** X10. An instance whose configuration has no [limits.cpu], or an empty
    one, is classified as load-balanced with the number of online CPUs as
    its count. *)
Theorem unset_limit_is_load_balanced (cpus : list Z) (c : container) :
  Z.of_nat (length cpus) <= Go.max_int ->
  ExpandedConfig c !! "limits.cpu" = None \/ ExpandedConfig c !! "limits.cpu" = Some "" ->
  Go.Atoi (limits_cpu cpus c) = Ok (Z.of_nat (length cpus)) /\
  (IsRunning c = true ->
   forall h f b, classify_one cpus h c (f, b)
                 = Done (f, <[h := Z.of_nat (length cpus)]> b)).
Proof.
  intros HN Hcfg.
  assert (Ha : Go.Atoi (limits_cpu cpus c) = Ok (Z.of_nat (length cpus))).
  { unfold limits_cpu. destruct Hcfg as [->| ->]; cbn; apply Atoi_itoa; int_consts; lia. }
  split; [exact Ha|]. intros Hr h f b. unfold classify_one. rewrite Hr, Ha. cbn [negb].
  unfold min. rewrite Z.ltb_irrefl. reflexivity.
Qed.

Lemma unset_limit_is_load_balanced_witness :
  Go.Atoi (limits_cpu [0; 1; 2; 3]
             {| Name := "A"; ExpandedConfig := ∅; IsRunning := true |}) = Ok 4.
Proof.
  assert (HN : Z.of_nat (length [0; 1; 2; 3]) <= Go.max_int) by (vm_compute; discriminate).
  exact (proj1 (unset_limit_is_load_balanced [0; 1; 2; 3]
                  {| Name := "A"; ExpandedConfig := ∅; IsRunning := true |}
                  HN (or_introl eq_refl))).
Defined.

(** * Part III (continued): the functions around the claims *)

(** ** Device types in the database *)

(** X12. [deviceTypeToDbType] and [dbDeviceTypeToString] are inverse to
    each other: a type name has the code [n] exactly when [n] is printed as
    that name; a name that no code is printed as gets [-1] and an error. *)
Theorem device_type_code_round_trip :
  (forall t n, deviceTypeToDbType t = (n, None) <-> dbDeviceTypeToString n = Ok t) /\
  (forall t, (forall n, dbDeviceTypeToString n <> Ok t) ->
     exists e, deviceTypeToDbType t = (-1, Some e)).
Proof.
  assert (H : forall t n, deviceTypeToDbType t = (n, None) <-> dbDeviceTypeToString n = Ok t).
  { intros t n. unfold deviceTypeToDbType, dbDeviceTypeToString. split.
    - case_streq; intros [= <-]; reflexivity.
    - repeat match goal with
             | |- context [ ?a =? ?b ] => destruct (Z.eqb_spec a b); subst
             end; intros [= <-]; reflexivity. }
  split; [exact H|].
  intros t Hno. unfold deviceTypeToDbType.
  case_streq; try (eexists; reflexivity); exfalso.
  - apply (Hno 0); reflexivity.
  - apply (Hno 1); reflexivity.
  - apply (Hno 2); reflexivity.
  - apply (Hno 3); reflexivity.
  - apply (Hno 4); reflexivity.
Qed.

(** X13. A device type for which [validDeviceConfig] accepts some attribute
    has a database code, one of 1 to 4, that is printed back as the type. *)
Theorem valid_config_type_has_code (t k v : string) :
  validDeviceConfig t k v = true ->
  exists n, deviceTypeToDbType t = (n, None) /\ 1 <= n <= 4 /\
            dbDeviceTypeToString n = Ok t.
Proof.
  unfold validDeviceConfig, deviceTypeToDbType.
  destruct (k =s "type"); [discriminate|].
  destruct (streq_spec t "unix-char") as [->|];
    [intros _; exists 3; split; [reflexivity|split; [lia|reflexivity]]|].
  destruct (streq_spec t "unix-block") as [->|];
    [intros _; exists 4; split; [reflexivity|split; [lia|reflexivity]]|].
  destruct (streq_spec t "nic") as [->|];
    [intros _; exists 1; split; [reflexivity|split; [lia|reflexivity]]|].
  destruct (streq_spec t "disk") as [->|];
    [intros _; exists 2; split; [reflexivity|split; [lia|reflexivity]]|].
  destruct (t =s "none"); discriminate.
Qed.

Lemma valid_config_type_has_code_witness :
  exists n, deviceTypeToDbType "disk" = (n, None) /\ 1 <= n <= 4 /\
            dbDeviceTypeToString n = Ok "disk".
Proof. exact (valid_config_type_has_code "disk" "path" "/x" eq_refl). Defined.

(** ** Instance configuration keys *)

Lemma prefix_cons (c : ascii) (p s : string) :
  String.prefix (String c p) s = true -> exists s', s = String c s' /\ String.prefix p s' = true.
Proof.
  destruct s as [|c' s']; cbn; [discriminate|].
  destruct (ascii_dec c c') as [->|]; [eauto|discriminate].
Qed.

(** X14. A local copy and a remote copy of an instance differ on one key
    only, [volatile.last_state.idmap]; the keys of the user ([user.*]) are
    included in both. *)
Theorem copying_local_and_remote_differ_on_idmap (k : string) :
  (InstanceIncludeWhenCopying k false <> InstanceIncludeWhenCopying k true
     <-> k = "volatile.last_state.idmap") /\
  (IsUserConfig k = true -> forall r, InstanceIncludeWhenCopying k r = true).
Proof.
  split.
  - unfold InstanceIncludeWhenCopying. split.
    + case_streq; cbn; congruence.
    + intros ->. vm_compute. discriminate.
  - unfold IsUserConfig, Go.HasPrefix. intros H r.
    apply prefix_cons in H. destruct H as (s' & -> & _).
    unfold InstanceIncludeWhenCopying. destruct r; reflexivity.
Qed.

(** ** Hotplug monitor: what the parser reads *)

Lemma slice_middle {A : Type} (pre mid post : list A) :
  Go.slice (pre ++ mid ++ post) (Z.of_nat (length pre))
    (Z.of_nat (length pre) + Z.of_nat (length mid)) = Done mid.
Proof.
  unfold Go.slice. rewrite !length_app.
  destruct (Z.leb_spec 0 (Z.of_nat (length pre))); [|lia].
  destruct (Z.leb_spec (Z.of_nat (length pre))
              (Z.of_nat (length pre) + Z.of_nat (length mid))); [|lia].
  destruct (Z.leb_spec (Z.of_nat (length pre) + Z.of_nat (length mid))
              (Z.of_nat (length pre + (length mid + length post)))); [|lia].
  cbn [andb]. f_equal.
  rewrite Nat2Z.id.
  replace (Z.to_nat (Z.of_nat (length pre) + Z.of_nat (length mid) - Z.of_nat (length pre)))
    with (length mid) by lia.
  rewrite drop_app_length, take_app_length. reflexivity.
Qed.

Lemma uevent_message (props : gmap string string) (piece : list Byte.byte) :
  (if (String.length (string_of_list_byte piece) =? 0)%nat
      || (string_of_list_byte piece =s String Ascii.zero EmptyString)
   then props
   else match Go.SplitN2 (string_of_list_byte piece) "=" with
        | [f0; f1] => <[f0 := f1]> props
        | _ => props
        end) = record_piece props piece.
Proof.
  unfold record_piece.
  destruct (string_of_list_byte piece) as [|c s] eqn:E; [reflexivity|].
  cbn [String.length Nat.eqb orb].
  destruct (streq_spec (String c s) (String Ascii.zero EmptyString)) as [[= -> ->]|]; reflexivity.
Qed.

Lemma uevent_scan_pieces (b : list Byte.byte) :
  forall rest pre0 cur props,
    b = pre0 ++ rev cur ++ rest -> pre0 <> [] ->
    exists last',
      uevent_scan b (Z.of_nat (length pre0 + length cur)) rest
        (Z.of_nat (length pre0) - 1, props)
      = Done (last', fold_left record_piece (pieces rest cur) props).
Proof.
  induction rest as [|e rest IH]; intros pre0 cur props Hb Hne.
  - eexists. reflexivity.
  - cbn [uevent_scan pieces uevent_byte].
    assert (Hlen : (length pre0 + length cur < length b)%nat).
    { rewrite Hb, !length_app, length_rev. cbn [length]. lia. }
    destruct (Z.eqb_spec (Z.of_nat (length pre0 + length cur)) (Z.of_nat (length b))); [lia|].
    cbn [orb]. destruct (Byte.eqb e Byte.x00) eqn:Ee.
    + assert (Hs : Go.slice b (Z.of_nat (length pre0) - 1 + 1)
                     (Z.of_nat (length pre0 + length cur)) = Done (rev cur)).
      { replace (Z.of_nat (length pre0) - 1 + 1) with (Z.of_nat (length pre0)) by lia.
        replace (Z.of_nat (length pre0 + length cur))
          with (Z.of_nat (length pre0) + Z.of_nat (length (rev cur)))
          by (rewrite length_rev; lia).
        rewrite Hb. apply slice_middle. }
      rewrite Hs. cbn [mbind outcome_bind Go.obind].
      specialize (IH (pre0 ++ rev cur ++ [e]) [] (record_piece props (rev cur))).
      destruct IH as [last' IH].
      { rewrite Hb. cbn [rev app]. rewrite <- !app_assoc. reflexivity. }
      { destruct pre0; [congruence|discriminate]. }
      exists last'. cbn [fold_left]. rewrite <- IH.
      rewrite !length_app, length_rev. cbn [length].
      replace (Z.of_nat (length pre0 + (length cur + 1) + 0))
        with (Z.of_nat (length pre0 + length cur) + 1) by lia.
      replace (Z.of_nat (length pre0 + (length cur + 1)) - 1)
        with (Z.of_nat (length pre0 + length cur)) by lia.
      pose proof (uevent_message props (rev cur)) as Hm.
      destruct ((String.length (string_of_list_byte (rev cur)) =? 0)%nat
                || (string_of_list_byte (rev cur) =s String Ascii.zero EmptyString)).
      * rewrite <- Hm. reflexivity.
      * rewrite <- Hm.
        destruct (Go.SplitN2 (string_of_list_byte (rev cur)) "=") as [|f0 [|f1 [|]]];
          reflexivity.
    + cbn [mbind outcome_bind Go.obind].
      specialize (IH pre0 (e :: cur) props). destruct IH as [last' IH].
      { rewrite Hb. cbn [rev]. rewrite <- !app_assoc. reflexivity. }
      { exact Hne. }
      exists last'. rewrite <- IH. cbn [length]. f_equal. lia.
Qed.

Lemma uevent_props_split (b : list Byte.byte) :
  uevent_props b =
    match b with
    | [] => Done ∅
    | e :: rest =>
        if Byte.eqb e Byte.x00 then Panic
        else Done (fold_left record_piece (pieces rest []) ∅)
    end.
Proof.
  destruct b as [|e rest]; [reflexivity|].
  unfold uevent_props. cbn [uevent_scan uevent_byte].
  change (0 =? Z.of_nat (length (e :: rest))) with false. cbn [orb].
  destruct (Byte.eqb e Byte.x00); [reflexivity|].
  cbn [mbind outcome_bind Go.obind].
  destruct (uevent_scan_pieces (e :: rest) rest [e] [] ∅) as [last' H];
    [reflexivity|discriminate|].
  cbn [length Nat.add] in H. change (Z.of_nat 1 - 1) with 0 in H.
  change (0 + 1) with (Z.of_nat 1). rewrite H. reflexivity.
Qed.

(** X15. The properties that the monitor reads from its buffer: none from
    an empty buffer; a run-time panic when the first byte is NUL (the
    message would be [b[1:0]]); otherwise the [key=value] pieces among the
    NUL-terminated pieces of the buffer without its first byte, a later
    piece replacing an earlier one with the same key.  The first byte of
    the buffer is never part of a message, and what follows the last NUL
    is ignored. *)
Theorem uevent_props_pieces (b : list Byte.byte) :
  uevent_props b =
    match b with
    | [] => Done ∅
    | e :: rest =>
        if Byte.eqb e Byte.x00 then Panic
        else Done (fold_left record_piece (pieces rest []) ∅)
    end.
Proof. apply uevent_props_split. Qed.

Lemma pieces_app_nul (l l2 : list Byte.byte) :
  forall cur, pieces (l ++ Byte.x00 :: l2) cur = pieces (l ++ [Byte.x00]) cur ++ pieces l2 [].
Proof.
  induction l as [|e l IH]; intros cur; cbn [app pieces].
  - reflexivity.
  - destruct (Byte.eqb e Byte.x00); [|apply IH].
    rewrite IH. reflexivity.
Qed.

Lemma last_nul_split (l : list Byte.byte) :
  last l = Some Byte.x00 -> exists l', l = l' ++ [Byte.x00].
Proof.
  intros H. destruct (exists_last (l := l)) as (l' & x & ->).
  - intros ->. discriminate.
  - rewrite last_snoc in H. injection H as ->. eauto.
Qed.

(** X16. The buffer is not cleared between two reads and the parser goes
    through all of it, not through the bytes just received: after a
    message that ends with NUL and is shorter than the buffer, the pieces
    of the bytes that earlier messages left behind it are read as well,
    and replace the properties of the message itself. *)
Theorem stale_bytes_are_parsed (b data : list Byte.byte) (pd : gmap string string) :
  (length data <= length b)%nat ->
  uevent_props data = Done pd ->
  last data = Some Byte.x00 ->
  uevent_props (read_into b data)
  = Done (fold_left record_piece (pieces (skipn (length data) b) []) pd).
Proof.
  intros Hlen Hp Hlast. unfold read_into.
  rewrite firstn_all2 by exact Hlen.
  rewrite uevent_props_split in *.
  destruct data as [|e rest]; [discriminate|]. cbn [app].
  destruct (Byte.eqb e Byte.x00) eqn:Ee; [discriminate|].
  injection Hp as <-.
  destruct rest as [|e1 rest1].
  { cbn in Hlast. injection Hlast as ->. discriminate. }
  assert (Hl : last (e1 :: rest1) = Some Byte.x00) by exact Hlast.
  apply last_nul_split in Hl. destruct Hl as [l' Hl']. rewrite Hl'.
  rewrite <- app_assoc. cbn [app].
  rewrite pieces_app_nul, fold_left_app. reflexivity.
Qed.

Lemma stale_bytes_are_parsed_witness :
  exists pd,
    uevent_props memory_uevent = Done pd /\
    uevent_props (read_into cpu_uevent memory_uevent)
    = Done (fold_left record_piece
              (pieces (skipn (length memory_uevent) cpu_uevent) []) pd) /\
    Go.get pd "SUBSYSTEM" = "memory" /\
    exists b, uevent_turn cpu_uevent (Ok memory_uevent) = Done (b, Some ["."; "online"]).
Proof.
  destruct (uevent_props memory_uevent) as [pd| |] eqn:E;
    [|vm_compute in E; discriminate E|vm_compute in E; discriminate E].
  exists pd. split; [reflexivity|]. split.
  - apply (stale_bytes_are_parsed cpu_uevent memory_uevent pd);
      [apply Nat.leb_le; vm_compute; reflexivity|exact E|vm_compute; reflexivity].
  - split.
    + vm_compute in E. injection E as <-. vm_compute. reflexivity.
    + eexists. vm_compute. reflexivity.
Defined.

(** ** Live Device Delta Engine: names of temporary links *)

Module NicTemp.
Import Live LiveSpec.

Lemma hex_digit_inj (a b : N) :
  (a < 16)%N -> (b < 16)%N -> hex_digit a = hex_digit b -> a = b.
Proof.
  intros Ha Hb.
  assert (Ea : In a (map N.of_nat (seq 0 16))).
  { apply in_map_iff. exists (N.to_nat a). split; [lia|]. apply in_seq. lia. }
  assert (Eb : In b (map N.of_nat (seq 0 16))).
  { apply in_map_iff. exists (N.to_nat b). split; [lia|]. apply in_seq. lia. }
  cbn in Ea, Eb.
  repeat (destruct Ea as [<-|Ea]; [repeat (destruct Eb as [<-|Eb];
    [first [reflexivity | (intros H; vm_compute in H; discriminate H)]|]); destruct Eb|]).
  destruct Ea.
Qed.

Lemma byte_of_nibbles (x y : Byte.byte) :
  (Byte.to_N x / 16 = Byte.to_N y / 16)%N ->
  (Byte.to_N x mod 16 = Byte.to_N y mod 16)%N -> x = y.
Proof.
  intros Hq Hr.
  assert (E : Byte.to_N x = Byte.to_N y).
  { rewrite (N.div_mod' (Byte.to_N x) 16), (N.div_mod' (Byte.to_N y) 16). congruence. }
  pose proof (Byte.of_to_N x) as Hx. pose proof (Byte.of_to_N y) as Hy.
  rewrite E in Hx. congruence.
Qed.

Lemma hex_EncodeToString_inj (bs bs' : list Byte.byte) :
  hex_EncodeToString bs = hex_EncodeToString bs' -> bs = bs'.
Proof.
  revert bs'. induction bs as [|x bs IH]; intros [|y bs']; cbn [hex_EncodeToString];
    try discriminate; [reflexivity|].
  intros [= Hq Hr Hrest].
  pose proof (Byte.to_N_bounded x) as Bx. pose proof (Byte.to_N_bounded y) as By.
  f_equal; [|apply IH, Hrest].
  apply byte_of_nibbles.
  - apply hex_digit_inj; [apply N.Div0.div_lt_upper_bound; lia..|exact Hq].
  - apply hex_digit_inj; [apply N.mod_lt; lia..|exact Hr].
Qed.

Lemma hex_EncodeToString_length (bs : list Byte.byte) :
  String.length (hex_EncodeToString bs) = (2 * length bs)%nat.
Proof. induction bs as [|x bs IH]; cbn [hex_EncodeToString String.length length]; lia. Qed.

(** X17. [tempNic] returns ["veth"] followed by the hexadecimal rendering
    of the four random bytes it was given: a name of 12 characters, and two
    calls return the same name only when they were given the same bytes. *)
Theorem tempNic_name (w : world) (t : list event) :
  exists bytes,
    tempNic w t = ("veth" +:+ hex_EncodeToString bytes, t ++ [ERandRead bytes]) /\
    String.length ("veth" +:+ hex_EncodeToString bytes) = 12%nat /\
    forall w' t' bytes',
      tempNic w' t' = ("veth" +:+ hex_EncodeToString bytes, t' ++ [ERandRead bytes']) ->
      bytes' = bytes.
Proof.
  set (bytes := firstn 4 (rand_Read w t ++ repeat Byte.x00 4)).
  assert (Hlen : length bytes = 4%nat).
  { unfold bytes. rewrite length_firstn, length_app, repeat_length. lia. }
  exists bytes. split; [reflexivity|]. split.
  - change (String.length ("veth" +:+ hex_EncodeToString bytes))
      with (S (S (S (S (String.length (hex_EncodeToString bytes)))))).
    rewrite hex_EncodeToString_length, Hlen. reflexivity.
  - intros w' t' bytes'. unfold tempNic, bind, ask, ret.
    intros [= Hn Ht]. apply app_inv_head in Ht. injection Ht as Ht.
    subst bytes'. apply hex_EncodeToString_inj. exact Hn.
Qed.

End NicTemp.

(** ** Go primitives: joining and splitting *)

Lemma append_cons (c : ascii) (s t : string) : String c s +:+ t = String c (s +:+ t).
Proof. reflexivity. Qed.

Lemma append_nil (t : string) : "" +:+ t = t.
Proof. reflexivity. Qed.

Lemma Contains_app (s t : string) (sep : ascii) :
  Go.Contains (s +:+ t) sep = Go.Contains s sep || Go.Contains t sep.
Proof.
  induction s as [|c s IH]; [reflexivity|].
  rewrite append_cons. cbn [Go.Contains]. rewrite IH. apply orb_assoc.
Qed.

Lemma uint_no_sep (d : Decimal.uint) (sep : ascii) :
  Go.digit_val sep = None -> Go.Contains (NilEmpty.string_of_uint d) sep = false.
Proof.
  intros Hsep.
  induction d; cbn [NilEmpty.string_of_uint Go.Contains]; [reflexivity|..];
    rewrite IHd, orb_false_r;
    match goal with
    | |- Ascii.eqb ?c sep = false =>
        destruct (Ascii.eqb_spec c sep) as [<-|]; [vm_compute in Hsep; discriminate|reflexivity]
    end.
Qed.

Lemma itoa_no_sep (z : Z) (sep : ascii) :
  Go.digit_val sep = None -> Ascii.eqb "-" sep = false -> Go.Contains (Go.itoa z) sep = false.
Proof.
  intros Hsep Hminus. unfold Go.itoa.
  assert (Hu : forall d, Go.Contains (NilZero.string_of_uint d) sep = false).
  { intros d. destruct d; try apply (uint_no_sep _ _ Hsep).
    cbn [NilZero.string_of_uint Go.Contains].
    destruct (Ascii.eqb_spec "0" sep) as [<-|]; [vm_compute in Hsep; discriminate|reflexivity]. }
  destruct (Z.to_int z); cbn [NilZero.string_of_int Go.Contains]; [apply Hu|].
  rewrite Hminus, Hu. reflexivity.
Qed.

Lemma Split_no_sep (s : string) (sep : ascii) :
  Go.Contains s sep = false -> Go.Split s sep = [s].
Proof.
  induction s as [|c s IH]; cbn [Go.Contains Go.Split]; [reflexivity|].
  destruct (Ascii.eqb c sep); [discriminate|]. cbn [orb]. intros H. rewrite IH by exact H.
  reflexivity.
Qed.

Lemma Split_app_sep (s rest : string) (sep : ascii) :
  Go.Contains s sep = false ->
  Go.Split (s +:+ String sep rest) sep = s :: Go.Split rest sep.
Proof.
  induction s as [|c s IH]; cbn [Go.Contains].
  - intros _. rewrite append_nil. cbn [Go.Split]. rewrite Ascii.eqb_refl. reflexivity.
  - destruct (Ascii.eqb c sep) eqn:E; [discriminate|]. cbn [orb]. intros H.
    rewrite append_cons. cbn [Go.Split]. rewrite E, IH by exact H. reflexivity.
Qed.

Lemma Join_cons2 (a b : string) (l : list string) (sep : ascii) :
  Go.Join (a :: b :: l) (String sep "") = a +:+ String sep (Go.Join (b :: l) (String sep "")).
Proof. reflexivity. Qed.

(** Splitting a joined list gives the list back, when no element holds
    the separator. *)
Lemma Split_Join (l : list string) (sep : ascii) :
  l <> [] -> List.Forall (fun s => Go.Contains s sep = false) l ->
  Go.Split (Go.Join l (String sep "")) sep = l.
Proof.
  induction l as [|a [|b l] IH]; intros Hne Hall; [congruence| |].
  - apply List.Forall_inv in Hall. apply Split_no_sep, Hall.
  - rewrite Join_cons2, Split_app_sep by (apply List.Forall_inv in Hall; exact Hall).
    rewrite IH; [reflexivity|discriminate|]. apply List.Forall_inv_tail in Hall. exact Hall.
Qed.

Lemma ParseInt_32_in_range (s : string) (base z : Z) :
  0 <= base -> Go.ParseInt s base 32 = Ok z -> in_range z.
Proof.
  intros Hbase. unfold Go.ParseInt. destruct s as [|c rest]; [discriminate|].
  change (if 32 =? 0 then Go.int_bits else 32) with 32.
  cbv zeta.
  set (body := if (Ascii.eqb c "+" || Ascii.eqb c "-")%bool then rest else String c rest).
  destruct body as [|c' body']; [discriminate|].
  destruct (Go.parse_digits base (String c' body') 0) as [un|] eqn:Eun; [|discriminate].
  apply parse_digits_nonneg in Eun; [|lia|lia].
  change (2 ^ (32 - 1)) with 2147483648.
  destruct (Ascii.eqb c "-"); cbn [negb andb].
  - destruct (Z.ltb_spec 2147483648 un); [discriminate|].
    intros [= <-]. int_consts. lia.
  - destruct (Z.leb_spec 2147483648 un); [discriminate|].
    intros [= <-]. int_consts. lia.
Qed.

Lemma itoa_not_0660 (m : Z) : in_range m -> Go.itoa m <> "0660".
Proof.
  intros Hm E. pose proof (Atoi_itoa m Hm) as H. rewrite E in H.
  vm_compute in H. injection H as <-. vm_compute in E. discriminate.
Qed.

Lemma option_no_comma (key : string) (n : Z) :
  Go.Contains key "," = false -> Go.Contains (key +:+ Go.itoa n) "," = false.
Proof.
  intros Hk. rewrite Contains_app, Hk, itoa_no_sep by reflexivity. reflexivity.
Qed.

Lemma Ok_inj {A : Type} (a b : A) : @Ok A a = Ok b -> a = b.
Proof. congruence. Qed.

(** ** Mount options of a unix device *)

(** X18. When [devGetOptions] succeeds, the string it returns splits on
    commas into [bind], [create=file], then [uid=<n>] and [gid=<n>] for
    the owner ids given (each a decimal integer), then one mode option:
    [mode=0660] when no mode is given, and [mode=<m>] with the value of
    the octal mode printed in decimal when one is, which is never
    [mode=0660]. *)
Theorem devGetOptions_fields (d : gmap string string) (s : string) :
  devGetOptions d = Ok s ->
  exists uid_opt gid_opt mode_opt,
    Go.Split s "," = ["bind"; "create=file"] ++ uid_opt ++ gid_opt ++ [mode_opt] /\
    id_option "uid" (Go.get d "uid") uid_opt /\
    id_option "gid" (Go.get d "gid") gid_opt /\
    (Go.get d "mode" = "" -> mode_opt = "mode=0660") /\
    (Go.get d "mode" <> "" ->
       exists m, Go.ParseInt (Go.get d "mode") 8 32 = Ok m /\
         mode_opt = "mode=" +:+ Go.itoa m /\ mode_opt <> "mode=0660").
Proof.
  unfold devGetOptions, devModeOct.
  set (uid := Go.get d "uid"). set (gid := Go.get d "gid"). set (mode := Go.get d "mode").
  destruct (streq_spec uid "") as [Eu|Eu]; cbn [negb];
    [|destruct (Go.Atoi uid) as [u|] eqn:Au; [|discriminate]];
    (destruct (streq_spec gid "") as [Eg|Eg]; cbn [negb];
       [|destruct (Go.Atoi gid) as [g|] eqn:Ag; [|discriminate]]);
    (destruct (streq_spec mode "") as [Em|Em]; cbn [negb];
       [|destruct (Go.ParseInt mode 8 32) as [m|] eqn:Am; [|discriminate]]);
    intros H; apply Ok_inj in H; subst s.
  all: subst uid gid mode; cbn [app].
  all: match goal with
       | |- exists _ _ _, Go.Split (Go.Join ?l ",") "," = _ /\ _ =>
           assert (Hs : Go.Split (Go.Join l ",") "," = l)
             by (apply Split_Join; [discriminate|
                   repeat (apply List.Forall_cons;
                           [first [reflexivity | apply option_no_comma; reflexivity]|]);
                   apply List.Forall_nil]);
           rewrite Hs; clear Hs
       end.
  all: match goal with
       | |- exists _ _ _, [_; _; ?a; ?b; ?c] = _ /\ _ => exists [a], [b], c
       | |- exists _ _ _, [_; _; ?a; ?c] = _ /\ _ =>
           lazymatch goal with
           | _ : Go.get _ "uid" = "" |- _ => exists [], [a], c
           | _ => exists [a], [], c
           end
       | |- exists _ _ _, [_; _; ?c] = _ /\ _ => exists [], [], c
       end.
  all: (split; [reflexivity|]).
  all: (split;
        [first [ left; split; [assumption|reflexivity]
               | right; eexists; split; [eassumption|reflexivity] ]|]).
  all: (split;
        [first [ left; split; [assumption|reflexivity]
               | right; eexists; split; [eassumption|reflexivity] ]|]).
  all: split; [first [reflexivity | (intros; congruence)]|].
  all: first [ (intros; congruence) | intros _ ].
  all: exists m; split; [reflexivity|]; split; [reflexivity|].
  all: intros E; apply (String.app_inj "mode=") in E;
       apply (itoa_not_0660 m); [eapply (ParseInt_32_in_range _ 8 m); [lia|exact Am]|exact E].
Qed.

Lemma devGetOptions_fields_witness :
  exists uid_opt gid_opt mode_opt,
    Go.Split "bind,create=file,uid=1000,mode=432" ","
      = ["bind"; "create=file"] ++ uid_opt ++ gid_opt ++ [mode_opt] /\
    mode_opt <> "mode=0660".
Proof.
  assert (E : devGetOptions {[ "uid" := "1000"; "mode" := "0660" ]}
               = Ok "bind,create=file,uid=1000,mode=432") by (vm_compute; reflexivity).
  destruct (devGetOptions_fields _ _ E) as (u & g & m & H & _ & _ & _ & Hm).
  exists u, g, m. split; [exact H|].
  destruct Hm as (x & _ & _ & Hne); [vm_compute; discriminate|exact Hne].
Defined.

(** ** LXC configuration lines of a device *)

Lemma substring_0_0 (s : string) : String.substring 0 0 s = "".
Proof. destruct s; reflexivity. Qed.

Lemma substring_0_length (s : string) : String.substring 0 (String.length s) s = s.
Proof.
  induction s as [|c s IH]; cbn [String.length String.substring]; [reflexivity|].
  rewrite IH. reflexivity.
Qed.

Lemma deviceCgroupInfo_nonempty (os : os_env) (dev : gmap string string) (s : string) :
  deviceCgroupInfo os dev = Ok s -> s <> "".
Proof.
  unfold deviceCgroupInfo.
  destruct (Go.get dev "type" =s "unix-char");
    [|destruct (Go.get dev "type" =s "unix-block"); [|discriminate]].
  all: match goal with
       | |- match ?x with _ => _ end = _ -> _ => destruct x as [[major minor]|]; [|discriminate]
       end;
       destruct (devModeString (Go.get dev "mode")); [|discriminate];
       intros H; apply Ok_inj in H; subst s; discriminate.
Qed.

(** X19. [deviceToLxc] and [setupNic] make the same checks on a nic: one
    fails with an error exactly when the initial checks of the other fail
    with that error, in which case [setupNic] returns it at once, the
    device map and the trace untouched.  The first line of an accepted nic
    is its network type: [veth] for bridged and p2p, [phys] for physical,
    [macvlan] for macvlan. *)
Theorem deviceToLxc_nic_checks (fs : disk_env) (os : os_env) (cntPath : string)
    (d : gmap string string) :
  Go.get d "type" = "nic" ->
  (forall e, deviceToLxc fs os cntPath d = Err e <-> Live.nic_checks d = Err e) /\
  (forall e w c name t,
     deviceToLxc fs os cntPath d = Err e ->
     Live.setupNic w c name d t = ((d, Err e), t)) /\
  (forall lines, deviceToLxc fs os cntPath d = Ok lines ->
     exists ty rest, lines = ["lxc.network.type"; ty] :: rest /\
       (ty = "veth" /\ (Go.get d "nictype" = "bridged" \/ Go.get d "nictype" = "p2p") \/
        ty = "phys" /\ Go.get d "nictype" = "physical" \/
        ty = "macvlan" /\ Go.get d "nictype" = "macvlan")).
Proof.
  intros Ht.
  assert (Hiff : forall e, deviceToLxc fs os cntPath d = Err e <-> Live.nic_checks d = Err e).
  { intros e. unfold deviceToLxc, Live.nic_checks. rewrite Ht.
    change ("nic" =s "unix-char") with false. change ("nic" =s "unix-block") with false.
    change ("nic" =s "nic") with true. cbv iota.
    destruct (Go.get d "nictype" =s "");
      [split; intros H; injection H as <-; reflexivity|].
    destruct (negb (Go.StringInSlice (Go.get d "nictype")
                      ["bridged"; "physical"; "p2p"; "macvlan"]));
      [split; intros H; injection H as <-; reflexivity|].
    destruct (Go.StringInSlice (Go.get d "nictype") ["bridged"; "physical"; "macvlan"]
              && (Go.get d "parent" =s "")); [split; intros H; injection H as <-; reflexivity|].
    split; discriminate. }
  split; [exact Hiff|]. split.
  - intros e w c name t He. apply Hiff in He. unfold Live.setupNic. rewrite He. reflexivity.
  - intros lines. unfold deviceToLxc. rewrite Ht.
    change ("nic" =s "unix-char") with false. change ("nic" =s "unix-block") with false.
    change ("nic" =s "nic") with true. cbv iota.
    generalize (Go.get d "nictype") (Go.get d "parent") (Go.get d "hwaddr")
      (Go.get d "mtu") (Go.get d "name").
    intros nictype parent hwaddr mtu name.
    unfold Go.StringInSlice. cbn [existsb].
    destruct (streq_spec nictype ""); [discriminate|].
    destruct (streq_spec nictype "bridged") as [->|];
      [|destruct (streq_spec nictype "physical") as [->|];
        [|destruct (streq_spec nictype "p2p") as [->|];
          [|destruct (streq_spec nictype "macvlan") as [->|]; [|discriminate]]]];
      cbn [orb negb andb app];
      repeat match goal with
             | |- context [ ?a =s ?b ] => destruct (streq_spec a b)
             end;
      try congruence;
      cbn [orb negb andb app]; intros H; try discriminate H;
      apply Ok_inj in H; subst lines; eexists _, _; (split; [reflexivity|]);
      first [ left; split; [reflexivity|first [left; reflexivity|right; reflexivity]]
            | right; left; split; reflexivity
            | right; right; split; reflexivity ].
Qed.

Lemma deviceToLxc_nic_checks_witness :
  deviceToLxc fs_plain os_no_stat "/c" {[ "type" := "nic"; "nictype" := "bridged" ]}
    = Err (Errorf "Missing parent for bridged type nic.")
  <-> Live.nic_checks {[ "type" := "nic"; "nictype" := "bridged" ]}
    = Err (Errorf "Missing parent for bridged type nic.").
Proof.
  exact (proj1 (deviceToLxc_nic_checks fs_plain os_no_stat "/c"
                  {[ "type" := "nic"; "nictype" := "bridged" ]} eq_refl)
           (Errorf "Missing parent for bridged type nic.")).
Defined.

(** X20. Unless the device is a disk on a block device (whose line comes
    from [mountTmpBlockdev]), every line that [deviceToLxc] returns is a
    key and a value, neither of them empty, and no key comes twice. *)
Theorem deviceToLxc_lines (fs : disk_env) (os : os_env) (cntPath : string)
    (d : gmap string string) (lines : list (list string)) :
  (Go.get d "type" = "disk" -> IsBlockdevPath fs (Go.get d "source") = false) ->
  deviceToLxc fs os cntPath d = Ok lines ->
  List.Forall key_value lines /\ List.NoDup (map line_key lines).
Proof.
  intros Hblock. unfold deviceToLxc, unixDevCgroup.
  assert (Hunix : forall r : result (list (list string)),
            r = match deviceCgroupInfo os d with
                | Err e => Err e
                | Ok devcg => Ok [["lxc.cgroup.devices.allow"; devcg]]
                end ->
            r = Ok lines ->
            List.Forall key_value lines /\ List.NoDup (map line_key lines)).
  { intros r -> . destruct (deviceCgroupInfo os d) as [devcg|] eqn:E; [|discriminate].
    intros H. apply Ok_inj in H. subst lines. split.
    - constructor; [|constructor]. exists "lxc.cgroup.devices.allow", devcg.
      split; [reflexivity|]. split; [discriminate|]. eapply deviceCgroupInfo_nonempty, E.
    - cbn. constructor; [intros []|constructor]. }
  destruct (streq_spec (Go.get d "type") "unix-char"); [apply Hunix; reflexivity|].
  destruct (streq_spec (Go.get d "type") "unix-block"); [apply Hunix; reflexivity|].
  clear Hunix.
  destruct (streq_spec (Go.get d "type") "nic").
  { generalize (Go.get d "nictype") (Go.get d "parent") (Go.get d "hwaddr")
      (Go.get d "mtu") (Go.get d "name").
    intros nictype parent hwaddr mtu name.
    unfold Go.StringInSlice. cbn [existsb].
    destruct (streq_spec nictype ""); [discriminate|].
    destruct (streq_spec nictype "bridged") as [->|];
      [|destruct (streq_spec nictype "physical") as [->|];
        [|destruct (streq_spec nictype "p2p") as [->|];
          [|destruct (streq_spec nictype "macvlan") as [->|]; [|discriminate]]]];
      cbn [orb negb andb app];
      repeat match goal with
             | |- context [ ?a =s ?b ] => destruct (streq_spec a b)
             end;
      try congruence;
      cbn [orb negb andb app]; intros H; try discriminate H;
      apply Ok_inj in H; subst lines;
      (split;
       [repeat (apply List.Forall_cons;
                [eexists _, _; split; [reflexivity|]; split;
                 [discriminate|first [discriminate|assumption]]|]);
        apply List.Forall_nil
       |cbn [map line_key hd];
        repeat (apply List.NoDup_cons; [cbn [In]; intuition discriminate|]);
        apply List.NoDup_nil]). }
  destruct (streq_spec (Go.get d "type") "disk") as [Hd|].
  { rewrite (Hblock Hd).
    intros H. apply Ok_inj in H. subst lines. split.
    - constructor; [|constructor]. eexists _, _. split; [reflexivity|].
      split; [discriminate|].
      intros E. apply (f_equal String.length) in E. revert E.
      generalize (Go.get d "source"). intros src.
      induction src as [|c src IH]; [|discriminate]. discriminate.
    - cbn. constructor; [intros []|constructor]. }
  destruct (Go.get d "type" =s "none"); [|discriminate].
  intros H. apply Ok_inj in H. subst lines. split; constructor.
Qed.

Lemma deviceToLxc_lines_witness :
  List.Forall key_value
    [["lxc.network.type"; "macvlan"]; ["lxc.network.macvlan.mode"; "bridge"];
     ["lxc.network.link"; "eth0"]; ["lxc.network.name"; "eth1"]] /\
  List.NoDup (map line_key
    [["lxc.network.type"; "macvlan"]; ["lxc.network.macvlan.mode"; "bridge"];
     ["lxc.network.link"; "eth0"]; ["lxc.network.name"; "eth1"]]).
Proof.
  apply (deviceToLxc_lines fs_plain os_no_stat "/c"
           {[ "type" := "nic"; "nictype" := "macvlan"; "parent" := "eth0";
              "name" := "eth1" ]}).
  - intros H. vm_compute in H. discriminate H.
  - vm_compute. reflexivity.
Defined.

(** X21. For a disk whose source is not a block device [deviceToLxc] never
    fails, whatever the attributes (an empty source or path included): it
    returns one [lxc.mount.entry] line ["<source> <target> none <options>
    0 0"], where the target is the path without one leading slash and the
    options always start with [bind,create=]; the fall-back [defaults] is
    never used. *)
Theorem deviceToLxc_disk (fs : disk_env) (os : os_env) (cntPath : string)
    (d : gmap string string) :
  Go.get d "type" = "disk" -> IsBlockdevPath fs (Go.get d "source") = false ->
  exists p opts,
    deviceToLxc fs os cntPath d =
      Ok [["lxc.mount.entry";
           Go.get d "source" +:+ " " +:+ p +:+ " none " +:+ opts +:+ " 0 0"]] /\
    Go.HasPrefix opts "bind,create=" = true /\
    (Go.get d "path" = "/" +:+ p \/ (Go.get d "path" = p /\ Go.HasPrefix p "/" = false)).
Proof.
  intros Ht Hb. unfold deviceToLxc. rewrite Ht, Hb.
  change ("disk" =s "unix-char") with false. change ("disk" =s "unix-block") with false.
  change ("disk" =s "nic") with false. change ("disk" =s "disk") with true. cbv iota.
  eexists _, _. split; [reflexivity|]. split.
  - destruct (IsDir fs (Go.get d "source"));
      destruct ((Go.get d "readonly" =s "1") || (Go.get d "readonly" =s "true"));
      destruct ((Go.get d "optional" =s "1") || (Go.get d "optional" =s "true"));
      reflexivity.
  - generalize (Go.get d "path"). intros path.
    destruct (streq_spec path "/") as [->|Hs]; [left; reflexivity|].
    destruct (streq_spec path "") as [->|He]; [right; split; reflexivity|].
    cbn [orb]. destruct path as [|c rest]; [congruence|].
    unfold Go.substr. cbn [String.substring String.length Nat.sub].
    rewrite substring_0_0, Nat.sub_0_r, substring_0_length.
    destruct (streq_spec (String c "") "/") as [[= ->]|Hc].
    + left. reflexivity.
    + right. split; [reflexivity|].
      unfold Go.HasPrefix. cbn [String.prefix].
      destruct (ascii_dec "/" c) as [<-|]; [congruence|reflexivity].
Qed.

Lemma deviceToLxc_disk_witness :
  exists p opts,
    deviceToLxc fs_plain os_no_stat "/c"
      {[ "type" := "disk"; "path" := "/mnt/x"; "source" := "/src" ]} =
      Ok [["lxc.mount.entry";
           Go.get {[ "type" := "disk"; "path" := "/mnt/x"; "source" := "/src" ]} "source"
             +:+ " " +:+ p +:+ " none " +:+ opts +:+ " 0 0"]] /\
    Go.HasPrefix opts "bind,create=" = true /\
    (Go.get {[ "type" := "disk"; "path" := "/mnt/x"; "source" := "/src" ]} "path"
       = "/" +:+ p \/
     (Go.get {[ "type" := "disk"; "path" := "/mnt/x"; "source" := "/src" ]} "path" = p /\
      Go.HasPrefix p "/" = false)).
Proof.
  exact (deviceToLxc_disk fs_plain os_no_stat "/c"
           {[ "type" := "disk"; "path" := "/mnt/x"; "source" := "/src" ]}
           eq_refl eq_refl).
Defined.

(** X29. The validator and the translator agree on the types of a nic:
    [validDeviceConfig] accepts a value for [nictype] exactly when
    [deviceToLxc] rejects a nic of that type neither as lacking a type
    nor as having a bad one. *)
Theorem nic_types_accepted_alike (fs : disk_env) (os : os_env) (cntPath : string)
    (d : gmap string string) :
  Go.get d "type" = "nic" ->
  (validDeviceConfig "nic" "nictype" (Go.get d "nictype") = true <->
   deviceToLxc fs os cntPath d <> Err (Errorf "Missing nic type") /\
   deviceToLxc fs os cntPath d <> Err (Errorf ("Bad nic type: " +:+ Go.get d "nictype"))).
Proof.
  intros Ht. unfold deviceToLxc. rewrite Ht.
  change ("nic" =s "unix-char") with false. change ("nic" =s "unix-block") with false.
  change ("nic" =s "nic") with true. cbv iota.
  change (validDeviceConfig "nic" "nictype" (Go.get d "nictype"))
    with (Go.StringInSlice (Go.get d "nictype") ["physical"; "bridged"; "p2p"; "macvlan"]).
  generalize (Go.get d "nictype") (Go.get d "parent") (Go.get d "hwaddr")
    (Go.get d "mtu") (Go.get d "name").
  intros nictype parent hwaddr mtu name.
  unfold Go.StringInSlice. cbn [existsb].
  destruct (streq_spec nictype "") as [->|Hne].
  { split; [discriminate|intros [H _]; congruence]. }
  destruct (streq_spec nictype "bridged") as [->|];
    [|destruct (streq_spec nictype "physical") as [->|];
      [|destruct (streq_spec nictype "p2p") as [->|];
        [|destruct (streq_spec nictype "macvlan") as [->|]]]];
    cbn [orb negb andb app].
  5:{ split; [discriminate|intros [_ H]; congruence]. }
  all: split; [intros _|reflexivity].
  all: repeat match goal with
              | |- context [ ?a =s ?b ] => destruct (streq_spec a b)
              end; try congruence; cbn [orb negb andb app]; split; discriminate.
Qed.

Lemma nic_types_accepted_alike_witness :
  validDeviceConfig "nic" "nictype"
    (Go.get {[ "type" := "nic"; "nictype" := "p2p" ]} "nictype") = true <->
  deviceToLxc fs_plain os_no_stat "/c" {[ "type" := "nic"; "nictype" := "p2p" ]}
    <> Err (Errorf "Missing nic type") /\
  deviceToLxc fs_plain os_no_stat "/c" {[ "type" := "nic"; "nictype" := "p2p" ]}
    <> Err (Errorf ("Bad nic type: "
                    +:+ Go.get {[ "type" := "nic"; "nictype" := "p2p" ]} "nictype")).
Proof.
  exact (nic_types_accepted_alike fs_plain os_no_stat "/c"
           {[ "type" := "nic"; "nictype" := "p2p" ]} eq_refl).
Defined.

(** ** Live Device Delta Engine: the commands of [setupNic] *)

Module LiveMore.
Import Live LiveSpec LiveTrace LiveProps.

Lemma only_ret {A : Type} (P : event -> Prop) (a : A) : only P (ret a).
Proof. apply traces_ret. constructor. Qed.

Lemma only_bind {A B : Type} (P : event -> Prop) (m : M A) (k : A -> M B) :
  only P m -> (forall a, only P (k a)) -> only P (bind m k).
Proof.
  intros Hm Hk. eapply traces_bind; [exact Hm|].
  intros a evs1 H1. eapply traces_weaken; [apply Hk|].
  intros b evs2 H2. apply List.Forall_app. split; assumption.
Qed.

Lemma only_ask {A : Type} (P : event -> Prop) (answer : list event -> A) (ev : A -> event) :
  (forall a, P (ev a)) -> only P (ask answer ev).
Proof. intros H. apply traces_ask. intros a. constructor; [apply H|constructor]. Qed.

Lemma only_weaken {A : Type} (P P' : event -> Prop) (m : M A) :
  (forall e, P e -> P' e) -> only P m -> only P' m.
Proof.
  intros HP Hm. eapply traces_weaken; [exact Hm|].
  intros a evs H. eapply List.Forall_impl; [exact HP|exact H].
Qed.

Lemma only_nextUnusedNic (w : world) : only no_command (nextUnusedNic w).
Proof.
  apply only_bind; [apply only_ask; intros ?; exact I|].
  intros [list|e]; [|apply only_ret].
  destruct (length list =? 0)%nat; apply only_ret.
Qed.

Lemma only_setupNic_hwaddr (w : world) (c : instance) (name : string)
    (d : gmap string string) : only no_command (setupNic_hwaddr w c name d).
Proof.
  unfold setupNic_hwaddr. cbv zeta.
  destruct (_ =s ""); [|apply only_ret].
  apply only_bind; [apply only_ask; intros ?; exact I|].
  intros [hwaddr|e]; [|apply only_ret].
  destruct (negb _); [|apply only_ret].
  apply only_bind; [apply only_ask; intros ?; exact I|].
  intros [?|?]; apply only_ret.
Qed.

Lemma no_command_ip_link (e : event) : no_command e -> ip_link_only e.
Proof. intros H argv r ->. destruct H. Qed.

Lemma only_ip_exec (w : world) (args : list string) :
  only ip_link_only (exec w ("ip" :: "link" :: args)).
Proof. apply only_ask. intros r argv r' [= <- _]. eauto. Qed.

Lemma only_ip_removeInterface (w : world) (nic : string) :
  only ip_link_only (removeInterface w nic).
Proof. apply only_bind; [apply only_ip_exec|intros; apply only_ret]. Qed.

Lemma only_ip_tempNic (w : world) : only ip_link_only (tempNic w).
Proof.
  apply only_bind; [|intros; apply only_ret].
  apply only_ask. intros a argv r. discriminate.
Qed.

Lemma only_ip_setupNic_create (w : world) (d : gmap string string) :
  only ip_link_only (setupNic_create w d).
Proof.
  unfold setupNic_create. cbv zeta.
  apply only_bind.
  - destruct (Go.StringInSlice (Go.get d "nictype") ["bridged"; "p2p"]) eqn:Es;
      [|apply only_ret].
    apply only_bind; [apply only_ip_tempNic|]. intros n1.
    apply only_bind; [apply only_ip_tempNic|]. intros n2.
    apply only_bind; [apply only_ip_exec|].
    intros [?|?]; [|apply only_ret].
    destruct (streq_spec (Go.get d "nictype") "bridge") as [Eb|]; [|apply only_ret].
    rewrite Eb in Es. discriminate Es.
  - intros [dev|e]; [|apply only_ret].
    destruct (_ =s "macvlan"); [|apply only_ret].
    apply only_bind; [apply only_ip_tempNic|]. intros n1.
    apply only_bind; [apply only_ip_exec|].
    intros [?|?]; apply only_ret.
Qed.

(** X22. Every command that [setupNic] runs is an [ip link ...] command.
    In particular [brctl addif] is never run: the test
    [d["nictype"] == "bridge"] that guards it stands where the type is
    ["bridged"] or ["p2p"], so the host end of a bridged nic is not put
    into the parent bridge. *)
Theorem setupNic_runs_only_ip_link (w : world) (c : instance) (name : string)
    (d : gmap string string) (t : list event) :
  exists res evs,
    setupNic w c name d t = (res, t ++ evs) /\
    forall argv r, In (EExec argv r) evs -> exists args, argv = "ip" :: "link" :: args.
Proof.
  assert (H : only ip_link_only (setupNic w c name d)).
  { unfold setupNic. destruct (nic_checks d); [|apply only_ret].
    apply only_bind.
    { destruct (_ =s ""); [|apply only_ret].
      apply only_bind; [|intros; apply only_ret].
      eapply only_weaken; [apply no_command_ip_link|apply only_nextUnusedNic]. }
    intros d1. apply only_bind.
    { eapply only_weaken; [apply no_command_ip_link|apply only_setupNic_hwaddr]. }
    intros [hwaddr|e]; [|apply only_ret].
    apply only_bind; [apply only_ip_setupNic_create|].
    intros [dev|e]; [|apply only_ret].
    apply only_bind; [apply only_ip_exec|].
    intros [?|?]; [|apply only_bind; [apply only_ip_removeInterface|intros; apply only_ret]].
    apply only_bind; [apply only_ip_exec|].
    intros [?|?]; [apply only_ret|].
    apply only_bind; [apply only_ip_removeInterface|intros; apply only_ret]. }
  destruct (H t) as (res & evs & E & Hall). exists res, evs. split; [exact E|].
  intros argv r Hin. rewrite List.Forall_forall in Hall. exact (Hall _ Hin argv r eq_refl).
Qed.

Lemma setupNic_create_physical (w : world) (d : gmap string string) :
  Go.get d "nictype" = "physical" ->
  setupNic_create w d = ret (Ok (Go.get d "parent")).
Proof. intros H. unfold setupNic_create. rewrite H. reflexivity. Qed.

Lemma get_insert_ne (d : gmap string string) (k k' v : string) :
  k <> k' -> Go.get (<[k := v]> d) k' = Go.get d k'.
Proof. intros H. unfold Go.get. rewrite lookup_insert_ne by exact H. reflexivity. Qed.

Lemma no_command_not_failed (e : event) (dev : string) : no_command e -> ~ failed_step dev e.
Proof.
  intros H [(? & ? & ->)|[(? & ->)|(? & ? & ->)]]; exact H.
Qed.

Lemma no_command_not_exec (e : event) (argv : list string) (r : result unit) :
  no_command e -> e <> EExec argv r.
Proof. intros H ->. exact H. Qed.
Lemma setupNic_physical_trace (w : world) (c : instance) (name : string)
    (d : gmap string string) :
  Go.get d "nictype" = "physical" ->
  traces (setupNic w c name d) (fun _ evs => physical_trace (Go.get d "parent") evs).
Proof.
  intros Hp. unfold setupNic.
  destruct (nic_checks d).
  2:{ apply traces_ret. exists [], []. split; [reflexivity|]. split; [constructor|auto]. }
  eapply traces_bind with
    (Q1 := fun d1 evs => List.Forall no_command evs /\
                         Go.get d1 "nictype" = "physical" /\
                         Go.get d1 "parent" = Go.get d "parent").
  { destruct (_ =s "").
    - eapply traces_bind; [apply only_nextUnusedNic|].
      intros n evs1 H1. apply traces_ret. rewrite app_nil_r.
      rewrite !get_insert_ne by discriminate. auto.
    - apply traces_ret. split; [constructor|auto]. }
  intros d1 evs1 (H1 & Hn1 & Hp1).
  eapply traces_bind; [apply only_setupNic_hwaddr|].
  intros [hwaddr|e] evs2 H2.
  2:{ apply traces_ret. exists (evs1 ++ evs2 ++ []), [].
      rewrite !app_nil_r. split; [reflexivity|].
      split; [apply List.Forall_app; auto|auto]. }
  rewrite (setupNic_create_physical w d1 Hn1), Hp1.
  set (parent := Go.get d "parent").
  intros t. cbv [bind ret exec removeInterface ask].
  assert (Hpre : List.Forall no_command (evs1 ++ evs2)) by (apply List.Forall_app; auto).
  destruct (exec_Run w t ["ip"; "link"; "set"; "dev"; parent; "address"; hwaddr])
    as [[]|err] eqn:E1.
  - destruct (exec_Run w
                (t ++ [EExec ["ip"; "link"; "set"; "dev"; parent; "address"; hwaddr] (Ok ())])
                ["ip"; "link"; "set"; "dev"; parent; "up"]) as [[]|err] eqn:E2.
    + eexists _, [_; _]. rewrite <- !app_assoc. cbn [app]. split; [reflexivity|].
      exists (evs1 ++ evs2), [EExec ["ip"; "link"; "set"; "dev"; parent; "address"; hwaddr] (Ok ());
                               EExec ["ip"; "link"; "set"; "dev"; parent; "up"] (Ok ())].
      rewrite <- !app_assoc. split; [reflexivity|]. split; [exact Hpre|].
      right. right. right. eauto.
    + cbv [bind ret exec removeInterface ask]. eexists _, [_; _; _].
      rewrite <- !app_assoc. cbn [app]. split; [reflexivity|].
      eexists (evs1 ++ evs2), [_; _; _].
      rewrite <- !app_assoc. split; [reflexivity|]. split; [exact Hpre|].
      right. right. left. eauto.
  - cbv [bind ret exec removeInterface ask]. eexists _, [_; _].
    rewrite <- !app_assoc. cbn [app]. split; [reflexivity|].
    eexists (evs1 ++ evs2), [_; _].
    rewrite <- !app_assoc. split; [reflexivity|]. split; [exact Hpre|].
    right. left. eauto.
Qed.

(** X23. For a physical nic [setupNic] adds no link, and when assigning
    the MAC address or bringing the interface up fails, the interface the
    failed step was on is the parent itself and the last command run is
    [ip link del <parent>]: the clean-up deletes the host interface that
    was to be passed to the instance. *)
Theorem physical_nic_failure_deletes_parent (w : world) (c : instance) (name : string)
    (d : gmap string string) (t : list event) :
  Go.get d "nictype" = "physical" ->
  exists res evs,
    setupNic w c name d t = (res, t ++ evs) /\
    (forall args r, ~ In (EExec ("ip" :: "link" :: "add" :: args) r) evs) /\
    (forall e dev, In e evs -> failed_step dev e ->
       dev = Go.get d "parent" /\
       exists r, last evs = Some (EExec ["ip"; "link"; "del"; Go.get d "parent"] r)).
Proof.
  intros Hp.
  destruct (setupNic_physical_trace w c name d Hp t)
    as (res & evs & E & pre & tail & -> & Hpre & Htail).
  exists res, (pre ++ tail). split; [exact E|].
  rewrite List.Forall_forall in Hpre. split.
  - intros args r Hin. apply in_app_or in Hin. destruct Hin as [Hin|Hin].
    + exact (no_command_not_exec _ _ _ (Hpre _ Hin) eq_refl).
    + destruct Htail as [->|[(hw & err & r' & ->)|[(hw & err & r' & ->)|(hw & ->)]]];
        cbn [In] in Hin; intuition discriminate.
  - intros e dev Hin Hf. apply in_app_or in Hin. destruct Hin as [Hin|Hin].
    { exfalso. exact (no_command_not_failed _ _ (Hpre _ Hin) Hf). }
    destruct Htail as [->|[(hw & err & r' & ->)|[(hw & err & r' & ->)|(hw & ->)]]];
      cbn [In] in Hin.
    + destruct Hin.
    + destruct Hin as [<-|[<-|[]]].
      * split.
        -- destruct Hf as [(? & ? & [= -> _])|[(? & [=])|(? & ? & [=])]]. reflexivity.
        -- exists r'. rewrite last_app. reflexivity.
      * exfalso. destruct Hf as [(? & ? & [=])|[(? & [=])|(? & ? & [=])]].
    + destruct Hin as [<-|[<-|[<-|[]]]].
      * exfalso. destruct Hf as [(? & ? & [=])|[(? & [=])|(? & ? & [=])]].
      * split.
        -- destruct Hf as [(? & ? & [=])|[(? & [= ->])|(? & ? & [=])]]. reflexivity.
        -- exists r'. rewrite last_app. reflexivity.
      * exfalso. destruct Hf as [(? & ? & [=])|[(? & [=])|(? & ? & [=])]].
    + exfalso. destruct Hin as [<-|[<-|[]]];
        destruct Hf as [(? & ? & [=])|[(? & [=])|(? & ? & [=])]].
Qed.

Lemma physical_nic_failure_deletes_parent_witness :
  exists res evs,
    setupNic world_mac_fails one_instance "net1" one_physical [] = (res, [] ++ evs) /\
    (forall args r, ~ In (EExec ("ip" :: "link" :: "add" :: args) r) evs) /\
    (forall e dev, In e evs -> failed_step dev e ->
       dev = Go.get one_physical "parent" /\
       exists r, last evs = Some (EExec ["ip"; "link"; "del"; Go.get one_physical "parent"] r)).
Proof.
  exact (physical_nic_failure_deletes_parent world_mac_fails one_instance "net1"
           one_physical [] eq_refl).
Defined.

End LiveMore.

(** ** CPU Balancer: the counters count the assignments *)

Lemma assigned_empty (s : string) : assigned s ∅ = 0%nat.
Proof. unfold assigned. rewrite map_to_list_empty. reflexivity. Qed.

Lemma assigned_insert_fresh (s : string) (ctn : nat) (l : list string)
    (p : gmap nat (list string)) :
  p !! ctn = None ->
  assigned s (<[ctn := l]> p) = (count_occ string_dec l s + assigned s p)%nat.
Proof.
  intros H. unfold assigned. rewrite (map_to_list_insert p ctn l H). reflexivity.
Qed.

Lemma assigned_insert (s : string) (ctn : nat) (l0 l : list string)
    (p : gmap nat (list string)) :
  p !! ctn = Some l0 ->
  (assigned s (<[ctn := l]> p) + count_occ string_dec l0 s
   = assigned s p + count_occ string_dec l s)%nat.
Proof.
  intros H.
  rewrite <- (insert_delete_eq p ctn l).
  rewrite assigned_insert_fresh by apply lookup_delete_eq.
  rewrite <- (insert_delete_id p ctn l0 H) at 2.
  rewrite assigned_insert_fresh by apply lookup_delete_eq. lia.
Qed.

Lemma assigned_pin_add (s : string) (ctn : nat) (sid : string) (p : gmap nat (list string)) :
  assigned s (pin_add ctn sid p)
  = (assigned s p + (if string_dec sid s then 1 else 0))%nat.
Proof.
  unfold pin_add. destruct (p !! ctn) as [l|] eqn:E.
  - pose proof (assigned_insert s ctn l (l ++ [sid]) p E) as H.
    rewrite count_occ_app in H. cbn [count_occ] in H.
    destruct (string_dec sid s); lia.
  - rewrite assigned_insert_fresh by exact E. cbn [count_occ].
    destruct (string_dec sid s); lia.
Qed.

Lemma assigned_pin_all (s : string) (ctn : nat) (ids : list string) :
  forall p, assigned s (pin_all ctn ids p) = (assigned s p + count_occ string_dec ids s)%nat.
Proof.
  unfold pin_all. induction ids as [|x ids IH]; intros p; cbn [fold_left count_occ]; [lia|].
  rewrite IH, assigned_pin_add. destruct (string_dec x s); lia.
Qed.

Lemma wrap_succ (x : Z) : Go.wrap (Go.wrap x + 1) = Go.wrap (x + 1).
Proof.
  unfold Go.wrap.
  replace ((x + 2 ^ (Go.int_bits - 1)) mod 2 ^ Go.int_bits - 2 ^ (Go.int_bits - 1) + 1
           + 2 ^ (Go.int_bits - 1))
    with ((x + 2 ^ (Go.int_bits - 1)) mod 2 ^ Go.int_bits + 1) by lia.
  rewrite Zplus_mod_idemp_l. f_equal. f_equal. lia.
Qed.

Lemma counted_incr (c : deviceTaskCPU) (n : nat) :
  count c = Go.wrap (Z.of_nat n) -> count (incr c) = Go.wrap (Z.of_nat (n + 1)).
Proof.
  intros H. cbn [incr count]. rewrite H, wrap_succ. f_equal. lia.
Qed.

Lemma NoDup_strId_index (u : list deviceTaskCPU) (j k : nat) (a b : deviceTaskCPU) :
  List.NoDup (map strId u) -> nth_error u j = Some a -> nth_error u k = Some b ->
  strId a = strId b -> j = k.
Proof.
  intros Hnd Ha Hb E.
  apply (proj1 (List.NoDup_nth_error (map strId u)) Hnd).
  - rewrite length_map. apply nth_error_Some. congruence.
  - rewrite !nth_error_map, Ha, Hb. cbn. congruence.
Qed.

Lemma nth_error_alter_eq {A : Type} (f : A -> A) (u : list A) (k : nat) :
  nth_error (alter f k u) k = option_map f (nth_error u k).
Proof.
  revert k. induction u as [|x u IH]; intros [|k]; cbn; try reflexivity. apply IH.
Qed.

Lemma nth_error_alter_ne {A : Type} (f : A -> A) (u : list A) (j k : nat) :
  j <> k -> nth_error (alter f k u) j = nth_error u j.
Proof.
  revert j k. induction u as [|x u IH]; intros [|j] [|k] H; cbn; try reflexivity;
    try congruence. apply IH. congruence.
Qed.

(** One assignment of the fixed stage keeps the counters exact. *)
Lemma counted_fixed_step (u : list deviceTaskCPU) (p : gmap nat (list string))
    (k : nat) (entry : deviceTaskCPU) (ctn : nat) :
  List.NoDup (map strId u) -> nth_error u k = Some entry -> counted u p ->
  counted (alter incr k u) (pin_add ctn (strId entry) p).
Proof.
  intros Hnd Hk Hc c Hin. apply In_nth_error in Hin. destruct Hin as [j Hj].
  rewrite assigned_pin_add.
  destruct (Nat.eq_dec j k) as [->|Hne].
  - rewrite nth_error_alter_eq, Hk in Hj. injection Hj as <-.
    cbn [strId incr]. destruct (string_dec (strId entry) (strId entry)); [|congruence].
    apply counted_incr, Hc. eapply nth_error_In, Hk.
  - rewrite nth_error_alter_ne in Hj by exact Hne.
    destruct (string_dec (strId entry) (strId c)) as [E|_].
    + exfalso. apply Hne. eapply NoDup_strId_index; eauto.
    + rewrite Nat.add_0_r. apply Hc. eapply nth_error_In, Hj.
Qed.

Lemma counted_fixed_fold (k : nat) (sid : string) (ctns : list nat) :
  forall (u : list deviceTaskCPU) (p : gmap nat (list string)) (entry : deviceTaskCPU),
    List.NoDup (map strId u) -> nth_error u k = Some entry -> strId entry = sid ->
    counted u p ->
    let st' := fold_left (fun '(usage, pinning) ctn =>
                            (alter incr k usage, pin_add ctn sid pinning)) ctns (u, p) in
    counted (fst st') (snd st').
Proof.
  induction ctns as [|ctn ctns IH]; intros u p entry Hnd Hk Hs Hc; cbn [fold_left]; [exact Hc|].
  apply (IH _ _ (incr entry)).
  - rewrite map_alter_incr by reflexivity. exact Hnd.
  - rewrite nth_error_alter_eq, Hk. reflexivity.
  - exact Hs.
  - rewrite <- Hs. apply counted_fixed_step; assumption.
Qed.

Lemma counted_fixed_stage (es : list (Z * list nat)) :
  forall st st', fixed_stage es st = Done st' ->
    List.NoDup (map strId (fst st)) -> counted (fst st) (snd st) ->
    counted (fst st') (snd st').
Proof.
  induction es as [|[cpu ctns] es IH]; intros st st'; cbn [fixed_stage].
  - intros [= <-]. auto.
  - destruct (fixed_one_spec st cpu ctns) as [(Hr & entry & u' & Hn & E & Hs & Hi)|(Hr & E)];
      rewrite E; cbn [mbind outcome_bind Go.obind]; [|discriminate].
    intros Hrun Hnd Hc. apply (IH _ _ Hrun); cbn [fst snd].
    + rewrite Hs. exact Hnd.
    + destruct st as [u p]. cbn [fst snd] in *.
      pose proof (counted_fixed_fold (Z.to_nat cpu) (strId entry) ctns u p entry Hnd Hn eq_refl Hc)
        as Hf.
      unfold fixed_one in E. cbn [fst] in E.
      destruct (index_spec u cpu) as [(_ & x & Hx & Ex)|(Hbad & _)]; [|contradiction].
      rewrite Ex in E. cbn [mbind outcome_bind Go.obind] in E.
      assert (x = entry) by congruence. subst x.
      injection E as E. cbv zeta in Hf. rewrite E in Hf. exact Hf.
Qed.

Lemma NoDup_app_disjoint {A : Type} (l k : list A) (x : A) :
  List.NoDup (l ++ k) -> In x l -> In x k -> False.
Proof.
  induction l as [|a l IH]; intros Hnd Hl Hk; [destruct Hl|].
  cbn [app] in Hnd. apply List.NoDup_cons_iff in Hnd. destruct Hnd as [Ha Hnd].
  destruct Hl as [->|Hl]; [apply Ha, in_or_app; right; exact Hk|exact (IH Hnd Hl Hk)].
Qed.

Section CountedBalanced.
Variable rt : runtime.
Hypothesis Hrt : runtime_ok rt.

Lemma counted_balance_one (u : list deviceTaskCPU) (p : gmap nat (list string))
    (ctn : nat) (cnt : Z) :
  in_range cnt -> List.NoDup (map strId u) -> counted u p ->
  let st' := balance_one rt (u, p) (ctn, cnt) in
  List.NoDup (map strId (fst st')) /\ counted (fst st') (snd st').
Proof.
  intros Hcnt Hnd Hc. cbv zeta. rewrite (balance_one_spec rt Hrt) by exact Hcnt.
  cbv zeta. cbn [fst snd].
  set (s := sort_usage rt u). set (j := taken_len cnt (length u)).
  pose proof (sort_usage_perm rt Hrt u) as Hperm. fold s in Hperm.
  assert (Hnds : List.NoDup (map strId (firstn j s) ++ map strId (skipn j s))).
  { rewrite <- map_app, firstn_skipn.
    eapply Permutation_NoDup; [|exact Hnd]. apply Permutation_map. symmetry. exact Hperm. }
  assert (Hcs : forall c, In c s -> count c = Go.wrap (Z.of_nat (assigned (strId c) p))).
  { intros c Hin. apply Hc. eapply Permutation_in; [exact Hperm|exact Hin]. }
  split.
  - rewrite map_app, map_map. cbn [incr strId]. exact Hnds.
  - intros c Hin. rewrite assigned_pin_all. apply in_app_or in Hin.
    destruct Hin as [Hin|Hin].
    + apply in_map_iff in Hin. destruct Hin as (c0 & <- & Hin0).
      cbn [strId incr].
      assert (Hocc : count_occ string_dec (map strId (firstn j s)) (strId c0) = 1%nat).
      { apply List.NoDup_app_remove_r in Hnds.
        apply (proj1 (List.NoDup_count_occ' string_dec _) Hnds).
        apply in_map. exact Hin0. }
      rewrite Hocc. apply counted_incr, Hcs.
      rewrite <- (firstn_skipn j s). apply in_or_app. left. exact Hin0.
    + assert (Hocc : count_occ string_dec (map strId (firstn j s)) (strId c) = 0%nat).
      { apply count_occ_not_In. intros Hin'.
        apply (NoDup_app_disjoint _ _ (strId c) Hnds Hin'). apply in_map. exact Hin. }
      rewrite Hocc, Nat.add_0_r. apply Hcs.
      rewrite <- (firstn_skipn j s). apply in_or_app. right. exact Hin.
Qed.

Lemma counted_balanced_stage (es : list (nat * Z)) :
  forall st, List.Forall (fun e => in_range (snd e)) es ->
    List.NoDup (map strId (fst st)) -> counted (fst st) (snd st) ->
    counted (fst (balanced_stage rt es st)) (snd (balanced_stage rt es st)).
Proof.
  induction es as [|[ctn cnt] es IH]; intros [u p] Hr Hnd Hc; [exact Hc|].
  unfold balanced_stage in *. cbn [fold_left].
  apply List.Forall_cons_iff in Hr. destruct Hr as [Hcnt Hr]. cbn [snd fst] in *.
  destruct (counted_balance_one u p ctn cnt Hcnt Hnd Hc) as [Hnd' Hc'].
  destruct (balance_one rt (u, p) (ctn, cnt)) as [u' p'] eqn:E. apply IH; assumption.
Qed.

End CountedBalanced.

Lemma balanced_stage_strIds (rt : runtime) (Hrt : runtime_ok rt) (es : list (nat * Z)) :
  forall st, List.Forall (fun e => in_range (snd e)) es ->
    Permutation (map strId (fst (balanced_stage rt es st))) (map strId (fst st)).
Proof.
  induction es as [|e es IH]; intros st Hr; [reflexivity|].
  apply List.Forall_cons_iff in Hr. destruct Hr as [He Hr].
  unfold balanced_stage in *. cbn [fold_left]. rewrite IH by exact Hr.
  apply (balance_one_strIds rt Hrt st e He).
Qed.

(** X24. In every pass that runs to its end over distinct online CPU ids,
    the usage slice holds one counter for each online CPU, and each counter
    is the number of times the id of its CPU stands in the pinning sets:
    what the fixed stage and the load-balanced stage add to a set, they
    add to the counter of the same entry. *)
Theorem usage_counts_assignments (rt : runtime) (cpus : list Z)
    (containers : list container) (p : pass) :
  runtime_ok rt -> List.NoDup cpus ->
  deviceTaskBalance rt cpus containers = Done p ->
  Permutation (map strId (usage p)) (map Go.itoa cpus) /\
  forall c, In c (usage p) ->
    count c = Go.wrap (Z.of_nat (assigned (strId c) (pinning p))).
Proof.
  intros Hrt Hnd Hrun.
  destruct (deviceTaskBalance_done _ _ _ _ Hrun) as (f & b & st & Hc & Hf & Hb & _).
  unfold classify in Hc.
  pose proof (classify_from_values _ _ _ _ _ _ _ Hc (map_Forall_empty _)) as Hval.
  assert (Hrange : List.Forall (fun e => in_range (snd e)) (range_balanced rt b)).
  { apply List.Forall_forall. intros [h v] Hin. cbn [snd].
    apply (Hval h v). apply (range_balanced_In rt Hrt), Hin. }
  assert (Hs1 : map strId (fst st) = map Go.itoa cpus).
  { destruct (fixed_stage_spec (range_fixed rt f) (usage_init cpus, ∅))
      as [(_ & st' & Hf' & Hs & _)|(_ & Hp)]; [|congruence].
    rewrite Hf in Hf'. injection Hf' as <-. rewrite Hs. cbn [fst].
    apply usage_init_strId. }
  assert (Hnd0 : List.NoDup (map strId (usage_init cpus))).
  { unfold usage_init. rewrite map_map. cbn [strId].
    apply Finite.Injective_map_NoDup; [|exact Hnd]. intros x y. apply itoa_inj. }
  assert (Hc0 : counted (usage_init cpus) ∅).
  { intros c Hin. rewrite assigned_empty. unfold usage_init in Hin.
    apply in_map_iff in Hin. destruct Hin as (i & <- & _). reflexivity. }
  pose proof (counted_fixed_stage _ _ _ Hf Hnd0 Hc0) as Hc1.
  assert (Hnd1 : List.NoDup (map strId (fst st))).
  { rewrite Hs1. apply Finite.Injective_map_NoDup; [|exact Hnd]. intros x y. apply itoa_inj. }
  split.
  - pose proof (balanced_stage_strIds rt Hrt (range_balanced rt b) st Hrange) as Hperm.
    rewrite Hb, Hs1 in Hperm. exact Hperm.
  - pose proof (counted_balanced_stage rt Hrt (range_balanced rt b) st Hrange Hnd1 Hc1) as H.
    rewrite Hb in H. exact H.
Qed.

Lemma usage_counts_assignments_witness :
  exists p,
    deviceTaskBalance rt_ascending [0; 1; 2; 3] [instance "A" "0-1"; instance "B" "2"]
      = Done p /\
    Permutation (map strId (usage p)) (map Go.itoa [0; 1; 2; 3]) /\
    forall c, In c (usage p) ->
      count c = Go.wrap (Z.of_nat (assigned (strId c) (pinning p))).
Proof.
  destruct (deviceTaskBalance rt_ascending [0; 1; 2; 3]
              [instance "A" "0-1"; instance "B" "2"]) as [p| |] eqn:E;
    [|vm_compute in E; discriminate E|vm_compute in E; discriminate E].
  exists p. split; [reflexivity|].
  exact (usage_counts_assignments rt_ascending [0; 1; 2; 3]
           [instance "A" "0-1"; instance "B" "2"] p rt_ascending_ok NoDup_0123 E).
Defined.

(** ** CPU Balancer: passes without fixed assignments *)

Section AssignedBalanced.
Variable rt : runtime.
Hypothesis Hrt : runtime_ok rt.

(** One allocation adds a CPU to at most one set, once. *)
Lemma assigned_balance_one (s : string) (u : list deviceTaskCPU)
    (p : gmap nat (list string)) (ctn : nat) (cnt : Z) :
  in_range cnt -> List.NoDup (map strId u) ->
  (assigned s (snd (balance_one rt (u, p) (ctn, cnt))) <= assigned s p + 1)%nat.
Proof.
  intros Hcnt Hnd. rewrite (balance_one_spec rt Hrt) by exact Hcnt.
  cbv zeta. cbn [snd]. rewrite assigned_pin_all.
  set (srt := sort_usage rt u). set (j := taken_len cnt (length u)).
  assert (Hnds : List.NoDup (map strId (firstn j srt))).
  { assert (H : List.NoDup (map strId (firstn j srt) ++ map strId (skipn j srt))).
    { rewrite <- map_app, firstn_skipn.
      eapply Permutation_NoDup; [|exact Hnd].
      apply Permutation_map. symmetry. apply (sort_usage_perm rt Hrt). }
    apply List.NoDup_app_remove_r in H. exact H. }
  pose proof (proj1 (List.NoDup_count_occ string_dec _) Hnds s). lia.
Qed.

Lemma assigned_balanced_stage (s : string) (es : list (nat * Z)) :
  forall st, List.Forall (fun e => in_range (snd e)) es ->
    List.NoDup (map strId (fst st)) ->
    (assigned s (snd (balanced_stage rt es st)) <= assigned s (snd st) + length es)%nat.
Proof.
  induction es as [|[ctn cnt] es IH]; intros [u p] Hr Hnd; [cbn; lia|].
  unfold balanced_stage in *. cbn [fold_left length].
  apply List.Forall_cons_iff in Hr. destruct Hr as [Hcnt Hr]. cbn [snd fst] in *.
  pose proof (assigned_balance_one s u p ctn cnt Hcnt Hnd) as H1.
  assert (Hnd' : List.NoDup (map strId (fst (balance_one rt (u, p) (ctn, cnt))))).
  { eapply Permutation_NoDup; [|exact Hnd]. symmetry.
    apply (balance_one_strIds rt Hrt (u, p) (ctn, cnt)). exact Hcnt. }
  specialize (IH (balance_one rt (u, p) (ctn, cnt)) Hr Hnd'). lia.
Qed.

(** A pass without fixed assignments: it runs to its end, the counters
    differ by at most 1, and over distinct ids each counter is the number
    of sets its CPU stands in, so that these numbers differ by at most 1
    as well. *)
Lemma no_fixed_pins_pass (cpus : list Z) (containers : list container) (b : gmap nat Z) :
  classify cpus containers = Done (∅, b) ->
  Z.of_nat (length containers) <= Go.max_int ->
  exists p, deviceTaskBalance rt cpus containers = Done p /\
    Permutation (map id (usage p)) cpus /\
    (forall x y, In x (usage p) -> In y (usage p) -> Z.abs (count x - count y) <= 1) /\
    (List.NoDup cpus ->
     (forall c, In c (usage p) ->
        count c = Z.of_nat (assigned (strId c) (pinning p))) /\
     (forall i j, In i cpus -> In j cpus ->
        Z.abs (Z.of_nat (assigned (Go.itoa i) (pinning p))
               - Z.of_nat (assigned (Go.itoa j) (pinning p))) <= 1)).
Proof.
  intros Hc Hlen.
  assert (Hval : map_Forall (fun _ v => in_range v) b).
  { unfold classify in Hc. apply (classify_from_values _ _ _ _ _ _ _ Hc), map_Forall_empty. }
  assert (Hdom : forall k, is_Some (b !! k) -> (k < length containers)%nat).
  { intros k Hk. unfold classify in Hc.
    destruct (classify_from_keys _ _ _ _ _ _ _ Hc k Hk) as [[? H0]|H0]; [|lia].
    rewrite lookup_empty in H0. discriminate. }
  destruct (no_fixed_pins_counts rt Hrt cpus containers b Hc Hval Hdom Hlen)
    as (p & Hrun & Hperm & Hdiff).
  exists p. split; [exact Hrun|]. split; [exact Hperm|]. split; [exact Hdiff|].
  intros Hnd.
  destruct (deviceTaskBalance_done _ _ _ _ Hrun) as (f' & b' & st & Hc' & Hf & Hb & _).
  rewrite Hc in Hc'. injection Hc' as <- <-.
  assert (Hf0 : range_fixed rt ∅ = []).
  { apply Permutation_nil. rewrite (range_fixed_perm rt Hrt), map_to_list_empty. reflexivity. }
  rewrite Hf0 in Hf. cbn [fixed_stage] in Hf. injection Hf as <-.
  assert (Hrange : List.Forall (fun e => in_range (snd e)) (range_balanced rt b)).
  { apply List.Forall_forall. intros [h v] Hin. cbn [snd].
    apply (Hval h v). apply (range_balanced_In rt Hrt), Hin. }
  assert (Hnd0 : List.NoDup (map strId (usage_init cpus))).
  { rewrite usage_init_strId.
    apply Finite.Injective_map_NoDup; [|exact Hnd]. intros x y. apply itoa_inj. }
  assert (Hc0 : counted (usage_init cpus) ∅).
  { intros c Hin. rewrite assigned_empty. unfold usage_init in Hin.
    apply in_map_iff in Hin. destruct Hin as (i & <- & _). reflexivity. }
  pose proof (counted_balanced_stage rt Hrt (range_balanced rt b) (usage_init cpus, ∅)
                Hrange Hnd0 Hc0) as Hcnt.
  rewrite Hb in Hcnt. cbn [fst snd] in Hcnt.
  assert (Hsize : (length (range_balanced rt b) <= length containers)%nat).
  { rewrite (Permutation_length (range_balanced_perm rt Hrt b)).
    rewrite length_map_to_list. apply size_bounded_keys, Hdom. }
  assert (Hbound : forall s, (assigned s (pinning p) <= length containers)%nat).
  { intros s.
    pose proof (assigned_balanced_stage s (range_balanced rt b) (usage_init cpus, ∅)
                  Hrange Hnd0) as H.
    rewrite Hb in H. cbn [fst snd] in H. rewrite assigned_empty in H. lia. }
  assert (Hexact : forall c, In c (usage p) ->
                     count c = Z.of_nat (assigned (strId c) (pinning p))).
  { intros c Hin. rewrite (Hcnt c Hin). apply wrap_id.
    specialize (Hbound (strId c)). unfold in_range, Go.min_int, Go.max_int in *.
    split; [|lia].
    assert (0 < 2 ^ (Go.int_bits - 1)) by (apply Z.pow_pos_nonneg; vm_compute; congruence).
    lia. }
  split; [exact Hexact|].
  assert (Hids : forall i, In i cpus ->
                   exists c, In c (usage p) /\ strId c = Go.itoa i).
  { intros i Hi.
    pose proof (balanced_stage_strIds rt Hrt (range_balanced rt b) (usage_init cpus, ∅)
                  Hrange) as Hp.
    rewrite Hb in Hp. cbn [fst] in Hp. rewrite usage_init_strId in Hp.
    assert (Hin : In (Go.itoa i) (map strId (usage p))).
    { eapply Permutation_in; [symmetry; exact Hp|]. apply in_map, Hi. }
    apply in_map_iff in Hin. destruct Hin as (c & Hs & Hin). eauto. }
  intros i j Hi Hj.
  destruct (Hids i Hi) as (ci & Hci & <-). destruct (Hids j Hj) as (cj & Hcj & <-).
  rewrite <- (Hexact ci Hci), <- (Hexact cj Hcj). apply Hdiff; assumption.
Qed.

End AssignedBalanced.

(** C5. In a pass whose running instances are all load-balanced, the pass
    runs to its end and the usage counts of any two online CPUs differ by
    at most 1.  Over distinct CPU ids the count of a CPU is the number of
    pinning sets the CPU stands in, so that the numbers of instances
    assigned to any two online CPUs differ by at most 1. *)
Theorem balanced_only_counts_differ_by_at_most_one (rt : runtime)
    (cpus : list Z) (containers : list container) :
  runtime_ok rt ->
  all_balanced cpus containers ->
  Z.of_nat (length containers) <= Go.max_int ->
  exists p, deviceTaskBalance rt cpus containers = Done p /\
    Permutation (map id (usage p)) cpus /\
    (forall a b, In a (usage p) -> In b (usage p) -> Z.abs (count a - count b) <= 1) /\
    (List.NoDup cpus ->
     (forall c, In c (usage p) ->
        count c = Z.of_nat (assigned (strId c) (pinning p))) /\
     (forall i j, In i cpus -> In j cpus ->
        Z.abs (Z.of_nat (assigned (Go.itoa i) (pinning p))
               - Z.of_nat (assigned (Go.itoa j) (pinning p))) <= 1)).
Proof.
  intros Hrt Hall Hlen.
  destruct (classify_from_balanced cpus containers 0%nat ∅ ∅ Hall) as (b & Ec & _).
  exact (no_fixed_pins_pass rt Hrt cpus containers b Ec Hlen).
Qed.

Lemma balanced_only_counts_differ_by_at_most_one_witness :
  exists p,
    deviceTaskBalance rt_ascending [0; 1; 2; 3]
      [instance "A" "3"; instance "B" "2"; instance "C" "-1"] = Done p /\
    (forall a b, In a (usage p) -> In b (usage p) -> Z.abs (count a - count b) <= 1) /\
    (forall c, In c (usage p) -> count c = Z.of_nat (assigned (strId c) (pinning p))) /\
    (forall i j, In i [0; 1; 2; 3] -> In j [0; 1; 2; 3] ->
       Z.abs (Z.of_nat (assigned (Go.itoa i) (pinning p))
              - Z.of_nat (assigned (Go.itoa j) (pinning p))) <= 1).
Proof.
  assert (Hall : all_balanced [0; 1; 2; 3]
                   [instance "A" "3"; instance "B" "2"; instance "C" "-1"]).
  { intros c [<-|[<-|[<-|[]]]] _; eexists; vm_compute; reflexivity. }
  assert (Hlen : Z.of_nat (length [instance "A" "3"; instance "B" "2"; instance "C" "-1"])
                 <= Go.max_int) by (vm_compute; discriminate).
  destruct (balanced_only_counts_differ_by_at_most_one rt_ascending
              [0; 1; 2; 3] _ rt_ascending_ok Hall Hlen) as (p & Hp & _ & Hd & Hn).
  destruct (Hn NoDup_0123) as [Hc Ha].
  exists p. split; [exact Hp|]. split; [exact Hd|]. split; [exact Hc|exact Ha].
Defined.

(** X9. A pass in which classification records no fixed assignment (the
    limits that are not integers name no online CPU) runs to its end, and
    the usage counts of any two online CPUs differ by at most 1; over
    distinct CPU ids these counts are the numbers of pinning sets the CPUs
    stand in. *)
Theorem no_fixed_assignment_counts_differ_by_at_most_one (rt : runtime) (cpus : list Z)
    (containers : list container) (b : gmap nat Z) :
  runtime_ok rt ->
  classify cpus containers = Done (∅, b) ->
  Z.of_nat (length containers) <= Go.max_int ->
  exists p, deviceTaskBalance rt cpus containers = Done p /\
    Permutation (map id (usage p)) cpus /\
    (forall x y, In x (usage p) -> In y (usage p) -> Z.abs (count x - count y) <= 1) /\
    (List.NoDup cpus ->
     (forall c, In c (usage p) ->
        count c = Z.of_nat (assigned (strId c) (pinning p))) /\
     (forall i j, In i cpus -> In j cpus ->
        Z.abs (Z.of_nat (assigned (Go.itoa i) (pinning p))
               - Z.of_nat (assigned (Go.itoa j) (pinning p))) <= 1)).
Proof.
  intros Hrt Hc Hlen. exact (no_fixed_pins_pass rt Hrt cpus containers b Hc Hlen).
Qed.

Lemma no_fixed_assignment_counts_differ_by_at_most_one_witness :
  exists p,
    deviceTaskBalance rt_ascending [0; 1; 2] [instance "A" "7-9"; instance "B" "2"] = Done p /\
    (forall x y, In x (usage p) -> In y (usage p) -> Z.abs (count x - count y) <= 1) /\
    (forall c, In c (usage p) -> count c = Z.of_nat (assigned (strId c) (pinning p))).
Proof.
  assert (Hc : classify [0; 1; 2] [instance "A" "7-9"; instance "B" "2"]
               = Done (∅, {[ 1%nat := 2 ]})) by (vm_compute; reflexivity).
  assert (Hlen : Z.of_nat (length [instance "A" "7-9"; instance "B" "2"]) <= Go.max_int)
    by (vm_compute; discriminate).
  destruct (no_fixed_assignment_counts_differ_by_at_most_one rt_ascending _ _ _
              rt_ascending_ok Hc Hlen) as (p & Hp & _ & Hd & Hn).
  assert (Hnd : List.NoDup [0; 1; 2]).
  { repeat constructor; cbn [In]; lia. }
  exists p. split; [exact Hp|]. split; [exact Hd|]. exact (proj1 (Hn Hnd)).
Defined.

(** ** CPU Balancer: what is written, and to whom *)

Lemma pins_in_pin_add (ids : list string) (ctn : nat) (sid : string)
    (p : gmap nat (list string)) :
  In sid ids -> pins_in ids p -> pins_in ids (pin_add ctn sid p).
Proof.
  intros Hsid Hp h set s Hset Hs.
  destruct (decide (ctn = h)) as [->|Hne].
  - rewrite pin_add_lookup in Hset. injection Hset as <-.
    apply in_app_or in Hs. destruct Hs as [Hs|[<-|[]]]; [|exact Hsid].
    destruct (p !! h) as [l|] eqn:E; [|destruct Hs]. exact (Hp h l s E Hs).
  - rewrite pin_add_lookup_ne in Hset by exact Hne. exact (Hp h set s Hset Hs).
Qed.

Lemma pins_in_pin_many (ids : list string) (ctns : list nat) (sid : string) :
  forall p, In sid ids -> pins_in ids p -> pins_in ids (pin_many ctns sid p).
Proof.
  unfold pin_many. induction ctns as [|ctn ctns IH]; intros p Hsid Hp; [exact Hp|].
  cbn [fold_left]. apply IH; [exact Hsid|]. apply pins_in_pin_add; assumption.
Qed.

Lemma pins_in_pin_all (ids : list string) (ctn : nat) (l : list string) :
  forall p, (forall s, In s l -> In s ids) -> pins_in ids p -> pins_in ids (pin_all ctn l p).
Proof.
  unfold pin_all. induction l as [|x l IH]; intros p Hl Hp; [exact Hp|].
  cbn [fold_left]. apply IH; [intros s Hs; apply Hl; right; exact Hs|].
  apply pins_in_pin_add; [apply Hl; left; reflexivity|exact Hp].
Qed.

Lemma pins_in_fixed_stage (ids : list string) (es : list (Z * list nat)) :
  forall st st', fixed_stage es st = Done st' ->
    (forall c, In c (fst st) -> In (strId c) ids) ->
    pins_in ids (snd st) -> pins_in ids (snd st').
Proof.
  induction es as [|[cpu ctns] es IH]; intros st st'; cbn [fixed_stage].
  - intros [= <-]. auto.
  - destruct (fixed_one_spec st cpu ctns) as [(Hr & entry & u' & Hn & E & Hs & Hi)|(Hr & E)];
      rewrite E; cbn [mbind outcome_bind Go.obind]; [|discriminate].
    intros Hrun Hu Hp. apply (IH _ _ Hrun); cbn [fst snd].
    + intros c Hin. apply (in_map strId) in Hin. rewrite Hs in Hin.
      apply in_map_iff in Hin. destruct Hin as (c0 & <- & Hin0). apply Hu, Hin0.
    + apply pins_in_pin_many; [|exact Hp]. apply Hu. eapply nth_error_In, Hn.
Qed.

Section PinsBalanced.
Variable rt : runtime.
Hypothesis Hrt : runtime_ok rt.

Lemma pins_in_balanced_stage (ids : list string) (es : list (nat * Z)) :
  forall st, List.Forall (fun e => in_range (snd e)) es ->
    (forall c, In c (fst st) -> In (strId c) ids) ->
    pins_in ids (snd st) ->
    pins_in ids (snd (balanced_stage rt es st)).
Proof.
  induction es as [|[ctn cnt] es IH]; intros [u p] Hr Hu Hp; [exact Hp|].
  unfold balanced_stage in *. cbn [fold_left].
  apply List.Forall_cons_iff in Hr. destruct Hr as [Hcnt Hr]. cbn [snd fst] in *.
  pose proof (sort_usage_perm rt Hrt u) as Hperm.
  assert (Hus : forall c, In c (sort_usage rt u) -> In (strId c) ids).
  { intros c Hin. apply Hu. eapply Permutation_in; [exact Hperm|exact Hin]. }
  rewrite (balance_one_spec rt Hrt) by exact Hcnt. cbv zeta.
  apply IH; [exact Hr| |]; cbn [fst snd].
  - intros c Hin. apply in_app_or in Hin. destruct Hin as [Hin|Hin].
    + apply in_map_iff in Hin. destruct Hin as (c0 & <- & Hin0). cbn [strId incr].
      apply Hus. rewrite <- (firstn_skipn (taken_len cnt (length u))).
      apply in_or_app. left. exact Hin0.
    + apply Hus. rewrite <- (firstn_skipn (taken_len cnt (length u))).
      apply in_or_app. right. exact Hin.
  - apply pins_in_pin_all; [|exact Hp].
    intros s Hs. apply in_map_iff in Hs. destruct Hs as (c0 & <- & Hin0).
    apply Hus. rewrite <- (firstn_skipn (taken_len cnt (length u))).
    apply in_or_app. left. exact Hin0.
Qed.

Lemma balanced_stage_dom (es : list (nat * Z)) (h : nat) :
  forall st, is_Some (snd (balanced_stage rt es st) !! h) ->
    is_Some (snd st !! h) \/ In h (map fst es).
Proof.
  intros st Hs. destruct (in_dec Nat.eq_dec h (map fst es)) as [Hin|Hnin]; [right; exact Hin|].
  left. rewrite balanced_stage_other in Hs by exact Hnin. exact Hs.
Qed.

End PinsBalanced.

(** The instances that classification records as load-balanced are
    running. *)
Lemma classify_from_running (cpus : list Z) (cs : list container) :
  forall h0 f f' b b',
    classify_from cpus h0 cs (f, b) = Done (f', b') ->
    forall k, is_Some (b' !! k) ->
      is_Some (b !! k) \/
      exists c, (h0 <= k)%nat /\ nth_error cs (k - h0) = Some c /\ IsRunning c = true.
Proof.
  induction cs as [|c cs IH]; intros h0 f f' b b'; cbn [classify_from].
  - intros [= <- <-] k Hk. left. exact Hk.
  - destruct (classify_one cpus h0 c (f, b)) as [[f1 b1]| |] eqn:E1; cbn; try discriminate.
    intros E k Hk. destruct (IH _ _ _ _ _ E k Hk) as [H1|(c' & Hle & Hn & Hr)].
    + apply classify_one_spec in E1.
      destruct E1 as [(_ & _ & ->)|[(Hr & n & Hn & _ & ->)|(_ & e & _ & -> & _)]];
        try (left; exact H1).
      destruct (decide (h0 = k)) as [->|Hne].
      * right. exists c. rewrite Nat.sub_diag. cbn. auto.
      * rewrite lookup_insert_ne in H1 by exact Hne. left. exact H1.
    + right. exists c'. split; [lia|]. split; [|exact Hr].
      replace (k - h0)%nat with (S (k - S h0)) by lia. exact Hn.
Qed.

(** X25. In every pass that runs to its end, a value is written only to a
    running instance, and the value splits on commas into a non-empty list
    of decimal ids of online CPUs: no instance is pinned to a CPU that is
    offline or absent, whatever its pinning expression names. *)
Theorem written_values_name_online_cpus (rt : runtime) (cpus : list Z)
    (containers : list container) (p : pass) (h : nat) (v : string) :
  runtime_ok rt ->
  deviceTaskBalance rt cpus containers = Done p ->
  cpuset_cpus p !! h = Some v ->
  (exists c, nth_error containers h = Some c /\ IsRunning c = true) /\
  Go.Split v "," <> [] /\
  List.Forall (fun s => exists i, In i cpus /\ s = Go.itoa i) (Go.Split v ",").
Proof.
  intros Hrt Hrun Hv.
  destruct (deviceTaskBalance_done _ _ _ _ Hrun) as (f & b & st & Hc & Hf & Hb & Hw).
  unfold classify in Hc.
  pose proof (classify_from_values _ _ _ _ _ _ _ Hc (map_Forall_empty _)) as Hval.
  assert (Hrange : List.Forall (fun e => in_range (snd e)) (range_balanced rt b)).
  { apply List.Forall_forall. intros [h' v'] Hin. cbn [snd].
    apply (Hval h' v'). apply elem_of_map_to_list, list_elem_of_In.
    eapply Permutation_in; [apply (range_balanced_perm rt Hrt)|exact Hin]. }
  rewrite Hw, lookup_fmap in Hv.
  destruct (pinning p !! h) as [set|] eqn:Eset; [|discriminate].
  cbn in Hv. injection Hv as <-.
  set (ids := map Go.itoa cpus).
  assert (Hu0 : forall c, In c (usage_init cpus) -> In (strId c) ids).
  { intros c Hin. unfold usage_init in Hin. apply in_map_iff in Hin.
    destruct Hin as (i & <- & Hi). cbn [strId]. apply in_map. exact Hi. }
  assert (Hp1 : pins_in ids (snd st)).
  { eapply pins_in_fixed_stage; [exact Hf|exact Hu0|]. intros ? ? ? E. cbn [snd] in E.
    rewrite lookup_empty in E. discriminate. }
  assert (Hu1 : forall c, In c (fst st) -> In (strId c) ids).
  { destruct (fixed_stage_spec (range_fixed rt f) (usage_init cpus, ∅))
      as [(_ & st' & Hf' & Hs & _)|(_ & Hp)]; [|congruence].
    rewrite Hf in Hf'. injection Hf' as <-. intros c Hin.
    apply (in_map strId) in Hin. rewrite Hs in Hin.
    apply in_map_iff in Hin. destruct Hin as (c0 & <- & Hin0). apply Hu0, Hin0. }
  pose proof (pins_in_balanced_stage rt Hrt ids _ st Hrange Hu1 Hp1) as Hp2.
  rewrite Hb in Hp2. cbn [snd] in Hp2.
  assert (Hne : set <> []).
  { assert (Hn1 : pin_nonempty (snd st)).
    { eapply fixed_stage_nonempty; [exact Hf|]. apply map_Forall_empty. }
    pose proof (balanced_stage_nonempty rt (range_balanced rt b) st Hn1) as Hn2.
    rewrite Hb in Hn2. exact (Hn2 h set Eset). }
  assert (Hsorted : Permutation (Go.SortStrings set) set) by apply SortStrings_perm.
  assert (Hall : forall s, In s (Go.SortStrings set) -> exists i, In i cpus /\ s = Go.itoa i).
  { intros s Hs. assert (Hin : In s ids).
    { apply (Hp2 h set s Eset). eapply Permutation_in; [exact Hsorted|exact Hs]. }
    apply in_map_iff in Hin. destruct Hin as (i & <- & Hi). eauto. }
  assert (Hsplit : Go.Split (cpuset_value set) "," = Go.SortStrings set).
  { unfold cpuset_value. apply Split_Join.
    - intros E. apply Hne. apply Permutation_nil. rewrite <- E. exact Hsorted.
    - apply List.Forall_forall. intros s Hs. destruct (Hall s Hs) as (i & _ & ->).
      apply itoa_no_sep; reflexivity. }
  rewrite Hsplit. split; [|split].
  - destruct (balanced_stage_dom rt (range_balanced rt b) h st) as [H1|H1].
    { rewrite Hb. cbn [snd]. eauto. }
    + destruct (fixed_stage_spec (range_fixed rt f) (usage_init cpus, ∅))
        as [(_ & st' & Hf' & _ & _ & _ & Hdom & _)|(_ & Hp)]; [|congruence].
      rewrite Hf in Hf'. injection Hf' as <-. cbn [fst snd] in *.
      destruct (Hdom h H1) as [[? Hs0]|(cpu & l' & Hin & Hh')].
      { rewrite lookup_empty in Hs0. discriminate. }
      apply (range_fixed_In rt Hrt) in Hin.
      destruct (classify_from_spec _ _ _ _ _ _ _ Hc) as (_ & _ & Hfix).
      destruct (proj2 (Hfix cpu l' Hin) h Hh') as [(l0 & Hl0 & _)|(c' & e & _ & Hc' & Hr & _)].
      { rewrite lookup_empty in Hl0. discriminate. }
      rewrite Nat.sub_0_r in Hc'. eauto.
    + apply in_map_iff in H1. destruct H1 as ([h' cnt] & <- & Hin). cbn [fst].
      apply (range_balanced_In rt Hrt) in Hin.
      destruct (classify_from_running _ _ _ _ _ _ _ Hc h' (ltac:(eauto)))
        as [[? Hs0]|(c' & _ & Hc' & Hr)].
      { rewrite lookup_empty in Hs0. discriminate. }
      rewrite Nat.sub_0_r in Hc'. eauto.
  - intros E. apply Hne. apply Permutation_nil. rewrite <- E. exact Hsorted.
  - apply List.Forall_forall. exact Hall.
Qed.

Lemma written_values_name_online_cpus_witness :
  exists p v,
    deviceTaskBalance rt_ascending [0; 1; 2; 3] [instance "A" "0-1"; instance "B" "2"]
      = Done p /\
    cpuset_cpus p !! 1%nat = Some v /\
    List.Forall (fun s => exists i, In i [0; 1; 2; 3] /\ s = Go.itoa i) (Go.Split v ",").
Proof.
  destruct (deviceTaskBalance rt_ascending [0; 1; 2; 3]
              [instance "A" "0-1"; instance "B" "2"]) as [p| |] eqn:E;
    [|vm_compute in E; discriminate E|vm_compute in E; discriminate E].
  destruct (cpuset_cpus p !! 1%nat) as [v|] eqn:Ev.
  2:{ exfalso. vm_compute in E. injection E as <-. vm_compute in Ev. discriminate Ev. }
  exists p, v. split; [reflexivity|]. split; [exact Ev|].
  exact (proj2 (proj2 (written_values_name_online_cpus rt_ascending [0; 1; 2; 3]
                         [instance "A" "0-1"; instance "B" "2"] p 1%nat v
                         rt_ascending_ok E Ev))).
Defined.

(** ** Instance configuration keys: the checker and the instance types *)

Section ConfigKeys.
Context {V : Type} (tAny tContainer tVM : gmap string V) (IsAny IsBool IsList : V).

(** X26. Whatever the three tables hold: a key has a checker for the type
    [InstanceTypeAny] exactly when it has one for containers or for
    virtual machines; the keys under [user.], [environment.] and [image.]
    have one for every type; and a key that has one for a type that is
    none of the three named ones has one for containers and for virtual
    machines. *)
Theorem ConfigKeyChecker_any_is_union (key : string) :
  ((exists f, ConfigKeyChecker V tAny tContainer tVM IsAny IsBool IsList key
                InstanceTypeAny = Ok f) <->
   (exists f, ConfigKeyChecker V tAny tContainer tVM IsAny IsBool IsList key
                InstanceTypeContainer = Ok f) \/
   (exists f, ConfigKeyChecker V tAny tContainer tVM IsAny IsBool IsList key
                InstanceTypeVM = Ok f)) /\
  (Go.HasPrefix key "user." = true \/ Go.HasPrefix key "environment." = true \/
   Go.HasPrefix key "image." = true ->
   forall t, exists f,
     ConfigKeyChecker V tAny tContainer tVM IsAny IsBool IsList key t = Ok f) /\
  (forall n f,
     ConfigKeyChecker V tAny tContainer tVM IsAny IsBool IsList key (InstanceTypeOther n)
       = Ok f ->
     (exists g, ConfigKeyChecker V tAny tContainer tVM IsAny IsBool IsList key
                  InstanceTypeContainer = Ok g) /\
     (exists g, ConfigKeyChecker V tAny tContainer tVM IsAny IsBool IsList key
                  InstanceTypeVM = Ok g)).
Proof.
  unfold ConfigKeyChecker. cbn [is_any_or_container is_any_or_vm andb].
  destruct (tAny !! key) as [fa|].
  { split; [split; eauto|]. split; [eauto|eauto]. }
  destruct (if Go.HasPrefix key ConfigVolatilePrefix
            then volatile_checker V IsAny IsBool IsList key else None) as [fv|].
  { destruct (tContainer !! key), (tVM !! key); (split; [split; eauto|]);
      (split; [intros _ []; eauto|eauto]). }
  destruct (Go.HasPrefix key "environment.").
  { destruct (tContainer !! key), (tVM !! key); (split; [split; eauto|]);
      (split; [intros _ []; eauto|eauto]). }
  destruct (Go.HasPrefix key "user.").
  { destruct (tContainer !! key), (tVM !! key); (split; [split; eauto|]);
      (split; [intros _ []; eauto|eauto]). }
  destruct (Go.HasPrefix key "image.").
  { destruct (tContainer !! key), (tVM !! key); (split; [split; eauto|]);
      (split; [intros _ []; eauto|eauto]). }
  destruct (Go.HasPrefix key "limits.kernel."
            && (String.length "limits.kernel." <? String.length key)%nat).
  { destruct (tContainer !! key), (tVM !! key); (split; [split; eauto|]);
      (split; [intros _ []; eauto|eauto]). }
  destruct (Go.HasPrefix key "linux.sysctl."); cbn [andb];
    destruct (tContainer !! key), (tVM !! key);
    (split;
     [split;
      [intros [f H];
       first [left; eexists; reflexivity|right; eexists; reflexivity|discriminate H]
      |intros [[f H]|[f H]]; first [eexists; reflexivity|discriminate H]]|]);
    (split; [intros [H|[H|H]]; discriminate H|intros n f H; discriminate H]).
Qed.

End ConfigKeys.

(** ** CPU Balancer: counting the CPUs *)

Lemma space_rune_printable (c : ascii) (r : string) :
  (33 <= N_of_ascii c < 128)%N -> Scan.space_rune (String c r) = None.
Proof.
  intros Hc. unfold Scan.space_rune.
  repeat match goal with
         | |- context [ (?a =? ?b)%N ] =>
             lazymatch a with
             | N_of_ascii c => destruct (N.eqb_spec a b); [lia|]
             end
         | |- context [ (?a <=? N_of_ascii c)%N ] => destruct (N.leb_spec a (N_of_ascii c))
         | |- context [ (N_of_ascii c <=? ?b)%N ] => destruct (N.leb_spec (N_of_ascii c) b)
         end; try lia; cbn [andb orb];
    destruct r as [|c2 [|c3 r3]]; reflexivity.
Qed.

Lemma SkipSpace_printable (fuel : nat) (c : ascii) (r : string) :
  (33 <= N_of_ascii c < 128)%N -> Scan.SkipSpace fuel (String c r) = Some (String c r).
Proof.
  intros Hc. destruct fuel as [|fuel]; [reflexivity|]. cbn [Scan.SkipSpace].
  destruct (N.eqb_spec (N_of_ascii c) 10); [lia|].
  rewrite space_rune_printable by exact Hc. reflexivity.
Qed.

Lemma take_digits_uint (d : Decimal.uint) :
  Scan.take_digits (NilEmpty.string_of_uint d) = NilEmpty.string_of_uint d.
Proof.
  induction d; cbn [NilEmpty.string_of_uint Scan.take_digits]; [reflexivity|..];
    (change (Scan.is_digit _) with true; cbv iota; rewrite IHd; reflexivity).
Qed.

Lemma uint_head (d : Decimal.uint) :
  d <> Decimal.Nil ->
  exists c r, NilEmpty.string_of_uint d = String c r /\ Scan.is_digit c = true /\
              (33 <= N_of_ascii c < 128)%N.
Proof.
  destruct d; [congruence|..]; intros _; cbn [NilEmpty.string_of_uint];
    eexists _, _; (split; [reflexivity|]); (split; [reflexivity|]); vm_compute; split; congruence.
Qed.

Lemma NilZero_uint (d : Decimal.uint) :
  d <> Decimal.Nil -> NilZero.string_of_uint d = NilEmpty.string_of_uint d.
Proof. destruct d; [congruence|reflexivity..]. Qed.

Lemma HasPrefix_cpu (s : string) :
  Go.HasPrefix (String "c" (String "p" (String "u" s))) "cpu" = true.
Proof.
  unfold Go.HasPrefix. cbn [String.prefix].
  repeat (destruct (ascii_dec _ _); [|congruence]). destruct s; reflexivity.
Qed.

Lemma substr_cpu (s : string) :
  Go.substr (String "c" (String "p" (String "u" s))) 3
    (String.length (String "c" (String "p" (String "u" s)))) = s.
Proof.
  unfold Go.substr. cbn [String.length Nat.sub String.substring].
  rewrite Nat.sub_0_r. apply substring_0_length.
Qed.

(** What is printed as [cpu<n>] is scanned back as [n]. *)
Lemma Sscanf_cpu_name (n : Z) : in_range n -> Scan.Sscanf_cpu_d (cpu_name n) = Some n.
Proof.
  intros Hn. unfold Scan.Sscanf_cpu_d, cpu_name.
  change ("cpu" +:+ Go.itoa n) with (String "c" (String "p" (String "u" (Go.itoa n)))).
  rewrite HasPrefix_cpu. cbv iota zeta. rewrite !substr_cpu.
  pose proof (Atoi_itoa n Hn) as Hparse.
  change (Go.Atoi (Go.itoa n)) with (Go.ParseInt (Go.itoa n) 10 64) in Hparse.
  revert Hparse. unfold Go.itoa.
  destruct n as [|q|q]; cbn [Z.to_int NilZero.string_of_int].
  - intros _. vm_compute. reflexivity.
  - pose proof (DecimalPos.Unsigned.to_uint_nonnil q) as Hnn.
    rewrite (NilZero_uint _ Hnn).
    destruct (uint_head _ Hnn) as (c & r & E & Hd & Hc).
    intros Hparse. pose proof (take_digits_uint (Pos.to_uint q)) as Htd.
    rewrite E in *. rewrite SkipSpace_printable by exact Hc.
    assert (Hs : Ascii.eqb c "+" || Ascii.eqb c "-" = false).
    { destruct (Ascii.eqb_spec c "+") as [->|]; [discriminate Hd|].
      destruct (Ascii.eqb_spec c "-") as [->|]; [discriminate Hd|]. reflexivity. }
    rewrite Hs. cbv iota. rewrite Htd.
    change (String c r =s "") with false. cbv iota.
    change ("" +:+ String c r) with (String c r). rewrite Hparse. reflexivity.
  - pose proof (DecimalPos.Unsigned.to_uint_nonnil q) as Hnn.
    rewrite (NilZero_uint _ Hnn).
    destruct (uint_head _ Hnn) as (c & r & E & Hd & Hc).
    intros Hparse. pose proof (take_digits_uint (Pos.to_uint q)) as Htd.
    rewrite E in *. rewrite SkipSpace_printable by (vm_compute; split; congruence).
    change (Ascii.eqb "-" "+" || Ascii.eqb "-" "-") with true. cbv iota.
    unfold Go.substr. cbn [String.length Nat.sub String.substring].
    rewrite substring_0_length, Htd.
    change (String c r =s "") with false. cbv iota.
    change ("-" +:+ String c r) with (String "-" (String c r)). rewrite Hparse. reflexivity.
Qed.

Lemma count_cpus_names_from (fs : sysfs) (ids : list Z) :
  (forall i, In i ids -> in_range i) ->
  (forall i, In i ids -> i <> -1 -> PathExists fs (onlinePath (cpu_name i)) = true ->
     ReadFile fs (onlinePath (cpu_name i)) <> Ok []) ->
  forall acc,
    count_cpus fs (map cpu_name ids) acc
    = Done (acc ++ List.filter (fun i => negb (i =? -1) && is_online fs i) ids).
Proof.
  induction ids as [|i ids IH]; intros Hr Hne acc; cbn [map count_cpus List.filter].
  - rewrite app_nil_r. reflexivity.
  - assert (IH' : forall acc', count_cpus fs (map cpu_name ids) acc'
                   = Done (acc' ++ List.filter (fun i => negb (i =? -1) && is_online fs i) ids)).
    { apply IH; intros; [apply Hr|apply Hne]; auto; right; assumption. }
    rewrite Sscanf_cpu_name by (apply Hr; left; reflexivity).
    destruct (Z.eqb_spec i (-1)) as [->|Hi]; cbn [negb andb]; [apply IH'|].
    specialize (Hne i (or_introl eq_refl) Hi). unfold is_online.
    destruct (PathExists fs (onlinePath (cpu_name i))); cbn [negb orb].
    2:{ rewrite IH', <- app_assoc. reflexivity. }
    destruct (ReadFile fs (onlinePath (cpu_name i))) as [[|b0 online]|e].
    + exfalso. apply Hne; reflexivity.
    + assert (Hidx : Go.index (b0 :: online) 0 = Done b0).
      { unfold Go.index. change (0 <=? 0) with true.
        destruct (Z.ltb_spec 0 (Z.of_nat (length (b0 :: online))));
          [reflexivity|cbn [length] in *; lia]. }
      rewrite Hidx. cbn [mbind outcome_bind Go.obind].
      destruct (Byte.eqb b0 Byte.x30); cbn [negb]; rewrite IH'; [reflexivity|].
      rewrite <- app_assoc. reflexivity.
    + apply IH'.
Qed.

(** X27. On a host whose CPU directory lists [cpu<i>] for the ids [ids],
    and where no [online] file reads as empty, the pass counts the ids
    back from the names, in the order of the listing, and keeps those that
    are not [-1] and are online: a CPU without an [online] file, or with
    one that does not start with [0].  The pass then runs on exactly those
    ids. *)
Theorem cpu_directories_are_read_back (rt : runtime) (fs : sysfs) (ids : list Z)
    (containers : list container) :
  ReadDir fs = Ok (map cpu_name ids) ->
  (forall i, In i ids -> in_range i) ->
  (forall i, In i ids -> i <> -1 -> PathExists fs (onlinePath (cpu_name i)) = true ->
     ReadFile fs (onlinePath (cpu_name i)) <> Ok []) ->
  count_cpus fs (map cpu_name ids) []
    = Done (List.filter (fun i => negb (i =? -1) && is_online fs i) ids) /\
  deviceTaskBalance_sysfs rt fs containers
    = (p ← deviceTaskBalance rt
             (List.filter (fun i => negb (i =? -1) && is_online fs i) ids) containers;
       Done (Some p)).
Proof.
  intros Hd Hr Hne.
  pose proof (count_cpus_names_from fs ids Hr Hne []) as H. cbn [app] in H.
  split; [exact H|]. unfold deviceTaskBalance_sysfs. rewrite Hd, H. reflexivity.
Qed.

Lemma cpu_directories_are_read_back_witness :
  count_cpus sysfs_02 (map cpu_name [0; 1; 2]) [] = Done [0; 2] /\
  deviceTaskBalance_sysfs rt_ascending sysfs_02 [instance "A" "1"]
    = (p ← deviceTaskBalance rt_ascending [0; 2] [instance "A" "1"]; Done (Some p)).
Proof.
  assert (Hr : forall i, In i [0; 1; 2] -> in_range i).
  { intros i [<-|[<-|[<-|[]]]]; vm_compute; split; discriminate. }
  assert (Hne : forall i, In i [0; 1; 2] -> i <> -1 ->
            PathExists sysfs_02 (onlinePath (cpu_name i)) = true ->
            ReadFile sysfs_02 (onlinePath (cpu_name i)) <> Ok []).
  { intros i [<-|[<-|[<-|[]]]] _ _; vm_compute; discriminate. }
  exact (cpu_directories_are_read_back rt_ascending sysfs_02 [0; 1; 2] [instance "A" "1"]
           eq_refl Hr Hne).
Defined.

Lemma count_cpus_panics (fs : sysfs) (name : string) (id : Z) (dents : list string) :
  Scan.Sscanf_cpu_d name = Some id -> id <> -1 ->
  PathExists fs (onlinePath name) = true -> ReadFile fs (onlinePath name) = Ok [] ->
  In name dents -> forall acc, count_cpus fs dents acc = Panic.
Proof.
  intros Hs Hid He Hf. induction dents as [|d dents IH]; intros Hin acc; [destruct Hin|].
  cbn [count_cpus]. destruct Hin as [->|Hin].
  - rewrite Hs. destruct (Z.eqb_spec id (-1)); [contradiction|]. rewrite He, Hf. reflexivity.
  - specialize (IH Hin).
    destruct (Scan.Sscanf_cpu_d d) as [i|]; [|apply IH].
    destruct (i =? -1); [apply IH|].
    destruct (negb (PathExists fs (onlinePath d))); [apply IH|].
    destruct (ReadFile fs (onlinePath d)) as [online|]; [|apply IH].
    destruct (Go.index online 0) as [b0| |] eqn:Ei; cbn [mbind outcome_bind Go.obind];
      [|reflexivity|].
    + destruct (Byte.eqb b0 Byte.x30); apply IH.
    + exfalso. unfold Go.index in Ei.
      destruct ((0 <=? 0) && (0 <? Z.of_nat (length online))); [|discriminate Ei].
      destruct (nth_error online (Z.to_nat 0)); discriminate Ei.
Qed.

(** X28. An [online] file that exists and reads as empty makes the pass
    panic, at [online[0]]: whatever else the directory lists, no instance
    is balanced. *)
Theorem empty_online_file_panics (rt : runtime) (fs : sysfs) (dents : list string)
    (name : string) (id : Z) (containers : list container) :
  ReadDir fs = Ok dents -> In name dents ->
  Scan.Sscanf_cpu_d name = Some id -> id <> -1 ->
  PathExists fs (onlinePath name) = true -> ReadFile fs (onlinePath name) = Ok [] ->
  deviceTaskBalance_sysfs rt fs containers = Panic.
Proof.
  intros Hd Hin Hs Hid He Hf. unfold deviceTaskBalance_sysfs. rewrite Hd.
  rewrite (count_cpus_panics fs name id dents Hs Hid He Hf Hin). reflexivity.
Qed.

Lemma empty_online_file_panics_witness :
  deviceTaskBalance_sysfs rt_ascending sysfs_empty [instance "A" "1"] = Panic.
Proof.
  apply (empty_online_file_panics rt_ascending sysfs_empty ["cpu0"; "cpu1"; "cpu2"]
           "cpu1" 1 [instance "A" "1"]);
    [reflexivity|right; left; reflexivity|vm_compute; reflexivity|discriminate
    |vm_compute; reflexivity|vm_compute; reflexivity].
Defined.


(** ** The validator of limits.cpu.allowance *)

Lemma append_length (s t : string) :
  String.length (s +:+ t) = (String.length s + String.length t)%nat.
Proof.
  induction s as [|c s IH]; [reflexivity|].
  rewrite append_cons. cbn [String.length]. rewrite IH. reflexivity.
Qed.

Lemma append_assoc (s t u : string) : (s +:+ t) +:+ u = s +:+ t +:+ u.
Proof.
  induction s as [|c s IH]; [reflexivity|].
  rewrite !append_cons, IH. reflexivity.
Qed.

Lemma append_nil_r (s : string) : s +:+ "" = s.
Proof.
  induction s as [|c s IH]; [reflexivity|]. rewrite append_cons, IH. reflexivity.
Qed.

Lemma substring_app_skip (x y : string) (n m : nat) :
  String.substring (String.length x + n) m (x +:+ y) = String.substring n m y.
Proof.
  induction x as [|c x IH]; [reflexivity|].
  rewrite append_cons. cbn [String.length Nat.add String.substring]. exact IH.
Qed.

Lemma substring_0_app (p suf : string) :
  String.substring 0 (String.length p) (p +:+ suf) = p.
Proof.
  induction p as [|c p IH]; [apply substring_0_0|].
  rewrite append_cons. cbn [String.length String.substring]. rewrite IH. reflexivity.
Qed.

Lemma substring_split (s : string) (n : nat) :
  (n <= String.length s)%nat ->
  s = String.substring 0 n s +:+ String.substring n (String.length s - n) s.
Proof.
  revert n. induction s as [|c s IH]; intros n Hn.
  - cbn [String.length] in Hn. assert (n = 0%nat) as -> by lia. reflexivity.
  - destruct n as [|n].
    + rewrite substring_0_0, append_nil, Nat.sub_0_r, substring_0_length. reflexivity.
    + cbn [String.length] in Hn. cbn [String.length String.substring Nat.sub].
      rewrite append_cons. f_equal. apply IH. lia.
Qed.

Lemma HasSuffix_app_r (x y suf : string) :
  (String.length suf <= String.length y)%nat ->
  Go.HasSuffix (x +:+ y) suf = Go.HasSuffix y suf.
Proof.
  intros H. unfold Go.HasSuffix. rewrite append_length.
  replace (String.length x + String.length y - String.length suf)%nat
    with (String.length x + (String.length y - String.length suf))%nat by lia.
  rewrite substring_app_skip.
  destruct (Nat.leb_spec (String.length suf) (String.length y)); [|lia].
  destruct (Nat.leb_spec (String.length suf) (String.length x + String.length y)); [|lia].
  reflexivity.
Qed.

Lemma HasSuffix_refl (suf : string) : Go.HasSuffix suf suf = true.
Proof.
  unfold Go.HasSuffix. rewrite Nat.sub_diag, substring_0_length, Nat.leb_refl.
  destruct (streq_spec suf suf); [reflexivity|congruence].
Qed.

Lemma HasSuffix_app (p suf : string) : Go.HasSuffix (p +:+ suf) suf = true.
Proof. rewrite HasSuffix_app_r by lia. apply HasSuffix_refl. Qed.

Lemma HasSuffix_split (s suf : string) :
  Go.HasSuffix s suf = true -> s = Go.TrimSuffix s suf +:+ suf.
Proof.
  intros H. unfold Go.TrimSuffix. rewrite H. unfold Go.HasSuffix in H.
  apply andb_prop in H. destruct H as [Hl He].
  apply Nat.leb_le in Hl.
  pose proof (streq_spec (String.substring (String.length s - String.length suf)
                            (String.length suf) s) suf) as R.
  rewrite He in R. inversion R as [E|].
  unfold Go.substr. rewrite Nat.sub_0_r.
  rewrite (substring_split s (String.length s - String.length suf)) at 1 by lia.
  f_equal. rewrite <- E at 3. f_equal. lia.
Qed.

Lemma TrimSuffix_app (p suf : string) : Go.TrimSuffix (p +:+ suf) suf = p.
Proof.
  unfold Go.TrimSuffix. rewrite HasSuffix_app. unfold Go.substr.
  rewrite append_length, Nat.sub_0_r.
  replace (String.length p + String.length suf - String.length suf)%nat
    with (String.length p) by lia.
  apply substring_0_app.
Qed.

Lemma SplitN2_no_sep (a : string) (sep : ascii) :
  Go.Contains a sep = false -> Go.SplitN2 a sep = [a].
Proof.
  induction a as [|c a IH]; [reflexivity|].
  cbn [Go.Contains Go.SplitN2]. intros H. apply orb_false_elim in H. destruct H as [Hc Ha].
  rewrite Hc, (IH Ha). reflexivity.
Qed.

Lemma SplitN2_app_sep (a b : string) (sep : ascii) :
  Go.Contains a sep = false -> Go.SplitN2 (a +:+ String sep b) sep = [a; b].
Proof.
  induction a as [|c a IH]; intros H.
  - rewrite append_nil. cbn [Go.SplitN2]. rewrite Ascii.eqb_refl. reflexivity.
  - cbn [Go.Contains] in H. apply orb_false_elim in H. destruct H as [Hc Ha].
    rewrite append_cons. cbn [Go.SplitN2]. rewrite Hc, (IH Ha). reflexivity.
Qed.

Lemma SplitN2_two (s : string) (sep : ascii) (f0 f1 : string) :
  Go.SplitN2 s sep = [f0; f1] -> s = f0 +:+ String sep f1.
Proof.
  revert f0. induction s as [|c s IH]; intros f0; [discriminate|].
  cbn [Go.SplitN2]. destruct (Ascii.eqb_spec c sep) as [->|].
  - intros [= <- <-]. reflexivity.
  - destruct (Go.SplitN2 s sep) as [|h [|h' [|? ?]]]; try discriminate.
    intros [= <- <-]. rewrite append_cons. f_equal. apply IH. reflexivity.
Qed.

Lemma parse_digits_Contains (s : string) (acc z : Z) (c : ascii) :
  no_digit c = true -> Go.parse_digits 10 s acc = Some z -> Go.Contains s c = false.
Proof.
  intros Hc. revert acc. induction s as [|x s IH]; intros acc; [reflexivity|].
  cbn [Go.parse_digits Go.Contains].
  destruct (Go.digit_val x) as [d|] eqn:Ed; [|discriminate].
  destruct (d <? 10) eqn:Hd; [|discriminate].
  intros H. rewrite (IH _ H), orb_false_r.
  destruct (Ascii.eqb_spec x c) as [->|]; [|reflexivity].
  unfold no_digit in Hc. rewrite Ed in Hc. lia.
Qed.

Lemma Atoi_Contains (s : string) (c : ascii) :
  no_digit c = true -> c <> "+"%char -> c <> "-"%char ->
  int_text s -> Go.Contains s c = false.
Proof.
  intros Hc Hp Hm [z H]. unfold Go.Atoi, Go.ParseInt in H.
  destruct s as [|x rest]; [discriminate|].
  cbv zeta in H.
  destruct (Ascii.eqb_spec x "+") as [->|Hxp];
    [|destruct (Ascii.eqb_spec x "-") as [->|Hxm]]; cbn [orb] in H.
  - destruct rest as [|y rest]; [discriminate|].
    destruct (Go.parse_digits 10 (String y rest) 0) as [un|] eqn:E; [|discriminate].
    cbn [Go.Contains]. destruct (Ascii.eqb_spec "+"%char c); [congruence|].
    exact (parse_digits_Contains _ _ _ _ Hc E).
  - destruct rest as [|y rest]; [discriminate|].
    destruct (Go.parse_digits 10 (String y rest) 0) as [un|] eqn:E; [|discriminate].
    cbn [Go.Contains]. destruct (Ascii.eqb_spec "-"%char c); [congruence|].
    exact (parse_digits_Contains _ _ _ _ Hc E).
  - destruct (Go.parse_digits 10 (String x rest) 0) as [un|] eqn:E; [|discriminate].
    exact (parse_digits_Contains _ _ _ _ Hc E).
Qed.

Lemma int_text_no_suffix (s suf : string) (c : ascii) :
  no_digit c = true -> c <> "+"%char -> c <> "-"%char ->
  Go.Contains suf c = true -> int_text s -> Go.HasSuffix s suf = false.
Proof.
  intros Hc Hp Hm Hsuf Hs. destruct (Go.HasSuffix s suf) eqn:E; [|reflexivity].
  apply HasSuffix_split in E.
  pose proof (Atoi_Contains s c Hc Hp Hm Hs) as H.
  rewrite E, Contains_app, Hsuf, orb_true_r in H. discriminate H.
Qed.

Lemma int_text_TrimSuffix (s suf : string) (c : ascii) :
  no_digit c = true -> c <> "+"%char -> c <> "-"%char ->
  Go.Contains suf c = true -> int_text s -> Go.TrimSuffix s suf = s.
Proof.
  intros Hc Hp Hm Hsuf Hs. unfold Go.TrimSuffix.
  rewrite (int_text_no_suffix s suf c Hc Hp Hm Hsuf Hs). reflexivity.
Qed.

Lemma time_TrimSuffix (a u : string) :
  time_unit u -> int_text a -> Go.TrimSuffix (a +:+ u) "ms" = a.
Proof.
  intros [->| ->] Ha.
  - rewrite append_nil_r.
    apply (int_text_TrimSuffix a "ms" "s");
      [reflexivity|discriminate|discriminate|reflexivity|exact Ha].
  - apply TrimSuffix_app.
Qed.

Lemma time_Contains (a u : string) (c : ascii) :
  no_digit c = true -> c <> "+"%char -> c <> "-"%char ->
  c <> "m"%char -> c <> "s"%char ->
  time_unit u -> int_text a -> Go.Contains (a +:+ u) c = false.
Proof.
  intros Hc Hp Hm Hcm Hcs Hu Ha. rewrite Contains_app, (Atoi_Contains a c Hc Hp Hm Ha).
  destruct Hu as [->| ->]; [reflexivity|].
  cbn [Go.Contains orb].
  destruct (Ascii.eqb_spec "m"%char c); [congruence|].
  destruct (Ascii.eqb_spec "s"%char c); [congruence|]. reflexivity.
Qed.

Lemma time_split (f : string) :
  int_text (Go.TrimSuffix f "ms") ->
  exists a u, f = a +:+ u /\ time_unit u /\ int_text a.
Proof.
  intros H. destruct (Go.HasSuffix f "ms") eqn:E.
  - exists (Go.TrimSuffix f "ms"), "ms". split; [apply HasSuffix_split, E|].
    split; [right; reflexivity|exact H].
  - unfold Go.TrimSuffix in H. rewrite E in H.
    exists f, "". rewrite append_nil_r. split; [reflexivity|].
    split; [left; reflexivity|exact H].
Qed.

Lemma allowance_percent (n : string) : int_text n -> limits_cpu_allowance (n +:+ "%") = None.
Proof.
  intros [z Hz]. unfold limits_cpu_allowance.
  destruct (streq_spec (n +:+ "%") "") as [E|_].
  { reflexivity. }
  rewrite HasSuffix_app, TrimSuffix_app, Hz. reflexivity.
Qed.

Lemma allowance_time (a ua b ub : string) :
  time_unit ua -> time_unit ub -> int_text a -> int_text b ->
  limits_cpu_allowance (a +:+ ua +:+ "/" +:+ b +:+ ub) = None.
Proof.
  intros Hua Hub Ha Hb. unfold limits_cpu_allowance.
  destruct (streq_spec (a +:+ ua +:+ "/" +:+ b +:+ ub) "") as [E|_]; [reflexivity|].
  assert (Hne : (1 <= String.length (b +:+ ub))%nat).
  { destruct Hb as [z Hz]. apply Atoi_nonempty in Hz. destruct b; [congruence|].
    rewrite append_cons. cbn [String.length]. lia. }
  assert (Hsuf : Go.HasSuffix (a +:+ ua +:+ "/" +:+ b +:+ ub) "%" = false).
  { rewrite <- (append_assoc a ua), <- (append_assoc (a +:+ ua) "/").
    rewrite HasSuffix_app_r by exact Hne.
    destruct (Go.HasSuffix (b +:+ ub) "%") eqn:E; [|reflexivity].
    apply HasSuffix_split in E.
    pose proof (time_Contains b ub "%" eq_refl ltac:(discriminate) ltac:(discriminate)
                  ltac:(discriminate) ltac:(discriminate) Hub Hb) as H.
    rewrite E, Contains_app in H. cbn [Go.Contains] in H.
    rewrite Ascii.eqb_refl, orb_true_r in H. discriminate H. }
  rewrite Hsuf.
  rewrite <- (append_assoc a ua).
  change ("/" +:+ b +:+ ub) with (String "/" (b +:+ ub)).
  rewrite SplitN2_app_sep
    by (apply time_Contains; [reflexivity|discriminate..|assumption|assumption]).
  rewrite (time_TrimSuffix a ua Hua Ha), (time_TrimSuffix b ub Hub Hb).
  destruct Ha as [za ->], Hb as [zb ->]. reflexivity.
Qed.

(** X30.  The validator of limits.cpu.allowance accepts the empty string, an
    integer that [strconv.Atoi] reads followed by a percent sign, and two
    such integers separated by a slash, each with or without the unit ms;
    it rejects every other value.  Neither form is bounded: every [int]
    is accepted as a percentage (negative ones, zero and those above 100
    too), and every pair of [int]s as a time over a period, without unit
    and with a period of zero as well. *)
Theorem limits_cpu_allowance_accepts :
  (forall value, limits_cpu_allowance value = None <->
     value = "" \/
     (exists n, value = n +:+ "%" /\ int_text n) \/
     (exists a ua b ub, value = a +:+ ua +:+ "/" +:+ b +:+ ub /\
        time_unit ua /\ time_unit ub /\ int_text a /\ int_text b)) /\
  (forall n, in_range n -> limits_cpu_allowance (Go.itoa n +:+ "%") = None) /\
  (forall a b, in_range a -> in_range b ->
     limits_cpu_allowance (Go.itoa a +:+ "/" +:+ Go.itoa b) = None).
Proof.
  split; [|split].
  - intros value. split.
    + unfold limits_cpu_allowance.
      destruct (streq_spec value "") as [->|Hne]; [left; reflexivity|].
      destruct (Go.HasSuffix value "%") eqn:Ep.
      * destruct (Go.Atoi (Go.TrimSuffix value "%")) as [z|] eqn:Ez; [|discriminate].
        intros _. right. left. exists (Go.TrimSuffix value "%").
        split; [apply HasSuffix_split, Ep|exists z; exact Ez].
      * destruct (Go.SplitN2 value "/") as [|f0 [|f1 [|? ?]]] eqn:Es; try discriminate.
        destruct (Go.Atoi (Go.TrimSuffix f0 "ms")) as [z0|] eqn:E0; [|discriminate].
        destruct (Go.Atoi (Go.TrimSuffix f1 "ms")) as [z1|] eqn:E1; [|discriminate].
        intros _. right. right.
        destruct (time_split f0 (ex_intro _ z0 E0)) as (a & ua & -> & Hua & Ha).
        destruct (time_split f1 (ex_intro _ z1 E1)) as (b & ub & -> & Hub & Hb).
        exists a, ua, b, ub. split; [|auto].
        rewrite (SplitN2_two _ _ _ _ Es), append_assoc. reflexivity.
    + intros [->|[(n & -> & Hn)|(a & ua & b & ub & -> & Hua & Hub & Ha & Hb)]].
      * reflexivity.
      * apply allowance_percent, Hn.
      * apply allowance_time; assumption.
  - intros n Hn. apply allowance_percent. exists n. apply Atoi_itoa, Hn.
  - intros a b Ha Hb.
    pose proof (allowance_time (Go.itoa a) "" (Go.itoa b) "") as H.
    rewrite append_nil, append_nil_r in H.
    apply H; [left; reflexivity|left; reflexivity| |].
    + exists a. apply Atoi_itoa, Ha.
    + exists b. apply Atoi_itoa, Hb.
Qed.
